(** * ai-diagnostic-operator: the Failure Detector and the Diagnosis
      Lifecycle Controller

    A shallow embedding of [api/v1/poddiagnosis_types.go] (the pod watcher:
    [isPodFailed], [getFailureReason], the event filter and
    [PodWatcherReconciler.Reconcile]) and of
    [internal/controller/poddiagnosis_controller.go] ([callAIEndpoint],
    [getPodLogs] and [PodDiagnosisReconciler.Reconcile]).

    Go strings are [string]s (bytes, UTF-8 as in the source), [int32] and
    [int64] values are [Z], a nil-able pointer is an [option], a slice is a
    [list], the resource store is a [gmap] keyed by namespace and name. *)

From stdpp Require Import base strings list gmap pretty.
From Stdlib Require Import ZArith Ascii Lia.

Open Scope Z_scope.

(** ** The parts of [k8s.io/api/core/v1] the controllers read *)

Module corev1.

(** [type PodPhase string] and its constants. *)
Definition PodPhase := string.
Definition PodPending : PodPhase := "Pending".
Definition PodRunning : PodPhase := "Running".
Definition PodSucceeded : PodPhase := "Succeeded".
Definition PodFailed : PodPhase := "Failed".

(** [type PodConditionType string], [type ConditionStatus string]. *)
Definition PodScheduled : string := "PodScheduled".
Definition ConditionTrue : string := "True".
Definition ConditionFalse : string := "False".
(** The untyped constant [PodReasonUnschedulable]. *)
Definition PodReasonUnschedulable : string := "Unschedulable".

Definition EventTypeWarning : string := "Warning".

Record PodCondition := {
  Cond_Type : string;
  Cond_Status : string;
  Cond_Reason : string;
  Cond_Message : string
}.

Record ContainerStateWaiting := {
  Waiting_Reason : string;
  Waiting_Message : string
}.

Record ContainerStateTerminated := {
  Terminated_ExitCode : Z;
  Terminated_Reason : string
}.

(** [ContainerState]: three pointers, each of which may be nil.  The
    running state carries nothing the controllers read. *)
Record ContainerState := {
  Waiting : option ContainerStateWaiting;
  Running : option unit;
  Terminated : option ContainerStateTerminated
}.

Record ContainerStatus := {
  Container_Name : string;
  State : ContainerState
}.

Record PodStatus := {
  Phase : PodPhase;
  Conditions : list PodCondition;
  ContainerStatuses : list ContainerStatus
}.

Record Pod := {
  Pod_Name : string;
  Pod_Namespace : string;
  Pod_UID : string;
  Pod_Status : PodStatus
}.

End corev1.

Import corev1.

(** ** Failure classification ([isPodFailed]) *)

(** The first loop of branch 2: a [PodScheduled] condition with status
    [False] and reason [Unschedulable] returns [true] at once. *)
Fixpoint unschedulable_loop (conds : list PodCondition) : bool :=
  match conds with
  | [] => false
  | cond :: rest =>
      if String.eqb (Cond_Type cond) PodScheduled
         && String.eqb (Cond_Status cond) ConditionFalse
         && String.eqb (Cond_Reason cond) PodReasonUnschedulable
      then true
      else unschedulable_loop rest
  end.

(** The [switch reason] of branch 2. *)
Definition pending_error_reason (reason : string) : bool :=
  String.eqb reason "ImagePullBackOff" || String.eqb reason "ErrImagePull"
  || String.eqb reason "CrashLoopBackOff"
  || String.eqb reason "CreateContainerError".

(** The second loop of branch 2. *)
Fixpoint waiting_error_loop (statuses : list ContainerStatus) : bool :=
  match statuses with
  | [] => false
  | status :: rest =>
      match Waiting (State status) with
      | Some w =>
          if pending_error_reason (Waiting_Reason w) then true
          else waiting_error_loop rest
      | None => waiting_error_loop rest
      end
  end.

(** The loop of branch 3, with its two flags and its early return; at the
    end of the slice it yields [allTerminated && hasNonZero]. *)
Fixpoint terminated_loop (statuses : list ContainerStatus)
    (allTerminated hasNonZero : bool) : bool :=
  match statuses with
  | [] => allTerminated && hasNonZero
  | status :: rest =>
      match Terminated (State status) with
      | None =>
          match Waiting (State status) with
          | Some w =>
              if String.eqb (Waiting_Reason w) "CrashLoopBackOff"
                 || String.eqb (Waiting_Reason w) "CreateContainerError"
              then true
              else terminated_loop rest false hasNonZero
          | None => terminated_loop rest false hasNonZero
          end
      | Some t =>
          if negb (Terminated_ExitCode t =? 0)
          then terminated_loop rest allTerminated true
          else terminated_loop rest allTerminated hasNonZero
      end
  end.

Definition isPodFailed (pod : Pod) : bool :=
  if String.eqb (Phase (Pod_Status pod)) PodFailed then true
  else if String.eqb (Phase (Pod_Status pod)) PodPending
          && (unschedulable_loop (Conditions (Pod_Status pod))
              || waiting_error_loop (ContainerStatuses (Pod_Status pod)))
  then true
  else terminated_loop (ContainerStatuses (Pod_Status pod)) true false.

(** ** The failure summary ([getFailureReason]) *)

(** [fmt]'s verbs, as far as the sources use them: [%s], [%d] and [%v]
    print the next argument, [%%] prints a percent sign, any other byte is
    copied.  Every call in the sources passes as many arguments as its
    format has verbs, so the report on surplus arguments is left out. *)
Inductive fmtArg :=
| ArgS (s : string)
| ArgD (n : Z).

Definition fmt_arg (a : fmtArg) : string :=
  match a with
  | ArgS s => s
  | ArgD n => pretty n
  end.

Fixpoint Sprintf (format : string) (args : list fmtArg) : string :=
  match format with
  | EmptyString => EmptyString
  | String c rest =>
      if Ascii.eqb c "%"%char then
        match rest, args with
        | EmptyString, _ => "%!(NOVERB)"
        | String v rest', _ =>
            if Ascii.eqb v "%"%char then String v (Sprintf rest' args)
            else match args with
                 | a :: args' => fmt_arg a +:+ Sprintf rest' args'
                 | [] => "%!" +:+ String v "(MISSING)" +:+ Sprintf rest' []
                 end
        end
      else String c (Sprintf rest args)
  end.

(** The loop over the conditions, entered only when the phase is [Failed]:
    it compares the condition's TYPE with the reason constant
    [PodReasonUnschedulable] and wants the status [True]. *)
Fixpoint reason_cond_loop (conds : list PodCondition) : option string :=
  match conds with
  | [] => None
  | cond :: rest =>
      if String.eqb (Cond_Type cond) PodReasonUnschedulable
         && String.eqb (Cond_Status cond) ConditionTrue
      then Some ("Unschedulable: " +:+ Cond_Message cond)
      else reason_cond_loop rest
  end.

Fixpoint reason_container_loop (statuses : list ContainerStatus)
    : option string :=
  match statuses with
  | [] => None
  | status :: rest =>
      match Terminated (State status) with
      | Some t =>
          if negb (Terminated_ExitCode t =? 0)
          then Some (Sprintf "Container %s exited with code %d: %s"
                       [ArgS (Container_Name status);
                        ArgD (Terminated_ExitCode t);
                        ArgS (Terminated_Reason t)])
          else reason_container_loop rest
      | None => reason_container_loop rest
      end
  end.

Definition getFailureReason (pod : Pod) : string :=
  match (if String.eqb (Phase (Pod_Status pod)) PodFailed
         then reason_cond_loop (Conditions (Pod_Status pod))
         else None) with
  | Some r => r
  | None =>
      match reason_container_loop (ContainerStatuses (Pod_Status pod)) with
      | Some r => r
      | None => "unknown failure"
      end
  end.

(** ** The pod watcher's event filter ([SetupWithManager]) *)

(** An event carries [client.Object]s; the filter recovers a pod with a
    type assertion, which fails on any other kind of object. *)
Inductive Object :=
| PodObject (pod : Pod)
| OtherObject (kind : string).

Definition asPod (o : Object) : option Pod :=
  match o with
  | PodObject pod => Some pod
  | OtherObject _ => None
  end.

Inductive Event :=
| CreateEvent (obj : Object)
| UpdateEvent (objectOld objectNew : Object)
| DeleteEvent (obj : Object)
| GenericEvent (obj : Object).

Definition CreateFunc (obj : Object) : bool :=
  match asPod obj with
  | Some pod => isPodFailed pod
  | None => false
  end.

Definition UpdateFunc (objectOld objectNew : Object) : bool :=
  match asPod objectOld, asPod objectNew with
  | Some oldPod, Some newPod => negb (isPodFailed oldPod) && isPodFailed newPod
  | _, _ => false
  end.

Definition DeleteFunc (obj : Object) : bool := false.
Definition GenericFunc (obj : Object) : bool := false.

(** [predicate.Funcs] dispatches on the kind of the event. *)
Definition eventFilter (e : Event) : bool :=
  match e with
  | CreateEvent obj => CreateFunc obj
  | UpdateEvent o n => UpdateFunc o n
  | DeleteEvent obj => DeleteFunc obj
  | GenericEvent obj => GenericFunc obj
  end.


(** ** [encoding/json], as far as [callAIEndpoint] uses it

    The library is not part of the repository; this is its documented
    behaviour on the two target types.  Bytes above 127 are copied as they
    stand (what the library does on well-formed UTF-8), and the library's
    limit on nesting depth is left out. *)

Module json.

#[warnings="-register-all"]
Inductive value :=
| Null
| Bool (b : bool)
| Number (literal : string)
| Str (s : string)
| Array (elements : list value)
| Object (members : list (string * value)).

Definition dquote : ascii := Eval cbv in ascii_of_nat 34.
Definition backslash : ascii := Eval cbv in ascii_of_nat 92.

Definition is_space (c : ascii) : bool :=
  let n := N_of_ascii c in
  ((n =? 32) || (n =? 9) || (n =? 10) || (n =? 13))%N.

Fixpoint skip_ws (s : string) : string :=
  match s with
  | String c rest => if is_space c then skip_ws rest else s
  | EmptyString => s
  end.

Definition is_digit (c : ascii) : bool :=
  let n := N_of_ascii c in ((48 <=? n) && (n <=? 57))%N.

Definition hex_digit (c : ascii) : option N :=
  let n := N_of_ascii c in
  if ((48 <=? n) && (n <=? 57))%N then Some (n - 48)%N
  else if ((97 <=? n) && (n <=? 102))%N then Some (n - 87)%N
  else if ((65 <=? n) && (n <=? 70))%N then Some (n - 55)%N
  else None.

Definition hex4 (a b c d : ascii) : option N :=
  match hex_digit a, hex_digit b, hex_digit c, hex_digit d with
  | Some x, Some y, Some z, Some w =>
      Some (((x * 16 + y) * 16 + z) * 16 + w)%N
  | _, _, _, _ => None
  end.

(** A string literal is a run of plain bytes and escapes; a [\u] escape
    is kept as its 16-bit unit until surrogates have been paired. *)
Inductive item :=
| Plain (c : ascii)
| Unit16 (u : N).

Definition simple_escape (e : ascii) : option ascii :=
  let n := N_of_ascii e in
  if (n =? 34)%N then Some dquote
  else if (n =? 92)%N then Some backslash
  else if (n =? 47)%N then Some "/"%char
  else if (n =? 98)%N then Some (ascii_of_N 8)
  else if (n =? 102)%N then Some (ascii_of_N 12)
  else if (n =? 110)%N then Some (ascii_of_N 10)
  else if (n =? 114)%N then Some (ascii_of_N 13)
  else if (n =? 116)%N then Some (ascii_of_N 9)
  else None.

(** The text after an opening quote, up to the closing one. *)
Fixpoint scan_string (s : string) : option (list item * string) :=
  match s with
  | EmptyString => None
  | String c rest =>
      if Ascii.eqb c dquote then Some ([], rest)
      else if Ascii.eqb c backslash then
        match rest with
        | String e rest' =>
            if Ascii.eqb e "u"%char then
              match rest' with
              | String h1 (String h2 (String h3 (String h4 rest''))) =>
                  match hex4 h1 h2 h3 h4, scan_string rest'' with
                  | Some u, Some (items, r) => Some (Unit16 u :: items, r)
                  | _, _ => None
                  end
              | _ => None
              end
            else
              match simple_escape e, scan_string rest' with
              | Some b, Some (items, r) => Some (Plain b :: items, r)
              | _, _ => None
              end
        | EmptyString => None
        end
      else if (N_of_ascii c <? 32)%N then None
      else
        match scan_string rest with
        | Some (items, r) => Some (Plain c :: items, r)
        | None => None
        end
  end.

Definition byte (n : N) : ascii := ascii_of_N n.

(** UTF-8 of a code point. *)
Definition utf8 (r : N) : string :=
  if (r <? 128)%N then String (byte r) EmptyString
  else if (r <? 2048)%N then
    String (byte (192 + r / 64)) (String (byte (128 + r mod 64)) EmptyString)
  else if (r <? 65536)%N then
    String (byte (224 + r / 4096))
      (String (byte (128 + (r / 64) mod 64))
         (String (byte (128 + r mod 64)) EmptyString))
  else
    String (byte (240 + r / 262144))
      (String (byte (128 + (r / 4096) mod 64))
         (String (byte (128 + (r / 64) mod 64))
            (String (byte (128 + r mod 64)) EmptyString))).

Definition is_high (u : N) : bool := ((55296 <=? u) && (u <? 56320))%N.
Definition is_low (u : N) : bool := ((56320 <=? u) && (u <? 57344))%N.
Definition replacement : N := 65533%N.

(** A high surrogate followed by a low one is one code point; a lone
    surrogate becomes U+FFFD. *)
Fixpoint unquote (items : list item) : string :=
  match items with
  | [] => EmptyString
  | Plain c :: rest => String c (unquote rest)
  | Unit16 u :: rest =>
      if is_high u then
        match rest with
        | Unit16 v :: rest' =>
            if is_low v
            then utf8 (65536 + (u - 55296) * 1024 + (v - 56320))%N
                 +:+ unquote rest'
            else utf8 replacement +:+ unquote rest
        | _ => utf8 replacement +:+ unquote rest
        end
      else if is_low u then utf8 replacement +:+ unquote rest
      else utf8 u +:+ unquote rest
  end.

Fixpoint take_digits (s : string) : string * string :=
  match s with
  | String c rest =>
      if is_digit c
      then let '(ds, r) := take_digits rest in (String c ds, r)
      else (EmptyString, s)
  | EmptyString => (EmptyString, s)
  end.

(** A number: an optional minus sign, an integer part without a leading
    zero (or a single zero), an optional fraction and an optional exponent,
    the last two with at least one digit each. *)
Definition scan_int (s : string) : option (string * string) :=
  match s with
  | String c rest =>
      if Ascii.eqb c "0"%char then Some ("0", rest)
      else if is_digit c
      then let '(ds, r) := take_digits rest in Some (String c ds, r)
      else None
  | EmptyString => None
  end.

Definition scan_frac (s : string) : option (string * string) :=
  match s with
  | String c rest =>
      if Ascii.eqb c "."%char then
        match take_digits rest with
        | (EmptyString, _) => None
        | (ds, r) => Some (String c ds, r)
        end
      else Some (EmptyString, s)
  | EmptyString => Some (EmptyString, s)
  end.

Definition scan_exp (s : string) : option (string * string) :=
  match s with
  | String c rest =>
      if Ascii.eqb c "e"%char || Ascii.eqb c "E"%char then
        let '(sign, rest1) :=
          match rest with
          | String g rest' =>
              if Ascii.eqb g "+"%char || Ascii.eqb g "-"%char
              then (String g EmptyString, rest')
              else (EmptyString, rest)
          | EmptyString => (EmptyString, rest)
          end in
        match take_digits rest1 with
        | (EmptyString, _) => None
        | (ds, r) => Some (String c (sign +:+ ds), r)
        end
      else Some (EmptyString, s)
  | EmptyString => Some (EmptyString, s)
  end.

Definition scan_number (s : string) : option (string * string) :=
  let '(sign, s1) :=
    match s with
    | String c rest =>
        if Ascii.eqb c "-"%char then (String c EmptyString, rest)
        else (EmptyString, s)
    | EmptyString => (EmptyString, s)
    end in
  match scan_int s1 with
  | None => None
  | Some (i, s2) =>
      match scan_frac s2 with
      | None => None
      | Some (f, s3) =>
          match scan_exp s3 with
          | None => None
          | Some (e, s4) => Some (sign +:+ i +:+ f +:+ e, s4)
          end
      end
  end.

Fixpoint strip_prefix (p s : string) : option string :=
  match p, s with
  | EmptyString, _ => Some s
  | String a p', String b s' =>
      if Ascii.eqb a b then strip_prefix p' s' else None
  | String _ _, EmptyString => None
  end.

(** One value, after leading white space.  Every call of the three
    functions passes on a smaller [fuel]; [2 * length + 2] is enough for
    any text. *)
Fixpoint parse_value (fuel : nat) (s : string) : option (value * string) :=
  match fuel with
  | O => None
  | S fuel' =>
      match skip_ws s with
      | EmptyString => None
      | String c rest as s0 =>
          if Ascii.eqb c "{"%char then
            match skip_ws rest with
            | String c' rest' as r0 =>
                if Ascii.eqb c' "}"%char then Some (Object [], rest')
                else
                  match parse_members fuel' r0 with
                  | Some (ms, r) => Some (Object ms, r)
                  | None => None
                  end
            | EmptyString => None
            end
          else if Ascii.eqb c "["%char then
            match skip_ws rest with
            | String c' rest' as r0 =>
                if Ascii.eqb c' "]"%char then Some (Array [], rest')
                else
                  match parse_elements fuel' r0 with
                  | Some (vs, r) => Some (Array vs, r)
                  | None => None
                  end
            | EmptyString => None
            end
          else if Ascii.eqb c dquote then
            match scan_string rest with
            | Some (items, r) => Some (Str (unquote items), r)
            | None => None
            end
          else if Ascii.eqb c "t"%char then
            option_map (pair (Bool true)) (strip_prefix "true" s0)
          else if Ascii.eqb c "f"%char then
            option_map (pair (Bool false)) (strip_prefix "false" s0)
          else if Ascii.eqb c "n"%char then
            option_map (pair Null) (strip_prefix "null" s0)
          else
            match scan_number s0 with
            | Some (lit, r) => Some (Number lit, r)
            | None => None
            end
      end
  end

with parse_members (fuel : nat) (s : string)
    : option (list (string * value) * string) :=
  match fuel with
  | O => None
  | S fuel' =>
      match skip_ws s with
      | String c rest =>
          if Ascii.eqb c dquote then
            match scan_string rest with
            | Some (items, r1) =>
                match skip_ws r1 with
                | String colon r2 =>
                    if Ascii.eqb colon ":"%char then
                      match parse_value fuel' r2 with
                      | Some (v, r3) =>
                          match skip_ws r3 with
                          | String d r4 =>
                              if Ascii.eqb d ","%char then
                                match parse_members fuel' r4 with
                                | Some (ms, r) =>
                                    Some ((unquote items, v) :: ms, r)
                                | None => None
                                end
                              else if Ascii.eqb d "}"%char
                              then Some ([(unquote items, v)], r4)
                              else None
                          | EmptyString => None
                          end
                      | None => None
                      end
                    else None
                | EmptyString => None
                end
            | None => None
            end
          else None
      | EmptyString => None
      end
  end

with parse_elements (fuel : nat) (s : string)
    : option (list value * string) :=
  match fuel with
  | O => None
  | S fuel' =>
      match parse_value fuel' s with
      | Some (v, r1) =>
          match skip_ws r1 with
          | String d r2 =>
              if Ascii.eqb d ","%char then
                match parse_elements fuel' r2 with
                | Some (vs, r) => Some (v :: vs, r)
                | None => None
                end
              else if Ascii.eqb d "]"%char then Some ([v], r2)
              else None
          | EmptyString => None
          end
      | None => None
      end
  end.

Definition enough (s : string) : nat := (2 * String.length s + 2)%nat.

(** [Unmarshal] first checks that the whole text is one value. *)
Definition parse_document (data : string) : option value :=
  match parse_value (enough data) data with
  | Some (v, rest) =>
      match skip_ws rest with
      | EmptyString => Some v
      | String _ _ => None
      end
  | None => None
  end.

(** [Decoder.Decode] reads the next value of the stream and leaves what
    follows it. *)
Definition parse_next (data : string) : option value :=
  option_map fst (parse_value (enough data) data).

(** How [UnmarshalTypeError] names the kind of the offending value. *)
Definition kind (v : value) : string :=
  match v with
  | Null => "null"
  | Bool _ => "bool"
  | Number _ => "number"
  | Str _ => "string"
  | Array _ => "array"
  | Object _ => "object"
  end.

(** The library words a syntax error after the offending byte; that
    wording is not modelled, every syntax error reads the same here. *)
Inductive jsonError :=
| SyntaxError
| UnmarshalTypeError (Value : string) (Field : string) (Type_ : string).

Definition jsonError_Error (e : jsonError) : string :=
  match e with
  | SyntaxError => "invalid JSON text"
  | UnmarshalTypeError v f t =>
      if String.eqb f ""
      then "json: cannot unmarshal " +:+ v +:+ " into Go value of type " +:+ t
      else "json: cannot unmarshal " +:+ v +:+ " into Go struct field "
           +:+ f +:+ " of type " +:+ t
  end.

(** The decoder keeps the first error and goes on. *)
Definition saveError (saved new : option jsonError) : option jsonError :=
  match saved with
  | Some _ => saved
  | None => new
  end.

(** An object key names a struct field when it equals the field's JSON
    name or differs from it only by case folding: ASCII letters, and the
    two letters outside ASCII that fold onto ASCII ones (U+017F onto S,
    U+212A onto K). *)
Fixpoint foldName (s : string) : string :=
  match s with
  | EmptyString => EmptyString
  | String a rest =>
      let n := N_of_ascii a in
      if ((97 <=? n) && (n <=? 122))%N
      then String (ascii_of_N (n - 32)) (foldName rest)
      else
        match rest with
        | String b rest1 =>
            if ((n =? 197) && (N_of_ascii b =? 191))%N
            then String "S"%char (foldName rest1)
            else
              match rest1 with
              | String c rest2 =>
                  if ((n =? 226) && (N_of_ascii b =? 132)
                      && (N_of_ascii c =? 170))%N
                  then String "K"%char (foldName rest2)
                  else String a (foldName rest)
              | EmptyString => String a (foldName rest)
              end
        | EmptyString => String a (foldName rest)
        end
  end.

Definition names (field key : string) : bool :=
  String.eqb key field || String.eqb (foldName key) (foldName field).

(** A value into a [string] field: a string is stored, [null] leaves the
    field as it is, anything else is a type error. *)
Definition into_string (v : value) (field : string) (cur : string)
    : string * option jsonError :=
  match v with
  | Str s => (s, None)
  | Null => (cur, None)
  | _ => (cur, Some (UnmarshalTypeError (kind v) field "string"))
  end.

End json.

(** ** Go errors

    The controllers ask two things of an [error]: its text ([%v]) and
    whether it is the store's not-found error. *)
Record error := {
  IsNotFound : bool;
  Error : string
}.

(** [fmt.Errorf] without [%w]: a fresh error that wraps nothing. *)
Definition Errorf (format : string) (args : list fmtArg) : error :=
  {| IsNotFound := false; Error := Sprintf format args |}.

(** [%v] of an error prints its text. *)
Definition ArgV (err : error) : fmtArg := ArgS (Error err).

Definition json_error (e : json.jsonError) : error :=
  {| IsNotFound := false; Error := json.jsonError_Error e |}.

(** ** The reasoning service client *)

Record Message := {
  Role : string;
  Content : string
}.

Record ResponseFormat := {
  Type_ : string
}.

(** [Temperature] is a [float32] in the source; only its literal is kept. *)
Record AIRequest := {
  Model : string;
  Messages : list Message;
  Temperature : string;
  ResponseFormat_ : option ResponseFormat
}.

(** One element of [AIResponse.Choices]: [struct{ Message struct{ Content
    string } }]. *)
Record Choice := {
  Choice_Message_Content : string
}.

Record AIResponse := {
  Choices : list Choice
}.

Record DiagnosisResult := {
  RootCause : string;
  Suggestion : string
}.

Definition dq : string := String json.dquote EmptyString.

Definition systemPrompt : string :=
  "你是一个资深的云原生架构师与 Kubernetes SRE 专家。
你的任务是根据提供的 Pod 故障信息和日志，分析崩溃的根本原因，并给出可执行的修复建议。
请严格按照 JSON 格式输出，务必包含以下两个字段：
1. " +:+ dq +:+ "rootCause" +:+ dq +:+ ": 用一两句话简明扼要地概括根本原因。
2. " +:+ dq +:+ "suggestion" +:+ dq +:+ ": 给出具体的排查或修复指令（如修改内存限制、检查配置字典等）。
不要输出任何 Markdown 标记符或其他多余的解释性文字。".

Definition buildPrompt (podName triggerReason logs : string) : list Message :=
  let userPrompt := Sprintf "
【异常 Pod 名称】: %s
【触发诊断原因】: %s
【尾部日志 (Stdout/Stderr)】:
---
%s
---" [ArgS podName; ArgS triggerReason; ArgS logs] in
  [ {| Role := "system"; Content := systemPrompt |};
    {| Role := "user"; Content := userPrompt |} ].

(** *** Decoding the two response types *)

Definition zeroResult : DiagnosisResult :=
  {| RootCause := ""; Suggestion := "" |}.

Fixpoint object_into_DiagnosisResult (members : list (string * json.value))
    (r : DiagnosisResult) (saved : option json.jsonError)
    : DiagnosisResult * option json.jsonError :=
  match members with
  | [] => (r, saved)
  | (key, v) :: rest =>
      if json.names "rootCause" key then
        let '(x, e) :=
          json.into_string v "DiagnosisResult.rootCause" (RootCause r) in
        object_into_DiagnosisResult rest
          {| RootCause := x; Suggestion := Suggestion r |}
          (json.saveError saved e)
      else if json.names "suggestion" key then
        let '(x, e) :=
          json.into_string v "DiagnosisResult.suggestion" (Suggestion r) in
        object_into_DiagnosisResult rest
          {| RootCause := RootCause r; Suggestion := x |}
          (json.saveError saved e)
      else object_into_DiagnosisResult rest r saved
  end.

(** [json.Unmarshal([]byte(content), &result)] on a zero [result]: a key
    that names no field is skipped, and a field no key names keeps its
    zero value; neither is an error. *)
Definition Unmarshal_DiagnosisResult (content : string)
    : json.jsonError + DiagnosisResult :=
  match json.parse_document content with
  | None => inl json.SyntaxError
  | Some (json.Object members) =>
      match object_into_DiagnosisResult members zeroResult None with
      | (_, Some e) => inl e
      | (r, None) => inr r
      end
  | Some json.Null => inr zeroResult
  | Some v =>
      inl (json.UnmarshalTypeError (json.kind v) ""
             "controller.DiagnosisResult")
  end.

Fixpoint object_into_message (members : list (string * json.value))
    (content : string) (saved : option json.jsonError)
    : string * option json.jsonError :=
  match members with
  | [] => (content, saved)
  | (key, v) :: rest =>
      if json.names "content" key then
        let '(x, e) := json.into_string v "message.content" content in
        object_into_message rest x (json.saveError saved e)
      else object_into_message rest content saved
  end.

Fixpoint object_into_choice (members : list (string * json.value))
    (c : Choice) (saved : option json.jsonError)
    : Choice * option json.jsonError :=
  match members with
  | [] => (c, saved)
  | (key, v) :: rest =>
      if json.names "message" key then
        match v with
        | json.Object ms =>
            let '(x, e) :=
              object_into_message ms (Choice_Message_Content c) saved in
            object_into_choice rest {| Choice_Message_Content := x |} e
        | json.Null => object_into_choice rest c saved
        | _ =>
            object_into_choice rest c
              (json.saveError saved
                 (Some (json.UnmarshalTypeError (json.kind v)
                          "choices.message" "struct")))
        end
      else object_into_choice rest c saved
  end.

(** The elements of an array, each into a fresh element of the slice. *)
Fixpoint array_into_choices (elements : list json.value)
    (saved : option json.jsonError)
    : list Choice * option json.jsonError :=
  match elements with
  | [] => ([], saved)
  | v :: rest =>
      let '(c, e) :=
        match v with
        | json.Object ms =>
            object_into_choice ms {| Choice_Message_Content := "" |} saved
        | json.Null => ({| Choice_Message_Content := "" |}, saved)
        | _ =>
            ({| Choice_Message_Content := "" |},
             json.saveError saved
               (Some (json.UnmarshalTypeError (json.kind v)
                        "choices" "struct")))
        end in
      let '(cs, e') := array_into_choices rest e in
      (c :: cs, e')
  end.

Fixpoint object_into_AIResponse (members : list (string * json.value))
    (r : AIResponse) (saved : option json.jsonError)
    : AIResponse * option json.jsonError :=
  match members with
  | [] => (r, saved)
  | (key, v) :: rest =>
      if json.names "choices" key then
        match v with
        | json.Array elements =>
            let '(cs, e) := array_into_choices elements saved in
            object_into_AIResponse rest {| Choices := cs |} e
        | json.Null => object_into_AIResponse rest {| Choices := [] |} saved
        | _ =>
            object_into_AIResponse rest r
              (json.saveError saved
                 (Some (json.UnmarshalTypeError (json.kind v)
                          "AIResponse.choices" "[]struct")))
        end
      else object_into_AIResponse rest r saved
  end.

(** [json.NewDecoder(resp.Body).Decode(&aiResp)] on a zero [aiResp]. *)
Definition Decode_AIResponse (body : string) : json.jsonError + AIResponse :=
  match json.parse_next body with
  | None => inl json.SyntaxError
  | Some (json.Object members) =>
      match object_into_AIResponse members {| Choices := [] |} None with
      | (_, Some e) => inl e
      | (r, None) => inr r
      end
  | Some json.Null => inr {| Choices := [] |}
  | Some v =>
      inl (json.UnmarshalTypeError (json.kind v) "" "controller.AIResponse")
  end.

(** *** [callAIEndpoint] *)

(** The process environment ([os.Getenv]). *)
Record Environ := {
  AI_API_KEY : string;
  AI_API_URL : string;
  AI_MODEL : string
}.

(** The request handed to the HTTP client.  Its body is the value given to
    [json.Marshal], which cannot fail on [AIRequest]. *)
Record Request := {
  Method : string;
  URL : string;
  Header : list (string * string);
  Request_Body : AIRequest
}.

Record Response := {
  StatusCode : Z;
  Body : string
}.

(** What the network answers: whether [http.NewRequestWithContext] accepts
    the URL, and what [client.Do] returns (a transport error, the timeout
    included, or a response). *)
Record Network := {
  NewRequest_error : string -> option error;
  Do : Request -> error + Response
}.

Definition StatusOK : Z := 200.

(** The request [callAIEndpoint] builds: the marshalled [AIRequest], posted
    to the configured URL with the two headers. *)
Definition newRequest (env : Environ) (podName triggerReason logs : string)
    : Request :=
  let reqBody :=
    {| Model := AI_MODEL env;
       Messages := buildPrompt podName triggerReason logs;
       Temperature := "0.2";
       ResponseFormat_ := Some {| Type_ := "json_object" |} |} in
  {| Method := "POST"; URL := AI_API_URL env;
     Header := [("Content-Type", "application/json");
                ("Authorization", "Bearer " +:+ AI_API_KEY env)];
     Request_Body := reqBody |}.

Definition callAIEndpoint (env : Environ) (net : Network)
    (podName triggerReason logs : string) : error + DiagnosisResult :=
  let apiKey := AI_API_KEY env in
  let apiURL := AI_API_URL env in
  if String.eqb apiKey "" || String.eqb apiURL "" then
    inl (Errorf "AI_API_KEY 或 AI_API_URL 未配置" [])
  else
    match NewRequest_error net apiURL with
    | Some err => inl err
    | None =>
        match Do net (newRequest env podName triggerReason logs) with
        | inl err => inl (Errorf "调用 AI 接口失败: %v" [ArgV err])
        | inr resp =>
            if negb (StatusCode resp =? StatusOK) then
              inl (Errorf "AI 接口返回非 200 状态码: %d"
                     [ArgD (StatusCode resp)])
            else
              match Decode_AIResponse (Body resp) with
              | inl err =>
                  inl (Errorf "解析 AI 响应失败: %v" [ArgV (json_error err)])
              | inr aiResp =>
                  match Choices aiResp with
                  | [] => inl (Errorf "AI 响应内容为空" [])
                  | choice :: _ =>
                      let content := Choice_Message_Content choice in
                      match Unmarshal_DiagnosisResult content with
                      | inl err =>
                          inl (Errorf
                                 "反序列化 DiagnosisResult 失败, AI 返回内容为: %s, error: %v"
                                 [ArgS content; ArgV (json_error err)])
                      | inr result => inr result
                      end
                  end
              end
        end
    end.

(** ** The diagnosis request resource ([api/v1]) *)

Module metav1.

Record OwnerReference := {
  Owner_Kind : string;
  Owner_Name : string;
  Owner_UID : string;
  Owner_Controller : bool
}.

Record ObjectMeta := {
  Name : string;
  GenerateName : string;
  Namespace : string;
  Labels : list (string * string);
  OwnerReferences : list OwnerReference
}.

(** [metav1.Time], in seconds. *)
Definition Time := Z.

End metav1.

Module diagnosticv1.

Record PodDiagnosisSpec := {
  PodName : string;
  Namespace : string;
  TriggerReason : string;
  TailLines : Z
}.

Record PodDiagnosisStatus := {
  Phase : string;
  RootCause : string;
  Suggestion : string;
  DiagnosisTime : option metav1.Time
}.

Record PodDiagnosis := {
  ObjectMeta : metav1.ObjectMeta;
  Spec : PodDiagnosisSpec;
  Status : PodDiagnosisStatus
}.

End diagnosticv1.

(** ** The resource store, the log source and the event recorder *)

(** A JSON merge patch of the status: a field is present when it differs
    between the snapshot and the changed object. *)
Record StatusPatch := {
  patch_phase : option string;
  patch_rootCause : option string;
  patch_suggestion : option string;
  patch_diagnosisTime : option (option metav1.Time)
}.

(** What a pass does to the outside, in the order it does it. *)
Inductive Effect :=
| LogFetch (namespace podName : string) (tailLines : Z)
| ReasoningCall (podName triggerReason logs : string)
| StatusWrite (key : string * string) (patch : StatusPatch)
| CreateRequest (d : diagnosticv1.PodDiagnosis)
| PodEvent (pod : string * string) (eventtype reason message : string).

(** The store holds pods and diagnosis requests under (namespace, name). *)
Record World := {
  pods : gmap (string * string) Pod;
  diagnoses : gmap (string * string) diagnosticv1.PodDiagnosis;
  trace : list Effect
}.

(** What the outside answers during one pass: the error, if any, of each
    call to the store, the suffix the store appends to a [GenerateName],
    the log stream, the clock, the environment and the network. *)
Record Outcomes := {
  Get_fault : string -> string * string -> option error;
  List_fault : option error;
  SetControllerReference_fault : option error;
  Create_fault : option error;
  Patch_fault : option error;
  generated_suffix : string;
  Stream : string -> string -> Z -> error + (error + string);
  Now : metav1.Time;
  environ : Environ;
  network : Network
}.

Definition NotFound (kind : string) (key : string * string) : error :=
  {| IsNotFound := true;
     Error := Sprintf "%s %s not found" [ArgS kind; ArgS (snd key)] |}.

(** A state monad over the world. *)
Definition M (A : Type) : Type := World -> A * World.

Definition ret {A : Type} (a : A) : M A := fun w => (a, w).

Definition bind {A B : Type} (m : M A) (k : A -> M B) : M B :=
  fun w => let '(a, w') := m w in k a w'.

Notation "x <- c ;; k" := (bind c (fun x => k))
  (at level 100, c at next level, right associativity).

Definition emit (e : Effect) : M unit :=
  fun w => (tt, {| pods := pods w; diagnoses := diagnoses w;
                   trace := trace w ++ [e] |}).

Definition GetPod (o : Outcomes) (key : string * string) : M (error + Pod) :=
  fun w =>
    match Get_fault o "Pod" key with
    | Some err => (inl err, w)
    | None =>
        match pods w !! key with
        | Some pod => (inr pod, w)
        | None => (inl (NotFound "pods" key), w)
        end
    end.

Definition GetPodDiagnosis (o : Outcomes) (key : string * string)
    : M (error + diagnosticv1.PodDiagnosis) :=
  fun w =>
    match Get_fault o "PodDiagnosis" key with
    | Some err => (inl err, w)
    | None =>
        match diagnoses w !! key with
        | Some d => (inr d, w)
        | None => (inl (NotFound "poddiagnoses" key), w)
        end
    end.

(** Modelled from the spec: the field index [spec.podName], which the
    watcher's comment expects [main.go] to register, selects the requests
    whose target pod name is the given one ("look up existing
    DiagnosisRequests filtered by target pod name within the pod's
    namespace"). *)
Definition selected (namespace podName : string)
    (d : diagnosticv1.PodDiagnosis) : bool :=
  String.eqb (metav1.Namespace (diagnosticv1.ObjectMeta d)) namespace
  && String.eqb (diagnosticv1.PodName (diagnosticv1.Spec d)) podName.

Definition List (o : Outcomes) (namespace podName : string)
    : M (error + list diagnosticv1.PodDiagnosis) :=
  fun w =>
    match List_fault o with
    | Some err => (inl err, w)
    | None =>
        (inr (List.filter (selected namespace podName)
                (map snd (map_to_list (diagnoses w)))), w)
    end.

Definition AlreadyExists (name : string) : error :=
  {| IsNotFound := false;
     Error := Sprintf "poddiagnoses %s already exists" [ArgS name] |}.

(** [Create] of an object with a [GenerateName]: the store appends a suffix
    of its choice and refuses a name that is taken. *)
Definition Create (o : Outcomes) (d : diagnosticv1.PodDiagnosis)
    : M (option error) :=
  fun w =>
    let w1 := snd (emit (CreateRequest d) w) in
    match Create_fault o with
    | Some err => (Some err, w1)
    | None =>
        let meta := diagnosticv1.ObjectMeta d in
        let name := metav1.GenerateName meta +:+ generated_suffix o in
        let key := (metav1.Namespace meta, name) in
        match diagnoses w1 !! key with
        | Some _ => (Some (AlreadyExists name), w1)
        | None =>
            let stored :=
              {| diagnosticv1.ObjectMeta :=
                   {| metav1.Name := name;
                      metav1.GenerateName := metav1.GenerateName meta;
                      metav1.Namespace := metav1.Namespace meta;
                      metav1.Labels := metav1.Labels meta;
                      metav1.OwnerReferences := metav1.OwnerReferences meta |};
                 diagnosticv1.Spec := diagnosticv1.Spec d;
                 diagnosticv1.Status := diagnosticv1.Status d |} in
            (None, {| pods := pods w1;
                      diagnoses := <[key := stored]> (diagnoses w1);
                      trace := trace w1 |})
        end
    end.

Definition changed (old new : string) : option string :=
  if String.eqb old new then None else Some new.

(** [client.MergeFrom(base)]: the patch is the difference between the
    snapshot and the object as the pass changed it; a pass changes nothing
    but the status. *)
Definition MergeFrom (base obj : diagnosticv1.PodDiagnosis) : StatusPatch :=
  let old := diagnosticv1.Status base in
  let new := diagnosticv1.Status obj in
  {| patch_phase := changed (diagnosticv1.Phase old) (diagnosticv1.Phase new);
     patch_rootCause :=
       changed (diagnosticv1.RootCause old) (diagnosticv1.RootCause new);
     patch_suggestion :=
       changed (diagnosticv1.Suggestion old) (diagnosticv1.Suggestion new);
     patch_diagnosisTime :=
       if bool_decide (diagnosticv1.DiagnosisTime old
                       = diagnosticv1.DiagnosisTime new)
       then None else Some (diagnosticv1.DiagnosisTime new) |}.

Definition apply_patch (p : StatusPatch) (s : diagnosticv1.PodDiagnosisStatus)
    : diagnosticv1.PodDiagnosisStatus :=
  {| diagnosticv1.Phase := default (diagnosticv1.Phase s) (patch_phase p);
     diagnosticv1.RootCause :=
       default (diagnosticv1.RootCause s) (patch_rootCause p);
     diagnosticv1.Suggestion :=
       default (diagnosticv1.Suggestion s) (patch_suggestion p);
     diagnosticv1.DiagnosisTime :=
       default (diagnosticv1.DiagnosisTime s) (patch_diagnosisTime p) |}.

Definition with_status (d : diagnosticv1.PodDiagnosis)
    (s : diagnosticv1.PodDiagnosisStatus) : diagnosticv1.PodDiagnosis :=
  {| diagnosticv1.ObjectMeta := diagnosticv1.ObjectMeta d;
     diagnosticv1.Spec := diagnosticv1.Spec d;
     diagnosticv1.Status := s |}.

Definition key_of (d : diagnosticv1.PodDiagnosis) : string * string :=
  (metav1.Namespace (diagnosticv1.ObjectMeta d),
   metav1.Name (diagnosticv1.ObjectMeta d)).

(** [r.Status().Patch(ctx, &diagnosis, client.MergeFrom(base))]: the store
    applies the patch to the status of the object it holds. *)
Definition Status_Patch (o : Outcomes) (obj base : diagnosticv1.PodDiagnosis)
    : M (option error) :=
  fun w =>
    let patch := MergeFrom base obj in
    let w1 := snd (emit (StatusWrite (key_of obj) patch) w) in
    match Patch_fault o with
    | Some err => (Some err, w1)
    | None =>
        match diagnoses w1 !! key_of obj with
        | None => (Some (NotFound "poddiagnoses" (key_of obj)), w1)
        | Some cur =>
            (None,
             {| pods := pods w1;
                diagnoses :=
                  <[key_of obj :=
                      with_status cur
                        (apply_patch patch (diagnosticv1.Status cur))]>
                    (diagnoses w1);
                trace := trace w1 |})
        end
    end.

Definition getPodLogs (o : Outcomes) (namespace podName : string)
    (tailLines : Z) : M (error + string) :=
  _ <- emit (LogFetch namespace podName tailLines) ;;
  ret (match Stream o namespace podName tailLines with
       | inl err => inl (Errorf "打开日志流失败: %v" [ArgV err])
       | inr (inl err) => inl (Errorf "读取日志内容失败: %v" [ArgV err])
       | inr (inr logs) => inr logs
       end).

(** ** The Diagnosis Lifecycle Controller *)

Module PodDiagnosisReconciler.

(** The three assignments of a Failed transition: phase, root cause and
    time. *)
Definition fail (d : diagnosticv1.PodDiagnosis) (rootCause : string)
    (now : metav1.Time) : diagnosticv1.PodDiagnosis :=
  with_status d
    {| diagnosticv1.Phase := "Failed";
       diagnosticv1.RootCause := rootCause;
       diagnosticv1.Suggestion :=
         diagnosticv1.Suggestion (diagnosticv1.Status d);
       diagnosticv1.DiagnosisTime := Some now |}.

(** The four assignments of the Completed transition. *)
Definition complete (d : diagnosticv1.PodDiagnosis) (r : DiagnosisResult)
    (now : metav1.Time) : diagnosticv1.PodDiagnosis :=
  with_status d
    {| diagnosticv1.Phase := "Completed";
       diagnosticv1.RootCause := RootCause r;
       diagnosticv1.Suggestion := Suggestion r;
       diagnosticv1.DiagnosisTime := Some now |}.

Definition effectiveTailLines (d : diagnosticv1.PodDiagnosis) : Z :=
  let tailLines := diagnosticv1.TailLines (diagnosticv1.Spec d) in
  if tailLines =? 0 then 100 else tailLines.

Definition Reconcile (o : Outcomes) (req : string * string)
    : M (option error) :=
  g <- GetPodDiagnosis o req ;;
  match g with
  | inl err => if IsNotFound err then ret None else ret (Some err)
  | inr diagnosis =>
      let phase := diagnosticv1.Phase (diagnosticv1.Status diagnosis) in
      if String.eqb phase "Completed" || String.eqb phase "Failed"
      then ret None
      else
        let targetPodName :=
          diagnosticv1.PodName (diagnosticv1.Spec diagnosis) in
        let namespace :=
          diagnosticv1.Namespace (diagnosticv1.Spec diagnosis) in
        let tailLines := effectiveTailLines diagnosis in
        l <- getPodLogs o namespace targetPodName tailLines ;;
        match l with
        | inl err =>
            let base := diagnosis in
            let diagnosis :=
              fail diagnosis (Sprintf "获取日志失败: %v" [ArgV err]) (Now o) in
            _ <- Status_Patch o diagnosis base ;;
            ret None
        | inr logs =>
            let triggerReason :=
              diagnosticv1.TriggerReason (diagnosticv1.Spec diagnosis) in
            _ <- emit (ReasoningCall targetPodName triggerReason logs) ;;
            match callAIEndpoint (environ o) (network o)
                    targetPodName triggerReason logs with
            | inl err =>
                let base := diagnosis in
                let diagnosis :=
                  fail diagnosis (Sprintf "诊断失败: %v" [ArgV err]) (Now o) in
                _ <- Status_Patch o diagnosis base ;;
                ret None
            | inr diagnosisResult =>
                let podKey := (namespace, targetPodName) in
                p <- GetPod o podKey ;;
                _ <- match p with
                     | inl _ => ret tt
                     | inr targetPod =>
                         emit (PodEvent
                                 (Pod_Namespace targetPod, Pod_Name targetPod)
                                 EventTypeWarning "AIDiagnosisResult"
                                 (Sprintf "【AI 根因分析】: %s 
【修复建议】: %s"
                                    [ArgS (RootCause diagnosisResult);
                                     ArgS (Suggestion diagnosisResult)]))
                     end ;;
                let base := diagnosis in
                let diagnosis := complete diagnosis diagnosisResult (Now o) in
                e <- Status_Patch o diagnosis base ;;
                match e with
                | Some err => ret (Some err)
                | None => ret None
                end
            end
        end
  end.

End PodDiagnosisReconciler.

(** ** The Failure Detector *)

Module PodWatcherReconciler.

(** The loop over [diagnosisList.Items]: the first request whose phase is
    neither Completed nor Failed ends the pass. *)
Fixpoint has_unfinished (items : list diagnosticv1.PodDiagnosis) : bool :=
  match items with
  | [] => false
  | d :: rest =>
      let phase := diagnosticv1.Phase (diagnosticv1.Status d) in
      if negb (String.eqb phase "Completed") && negb (String.eqb phase "Failed")
      then true
      else has_unfinished rest
  end.

Definition newDiagnosis (pod : Pod) : diagnosticv1.PodDiagnosis :=
  {| diagnosticv1.ObjectMeta :=
       {| metav1.Name := "";
          metav1.GenerateName := Sprintf "%s-diagnosis-" [ArgS (Pod_Name pod)];
          metav1.Namespace := Pod_Namespace pod;
          metav1.Labels := [("diagnosed-pod", Pod_Name pod);
                            ("created-by", "pod-watcher")];
          metav1.OwnerReferences := [] |};
     diagnosticv1.Spec :=
       {| diagnosticv1.PodName := Pod_Name pod;
          diagnosticv1.Namespace := Pod_Namespace pod;
          diagnosticv1.TriggerReason :=
            Sprintf "Pod entered failed state: %s"
              [ArgS (getFailureReason pod)];
          diagnosticv1.TailLines := 100 |};
     diagnosticv1.Status :=
       {| diagnosticv1.Phase := "";
          diagnosticv1.RootCause := "";
          diagnosticv1.Suggestion := "";
          diagnosticv1.DiagnosisTime := None |} |}.

(** [controllerutil.SetControllerReference]: the request is fresh and lives
    in the pod's namespace, so the call can only fail on the scheme. *)
Definition SetControllerReference (o : Outcomes) (pod : Pod)
    (d : diagnosticv1.PodDiagnosis) : error + diagnosticv1.PodDiagnosis :=
  match SetControllerReference_fault o with
  | Some err => inl err
  | None =>
      let meta := diagnosticv1.ObjectMeta d in
      inr {| diagnosticv1.ObjectMeta :=
               {| metav1.Name := metav1.Name meta;
                  metav1.GenerateName := metav1.GenerateName meta;
                  metav1.Namespace := metav1.Namespace meta;
                  metav1.Labels := metav1.Labels meta;
                  metav1.OwnerReferences :=
                    metav1.OwnerReferences meta
                    ++ [ {| metav1.Owner_Kind := "Pod";
                            metav1.Owner_Name := Pod_Name pod;
                            metav1.Owner_UID := Pod_UID pod;
                            metav1.Owner_Controller := true |} ] |};
             diagnosticv1.Spec := diagnosticv1.Spec d;
             diagnosticv1.Status := diagnosticv1.Status d |}
  end.

Definition IgnoreNotFound (err : error) : option error :=
  if IsNotFound err then None else Some err.

Definition Reconcile (o : Outcomes) (req : string * string)
    : M (option error) :=
  g <- GetPod o req ;;
  match g with
  | inl err => ret (IgnoreNotFound err)
  | inr pod =>
      if negb (isPodFailed pod) then ret None
      else
        l <- List o (Pod_Namespace pod) (Pod_Name pod) ;;
        match l with
        | inl err => ret (Some err)
        | inr items =>
            if has_unfinished items then ret None
            else
              match SetControllerReference o pod (newDiagnosis pod) with
              | inl err => ret (Some err)
              | inr diagnosis =>
                  c <- Create o diagnosis ;;
                  match c with
                  | Some err => ret (Some err)
                  | None => ret None
                  end
              end
        end
  end.

End PodWatcherReconciler.

(** ** The system: passes of the two controllers, and the cluster around
    them *)

(** One step: a pass of either controller on any key with any outcomes,
    any change of the pods (which the platform owns), or the removal of a
    request (the garbage collection that follows the owner's deletion). *)
Inductive step : World -> World -> Prop :=
| step_watch (o : Outcomes) (req : string * string) (w : World) :
    step w (snd (PodWatcherReconciler.Reconcile o req w))
| step_diagnose (o : Outcomes) (req : string * string) (w : World) :
    step w (snd (PodDiagnosisReconciler.Reconcile o req w))
| step_pods (w : World) (pods' : gmap (string * string) Pod) :
    step w {| pods := pods'; diagnoses := diagnoses w; trace := trace w |}
| step_collect (w : World) (key : string * string) :
    step w {| pods := pods w; diagnoses := delete key (diagnoses w);
              trace := trace w |}.

Definition reachable (w0 w : World) : Prop := rtc step w0 w.

(** * Properties *)

(** ** Failure classification, as the design documents it *)

Section Classification.

Implicit Types (pod : Pod) (c : ContainerStatus).

Definition terminated c : Prop := Terminated (State c) <> None.

Definition exit_code_nonzero c : Prop :=
  exists t, Terminated (State c) = Some t /\ Terminated_ExitCode t <> 0.

Definition exit_code_zero c : Prop :=
  exists t, Terminated (State c) = Some t /\ Terminated_ExitCode t = 0.

Definition waits_with (reasons : list string) c : Prop :=
  exists w, Waiting (State c) = Some w /\ In (Waiting_Reason w) reasons.

Definition scheduling_failed (cond : PodCondition) : Prop :=
  Cond_Type cond = PodScheduled /\ Cond_Status cond = ConditionFalse
  /\ Cond_Reason cond = PodReasonUnschedulable.

(** Condition 1: the phase is the terminal-failure phase. *)
Definition condition1 pod : Prop := Phase (Pod_Status pod) = PodFailed.

(** Condition 2: pending, and a scheduling condition reports the failure
    or a container waits with one of the four reasons. *)
Definition condition2 pod : Prop :=
  Phase (Pod_Status pod) = PodPending
  /\ ((exists cond, In cond (Conditions (Pod_Status pod))
                    /\ scheduling_failed cond)
      \/ (exists c, In c (ContainerStatuses (Pod_Status pod))
                    /\ waits_with ["ImagePullBackOff"; "ErrImagePull";
                                   "CrashLoopBackOff"; "CreateContainerError"]
                         c)).

(** Condition 3: every container has terminated and some exit code is not
    zero; or not every container has terminated and one that has not
    waits with CrashLoopBackOff or CreateContainerError. *)
Definition condition3 pod : Prop :=
  let cs := ContainerStatuses (Pod_Status pod) in
  (Forall terminated cs /\ exists c, In c cs /\ exit_code_nonzero c)
  \/ (~ Forall terminated cs
      /\ exists c, In c cs /\ ~ terminated c
                   /\ waits_with ["CrashLoopBackOff"; "CreateContainerError"]
                        c).

(** All containers terminated, all exit codes zero. *)
Definition exited_cleanly pod : Prop :=
  Forall exit_code_zero (ContainerStatuses (Pod_Status pod)).

End Classification.

(** ** The event filter over a history of pod states *)

(** The update events that a succession of states of one pod gives rise
    to: one per pair of consecutive states. *)
Fixpoint updates (states : list Pod) : list Event :=
  match states with
  | prior :: (current :: _) as rest =>
      UpdateEvent (PodObject prior) (PodObject current) :: updates rest
  | _ => []
  end.

(** ** Concrete pods *)

Definition waiting (reason : string) : ContainerState :=
  {| Waiting := Some {| Waiting_Reason := reason; Waiting_Message := "" |};
     Running := None; Terminated := None |}.

Definition exited (code : Z) (reason : string) : ContainerState :=
  {| Waiting := None; Running := None;
     Terminated := Some {| Terminated_ExitCode := code;
                           Terminated_Reason := reason |} |}.

Definition running : ContainerState :=
  {| Waiting := None; Running := Some tt; Terminated := None |}.

Definition web (phase : PodPhase) (conds : list PodCondition)
    (state : ContainerState) : Pod :=
  {| Pod_Name := "web"; Pod_Namespace := "prod"; Pod_UID := "uid-1";
     Pod_Status :=
       {| Phase := phase; Conditions := conds;
          ContainerStatuses :=
            [ {| Container_Name := "app"; State := state |} ] |} |}.

(** Running and healthy. *)
Definition healthy : Pod := web PodRunning [] running.

(** Succeeded: its container exited with code 0. *)
Definition succeeded : Pod := web PodSucceeded [] (exited 0 "Completed").

(** Phase Failed (say, the pod's deadline was exceeded) although its only
    container exited with code 0. *)
Definition deadlineExceeded : Pod := web PodFailed [] (exited 0 "Completed").

(** The container is restarting in a loop: it waits with CrashLoopBackOff. *)
Definition crashLooping : Pod := web PodRunning [] (waiting "CrashLoopBackOff").

(** Pending, and the scheduler found no node. *)
Definition unschedulable : Pod :=
  {| Pod_Name := "web"; Pod_Namespace := "prod"; Pod_UID := "uid-1";
     Pod_Status :=
       {| Phase := PodPending;
          Conditions :=
            [ {| Cond_Type := PodScheduled; Cond_Status := ConditionFalse;
                 Cond_Reason := PodReasonUnschedulable;
                 Cond_Message := "0/3 nodes are available" |} ];
          ContainerStatuses := [] |} |}.

(** ** The reasoning service, seen from [callAIEndpoint] *)

(** The call gets as far as the content of the first choice: the
    configuration is there, the request is accepted and answered with
    status 200, and the envelope decodes to at least one choice. *)
Definition answers (env : Environ) (net : Network)
    (podName triggerReason logs content : string) : Prop :=
  AI_API_KEY env <> "" /\ AI_API_URL env <> ""
  /\ NewRequest_error net (AI_API_URL env) = None
  /\ exists resp aiResp choice rest,
       Do net (newRequest env podName triggerReason logs) = inr resp
       /\ StatusCode resp = StatusOK
       /\ Decode_AIResponse (Body resp) = inr aiResp
       /\ Choices aiResp = choice :: rest
       /\ Choice_Message_Content choice = content.

(** No key of the object names the field. *)
Definition lacks (field : string) (members : list (string * json.value))
    : Prop :=
  forall key v, In (key, v) members -> json.names field key = false.

Definition text_or_null (v : json.value) : Prop :=
  match v with
  | json.Str _ | json.Null => True
  | _ => False
  end.

(** Every value under a key that names one of the two fields is a string
    or [null]. *)
Definition fields_well_typed (members : list (string * json.value)) : Prop :=
  forall key v,
    In (key, v) members ->
    json.names "rootCause" key || json.names "suggestion" key = true ->
    text_or_null v.

(** ** Concrete contents, responses and configurations *)

Definition quoted (s : string) : string := dq +:+ s +:+ dq.

(** A string as a JSON string literal's inside: quotes and backslashes
    escaped. *)
Fixpoint escaped (s : string) : string :=
  match s with
  | EmptyString => EmptyString
  | String c rest =>
      if Ascii.eqb c json.dquote || Ascii.eqb c json.backslash
      then String json.backslash (String c (escaped rest))
      else String c (escaped rest)
  end.

Definition content_full : string :=
  "{" +:+ quoted "rootCause" +:+ ":" +:+ quoted "OOM" +:+ ","
  +:+ quoted "suggestion" +:+ ":" +:+ quoted "increase memory limit" +:+ "}".

(** The field [suggestion] is missing. *)
Definition content_partial : string :=
  "{" +:+ quoted "rootCause" +:+ ":" +:+ quoted "OOM" +:+ "}".

Definition content_not_json : string := "The pod ran out of memory.".

(** A response body whose first choice carries the given content. *)
Definition envelope (content : string) : string :=
  "{" +:+ quoted "choices" +:+ ":[{" +:+ quoted "message" +:+ ":{"
  +:+ quoted "content" +:+ ":" +:+ quoted (escaped content) +:+ "}}]}".

Definition configured : Environ :=
  {| AI_API_KEY := "sk-test"; AI_API_URL := "https://ai.example/v1/chat";
     AI_MODEL := "model-1" |}.

(** A network that answers every request with the given status and body. *)
Definition answering (code : Z) (body : string) : Network :=
  {| NewRequest_error := fun _ => None;
     Do := fun _ => inr {| StatusCode := code; Body := body |} |}.

(** ** Requests in the store *)

Definition unfinished (d : diagnosticv1.PodDiagnosis) : Prop :=
  diagnosticv1.Phase (diagnosticv1.Status d) <> "Completed"
  /\ diagnosticv1.Phase (diagnosticv1.Status d) <> "Failed".

Definition terminal (d : diagnosticv1.PodDiagnosis) : Prop :=
  diagnosticv1.Phase (diagnosticv1.Status d) = "Completed"
  \/ diagnosticv1.Phase (diagnosticv1.Status d) = "Failed".

(** Every request is stored under its own namespace and name, and lives in
    the namespace of the pod it targets (as the watcher creates them). *)
Definition well_placed (w : World) : Prop :=
  forall key d,
    diagnoses w !! key = Some d ->
    key = key_of d
    /\ metav1.Namespace (diagnosticv1.ObjectMeta d)
       = diagnosticv1.Namespace (diagnosticv1.Spec d).

(** At most one unfinished request per target pod name and namespace. *)
Definition at_most_one_unfinished (w : World) : Prop :=
  forall key1 key2 d1 d2,
    diagnoses w !! key1 = Some d1 ->
    diagnoses w !! key2 = Some d2 ->
    unfinished d1 -> unfinished d2 ->
    diagnosticv1.PodName (diagnosticv1.Spec d1)
    = diagnosticv1.PodName (diagnosticv1.Spec d2) ->
    diagnosticv1.Namespace (diagnosticv1.Spec d1)
    = diagnosticv1.Namespace (diagnosticv1.Spec d2) ->
    key1 = key2.

(** The passes of the lifecycle controller on one request, one after the
    other, each with its own outcomes. *)
Definition passes (req : string * string) (os : list Outcomes) (w : World)
    : World :=
  foldl (fun w o => snd (PodDiagnosisReconciler.Reconcile o req w)) w os.

(** The status writes among the effects. *)
Definition is_status_write (e : Effect) : bool :=
  match e with
  | StatusWrite _ _ => true
  | _ => false
  end.

(** ** Concrete requests, worlds and outcomes *)

Definition request (phase : string) (tailLines : Z)
    : diagnosticv1.PodDiagnosis :=
  {| diagnosticv1.ObjectMeta :=
       {| metav1.Name := "web-diagnosis-x7k2p";
          metav1.GenerateName := "web-diagnosis-";
          metav1.Namespace := "prod";
          metav1.Labels := [("diagnosed-pod", "web");
                            ("created-by", "pod-watcher")];
          metav1.OwnerReferences := [] |};
     diagnosticv1.Spec :=
       {| diagnosticv1.PodName := "web";
          diagnosticv1.Namespace := "prod";
          diagnosticv1.TriggerReason :=
            "Pod entered failed state: unknown failure";
          diagnosticv1.TailLines := tailLines |};
     diagnosticv1.Status :=
       {| diagnosticv1.Phase := phase;
          diagnosticv1.RootCause := "";
          diagnosticv1.Suggestion := "";
          diagnosticv1.DiagnosisTime := None |} |}.

Definition web_key : string * string := ("prod", "web").
Definition request_key : string * string := ("prod", "web-diagnosis-x7k2p").

(** A world with the pod [web] and the given requests. *)
Definition world (pod : Pod) (requests : list diagnosticv1.PodDiagnosis)
    : World :=
  {| pods := {[ web_key := pod ]};
     diagnoses := list_to_map (map (fun d => (key_of d, d)) requests);
     trace := [] |}.

Definition timeout : error :=
  {| IsNotFound := false; Error := "context deadline exceeded" |}.

(** Outcomes of a pass: the fault of a [Get] by kind, the fault of the
    status patch, the log stream and the network; no other fault. *)
Definition outcomes (get_fault : string -> option error)
    (patch_fault : option error) (stream : error + (error + string))
    (net : Network) : Outcomes :=
  {| Get_fault := fun kind _ => get_fault kind;
     List_fault := None;
     SetControllerReference_fault := None;
     Create_fault := None;
     Patch_fault := patch_fault;
     generated_suffix := "x7k2p";
     Stream := fun _ _ _ => stream;
     Now := 1700000000;
     environ := configured;
     network := net |}.

(** Nothing fails: the logs come, the service answers with the full
    content. *)
Definition calm : Outcomes :=
  outcomes (fun _ => None) None (inr (inr "panic: out of memory"))
    (answering 200 (envelope content_full)).

(** The world after some more effects. *)
Definition logged (w : World) (es : list Effect) : World :=
  {| pods := pods w; diagnoses := diagnoses w; trace := trace w ++ es |}.

(** From [w] to [w'] the pass has written the status once, as its last
    effect, with the given patch. *)
Definition writes_once (w w' : World) (key : string * string)
    (patch : StatusPatch) : Prop :=
  exists before,
    trace w' = trace w ++ before ++ [StatusWrite key patch]
    /\ existsb is_status_write before = false.

(** The effects of step 3 of a pass on request [d]: an event on the target
    pod when it can be read, nothing otherwise. *)
Definition event_effects (o : Outcomes) (w : World)
    (d : diagnosticv1.PodDiagnosis) (result : DiagnosisResult) : list Effect :=
  match fst (GetPod o (diagnosticv1.Namespace (diagnosticv1.Spec d),
                       diagnosticv1.PodName (diagnosticv1.Spec d)) w) with
  | inl _ => []
  | inr targetPod =>
      [PodEvent (Pod_Namespace targetPod, Pod_Name targetPod)
         EventTypeWarning "AIDiagnosisResult"
         (Sprintf "【AI 根因分析】: %s 
【修复建议】: %s"
            [ArgS (RootCause result); ArgS (Suggestion result)])]
  end.

(** The log stream cannot be opened. *)
Definition logs_unavailable : Outcomes :=
  outcomes (fun _ => None) None
    (inl {| IsNotFound := false; Error := "container not found" |})
    (answering 200 (envelope content_full)).

(** All goes well, except that the target pod cannot be read before the
    event is emitted: the store times out. *)
Definition pod_read_times_out : Outcomes :=
  outcomes (fun kind => if String.eqb kind "Pod" then Some timeout else None)
    None (inr (inr "panic: out of memory"))
    (answering 200 (envelope content_full)).

(** The log stream cannot be opened, and the status patch fails too. *)
Definition logs_and_patch_fail : Outcomes :=
  outcomes (fun _ => None) (Some timeout)
    (inl {| IsNotFound := false; Error := "container not found" |})
    (answering 200 (envelope content_full)).

(** The request the store holds once the watcher's [Create] for the pod
    has succeeded. *)
Definition created_request (o : Outcomes) (pod : Pod)
    : diagnosticv1.PodDiagnosis :=
  {| diagnosticv1.ObjectMeta :=
       {| metav1.Name :=
            Sprintf "%s-diagnosis-" [ArgS (Pod_Name pod)]
            +:+ generated_suffix o;
          metav1.GenerateName := Sprintf "%s-diagnosis-" [ArgS (Pod_Name pod)];
          metav1.Namespace := Pod_Namespace pod;
          metav1.Labels := [("diagnosed-pod", Pod_Name pod);
                            ("created-by", "pod-watcher")];
          metav1.OwnerReferences :=
            [ {| metav1.Owner_Kind := "Pod";
                 metav1.Owner_Name := Pod_Name pod;
                 metav1.Owner_UID := Pod_UID pod;
                 metav1.Owner_Controller := true |} ] |};
     diagnosticv1.Spec :=
       diagnosticv1.Spec (PodWatcherReconciler.newDiagnosis pod);
     diagnosticv1.Status :=
       diagnosticv1.Status (PodWatcherReconciler.newDiagnosis pod) |}.

(** The object the store holds once [Create] of [d] has succeeded: [d]
    under its generated name. *)
Definition stored_as (o : Outcomes) (d : diagnosticv1.PodDiagnosis)
    : diagnosticv1.PodDiagnosis :=
  let meta := diagnosticv1.ObjectMeta d in
  {| diagnosticv1.ObjectMeta :=
       {| metav1.Name := metav1.GenerateName meta +:+ generated_suffix o;
          metav1.GenerateName := metav1.GenerateName meta;
          metav1.Namespace := metav1.Namespace meta;
          metav1.Labels := metav1.Labels meta;
          metav1.OwnerReferences := metav1.OwnerReferences meta |};
     diagnosticv1.Spec := diagnosticv1.Spec d;
     diagnosticv1.Status := diagnosticv1.Status d |}.

(** ** Further concrete pods *)

Definition named (name : string) (state : ContainerState) : ContainerStatus :=
  {| Container_Name := name; State := state |}.

Definition pod_of (phase : PodPhase) (conds : list PodCondition)
    (containers : list ContainerStatus) : Pod :=
  {| Pod_Name := "web"; Pod_Namespace := "prod"; Pod_UID := "uid-1";
     Pod_Status := {| Phase := phase; Conditions := conds;
                      ContainerStatuses := containers |} |}.

(** The init step exited cleanly, the application was killed. *)
Definition killed : Pod :=
  pod_of PodRunning []
    [named "init" (exited 0 "Completed"); named "app" (exited 137 "OOMKilled");
     named "sidecar" (exited 1 "Error")].

(** Phase Failed, with a condition whose type is the string
    "Unschedulable" and whose status is "True". *)
Definition failed_unschedulable : Pod :=
  pod_of PodFailed
    [ {| Cond_Type := "Ready"; Cond_Status := ConditionFalse;
         Cond_Reason := ""; Cond_Message := "" |};
      {| Cond_Type := PodReasonUnschedulable; Cond_Status := ConditionTrue;
         Cond_Reason := ""; Cond_Message := "no node fits" |} ]
    [named "app" (exited 2 "Error")].

(** The application exited with an error while a sidecar still runs. *)
Definition sidecar_running : Pod :=
  pod_of PodRunning []
    [named "app" (exited 1 "Error"); named "sidecar" running].

(** The image cannot be pulled, and the phase is not Pending. *)
Definition image_missing : Pod :=
  pod_of PodRunning [] [named "app" (waiting "ImagePullBackOff")].

(** ** The failure summary, as it reads *)

(** A condition that the first loop of [getFailureReason] accepts. *)
Definition names_unschedulable (cond : PodCondition) : Prop :=
  Cond_Type cond = PodReasonUnschedulable /\ Cond_Status cond = ConditionTrue.

(** The text for a container that exited with a non-zero code. *)
Definition container_message (c : ContainerStatus)
    (t : ContainerStateTerminated) : string :=
  "Container " +:+ Container_Name c +:+ " exited with code "
  +:+ pretty (Terminated_ExitCode t) +:+ ": " +:+ Terminated_Reason t.

(** The reasoning service is down: it answers 503. *)
Definition service_down : Outcomes :=
  outcomes (fun _ => None) None (inr (inr "panic: out of memory"))
    (answering 503 "Service Unavailable").

(** The text of the event that reports a result on the target pod. *)
Definition event_message (result : DiagnosisResult) : string :=
  "【AI 根因分析】: " +:+ RootCause result +:+ " 
【修复建议】: " +:+ Suggestion result.

(** A response body with two choices: the first carries [first], the
    second [second]. *)
Definition envelope2 (first second : string) : string :=
  "{" +:+ quoted "choices" +:+ ":[{" +:+ quoted "message" +:+ ":{"
  +:+ quoted "content" +:+ ":" +:+ quoted (escaped first) +:+ "}},{"
  +:+ quoted "message" +:+ ":{" +:+ quoted "content" +:+ ":"
  +:+ quoted (escaped second) +:+ "}}]}".

(** No configuration at all. *)
Definition unconfigured : Environ :=
  {| AI_API_KEY := ""; AI_API_URL := ""; AI_MODEL := "" |}.

(** A network on which every request fails. *)
Definition unreachable : Network :=
  {| NewRequest_error := fun _ => None;
     Do := fun _ => inl {| IsNotFound := false;
                           Error := "dial tcp: connection refused" |} |}.

(** What every request that the watcher creates looks like, whatever
    happens to its status later. *)
Definition watcher_made (d : diagnosticv1.PodDiagnosis) : Prop :=
  let meta := diagnosticv1.ObjectMeta d in
  let spec := diagnosticv1.Spec d in
  diagnosticv1.TailLines spec = 100
  /\ metav1.Namespace meta = diagnosticv1.Namespace spec
  /\ metav1.GenerateName meta = diagnosticv1.PodName spec +:+ "-diagnosis-"
  /\ metav1.Labels meta = [("diagnosed-pod", diagnosticv1.PodName spec);
                           ("created-by", "pod-watcher")]
  /\ (exists uid,
        metav1.OwnerReferences meta
        = [ {| metav1.Owner_Kind := "Pod";
               metav1.Owner_Name := diagnosticv1.PodName spec;
               metav1.Owner_UID := uid;
               metav1.Owner_Controller := true |} ])
  /\ (diagnosticv1.Phase (diagnosticv1.Status d) = ""
      \/ terminal d).

Definition all_watcher_made (w : World) : Prop :=
  forall key d, diagnoses w !! key = Some d -> watcher_made d.

Definition no_requests : World :=
  {| pods := ∅; diagnoses := ∅; trace := [] |}.

(** The effects one pass of the lifecycle controller can have, in their
    order: none; a log fetch and the write of Failed; a log fetch, a
    reasoning call and the write of Failed; a log fetch, a reasoning call,
    possibly a Warning event on the pod, and the write of Completed. *)
Inductive pass_effects : list Effect -> Prop :=
| pass_idle : pass_effects []
| pass_log_failed namespace podName tailLines key patch :
    patch_phase patch = Some "Failed" ->
    pass_effects [LogFetch namespace podName tailLines; StatusWrite key patch]
| pass_reasoning_failed namespace podName tailLines reason logs key patch :
    patch_phase patch = Some "Failed" ->
    pass_effects [LogFetch namespace podName tailLines;
                  ReasoningCall podName reason logs; StatusWrite key patch]
| pass_completed namespace podName tailLines reason logs key patch :
    patch_phase patch = Some "Completed" ->
    pass_effects [LogFetch namespace podName tailLines;
                  ReasoningCall podName reason logs; StatusWrite key patch]
| pass_completed_event namespace podName tailLines reason logs pod message
    key patch :
    patch_phase patch = Some "Completed" ->
    pass_effects [LogFetch namespace podName tailLines;
                  ReasoningCall podName reason logs;
                  PodEvent pod EventTypeWarning "AIDiagnosisResult" message;
                  StatusWrite key patch].

(** A JSON object that lacks the field [suggestion] and gives a number for
    [rootCause]. *)
Definition content_number : string :=
  "{" +:+ quoted "rootCause" +:+ ":5}".

(** * Proofs *)

Lemma andb3_true (a b c : bool) :
  a && b && c = true <-> a = true /\ b = true /\ c = true.
Proof. destruct a, b, c; simpl; intuition congruence. Qed.

Lemma unschedulable_loop_spec (conds : list PodCondition) :
  unschedulable_loop conds = true
  <-> exists cond, In cond conds /\ scheduling_failed cond.
Proof.
  induction conds as [|cond rest IH]; simpl.
  - split; [discriminate | intros (? & [] & _)].
  - destruct (String.eqb (Cond_Type cond) PodScheduled
              && String.eqb (Cond_Status cond) ConditionFalse
              && String.eqb (Cond_Reason cond) PodReasonUnschedulable)
      eqn:E.
    + apply andb3_true in E as (E1 & E2 & E3).
      apply String.eqb_eq in E1, E2, E3.
      split; [intros _ | reflexivity].
      exists cond. split; [now left | now repeat split].
    + rewrite IH. split.
      * intros (c & Hin & Hc). exists c. split; [now right | exact Hc].
      * intros (c & [<- | Hin] & Hc); [| now exists c].
        destruct Hc as (H1 & H2 & H3).
        rewrite H1, H2, H3 in E. simpl in E. discriminate.
Qed.

Lemma pending_error_reason_spec (reason : string) :
  pending_error_reason reason = true
  <-> In reason ["ImagePullBackOff"; "ErrImagePull"; "CrashLoopBackOff";
                 "CreateContainerError"].
Proof.
  unfold pending_error_reason. rewrite !orb_true_iff, !String.eqb_eq.
  simpl. intuition congruence.
Qed.

Lemma crash_reason_spec (reason : string) :
  String.eqb reason "CrashLoopBackOff"
  || String.eqb reason "CreateContainerError" = true
  <-> In reason ["CrashLoopBackOff"; "CreateContainerError"].
Proof.
  rewrite orb_true_iff, !String.eqb_eq. simpl. intuition congruence.
Qed.

Lemma waiting_error_loop_spec (statuses : list ContainerStatus) :
  waiting_error_loop statuses = true
  <-> exists c, In c statuses
                /\ waits_with ["ImagePullBackOff"; "ErrImagePull";
                               "CrashLoopBackOff"; "CreateContainerError"] c.
Proof.
  induction statuses as [|status rest IH]; simpl.
  - split; [discriminate | intros (? & [] & _)].
  - destruct (Waiting (State status)) as [w|] eqn:Ew.
    + destruct (pending_error_reason (Waiting_Reason w)) eqn:Er.
      * split; [intros _ | reflexivity].
        exists status. split; [now left |].
        exists w. split; [exact Ew | now apply pending_error_reason_spec].
      * rewrite IH. split.
        -- intros (c & Hin & Hc). exists c. split; [now right | exact Hc].
        -- intros (c & [<- | Hin] & Hc); [| now exists c].
           destruct Hc as (w' & Hw' & Hr).
           rewrite Ew in Hw'. injection Hw' as <-.
           apply pending_error_reason_spec in Hr. congruence.
    + rewrite IH. split.
      * intros (c & Hin & Hc). exists c. split; [now right | exact Hc].
      * intros (c & [<- | Hin] & Hc); [| now exists c].
        destruct Hc as (w' & Hw' & _). congruence.
Qed.

(** The loop of branch 3, for any value of its two flags on entry. *)
Lemma terminated_loop_spec (statuses : list ContainerStatus)
    (allTerminated hasNonZero : bool) :
  terminated_loop statuses allTerminated hasNonZero = true
  <-> (exists c, In c statuses /\ ~ terminated c
                 /\ waits_with ["CrashLoopBackOff"; "CreateContainerError"] c)
      \/ (allTerminated = true /\ Forall terminated statuses
          /\ (hasNonZero = true
              \/ exists c, In c statuses /\ exit_code_nonzero c)).
Proof.
  revert allTerminated hasNonZero.
  induction statuses as [|status rest IH]; intros a h; simpl.
  - rewrite andb_true_iff. split.
    + intros [-> ->]. right. repeat split; [constructor | now left].
    + intros [(? & [] & _) | (-> & _ & [-> | (? & [] & _)])]. now split.
  - destruct (Terminated (State status)) as [t|] eqn:Et.
    + assert (Hterm : terminated status) by (unfold terminated; congruence).
      destruct (Terminated_ExitCode t =? 0) eqn:Ez; simpl; rewrite IH.
      * apply Z.eqb_eq in Ez. split.
        -- intros [(c & Hin & Hc) | (-> & Hall & Hnz)].
           ++ left. exists c. split; [now right | exact Hc].
           ++ right. repeat split; [now constructor |].
              destruct Hnz as [-> | (c & Hin & Hc)]; [now left |].
              right. exists c. split; [now right | exact Hc].
        -- intros [(c & [<- | Hin] & Hnt & Hc) | (-> & Hall & Hnz)].
           ++ contradiction.
           ++ left. now exists c.
           ++ right. inversion Hall; subst. repeat split; [assumption |].
              destruct Hnz as [-> | (c & [<- | Hin] & Hc)]; [now left | |].
              ** destruct Hc as (t' & Ht' & Hne). congruence.
              ** right. now exists c.
      * apply Z.eqb_neq in Ez. split.
        -- intros [(c & Hin & Hc) | (-> & Hall & _)].
           ++ left. exists c. split; [now right | exact Hc].
           ++ right. repeat split; [now constructor |].
              right. exists status. split; [now left |]. now exists t.
        -- intros [(c & [<- | Hin] & Hnt & Hc) | (-> & Hall & _)].
           ++ contradiction.
           ++ left. now exists c.
           ++ right. inversion Hall; subst. repeat split; [assumption |].
              now left.
    + assert (Hnt : ~ terminated status) by (unfold terminated; tauto).
      assert (Hrest :
        terminated_loop rest false h = true
        <-> exists c, In c rest /\ ~ terminated c
              /\ waits_with ["CrashLoopBackOff"; "CreateContainerError"] c).
      { rewrite IH. split; [| now left].
        intros [H | (Hf & _)]; [exact H | discriminate]. }
      assert (Hgoal : forall b : bool,
        (b = true
         <-> (waits_with ["CrashLoopBackOff"; "CreateContainerError"] status
              \/ exists c, In c rest /\ ~ terminated c
                   /\ waits_with ["CrashLoopBackOff"; "CreateContainerError"]
                        c))
        -> (b = true
            <-> (exists c, In c (status :: rest) /\ ~ terminated c
                   /\ waits_with ["CrashLoopBackOff"; "CreateContainerError"]
                        c)
                \/ (a = true /\ Forall terminated (status :: rest)
                    /\ (h = true
                        \/ exists c, In c (status :: rest)
                                     /\ exit_code_nonzero c)))).
      { intros b ->. split.
        - intros [Hw | (c & Hin & Hc)]; left.
          + exists status. split; [now left | now split].
          + exists c. split; [now right | exact Hc].
        - intros [(c & [<- | Hin] & Hn & Hc) | (_ & Hall & _)].
          + now left.
          + right. now exists c.
          + inversion Hall; subst. contradiction. }
      apply Hgoal.
      destruct (Waiting (State status)) as [w|] eqn:Ew.
      * destruct (String.eqb (Waiting_Reason w) "CrashLoopBackOff"
                  || String.eqb (Waiting_Reason w) "CreateContainerError")
          eqn:Er.
        -- split; [intros _ | reflexivity]. left. exists w.
           split; [exact Ew | now apply crash_reason_spec].
        -- rewrite Hrest. split; [now right |].
           intros [(w' & Hw' & Hr) | H]; [| exact H].
           rewrite Ew in Hw'. injection Hw' as <-.
           apply crash_reason_spec in Hr. congruence.
      * rewrite Hrest. split; [now right |].
        intros [(w' & Hw' & _) | H]; [congruence | exact H].
Qed.

Lemma isPodFailed_conditions (pod : Pod) :
  isPodFailed pod = true
  <-> condition1 pod \/ condition2 pod \/ condition3 pod.
Proof.
  unfold isPodFailed, condition1, condition2, condition3.
  destruct (String.eqb (Phase (Pod_Status pod)) PodFailed) eqn:E1.
  { apply String.eqb_eq in E1. split; [now left | reflexivity]. }
  apply String.eqb_neq in E1.
  assert (H3 :
    terminated_loop (ContainerStatuses (Pod_Status pod)) true false = true
    <-> (Forall terminated (ContainerStatuses (Pod_Status pod))
         /\ exists c, In c (ContainerStatuses (Pod_Status pod))
                      /\ exit_code_nonzero c)
        \/ (~ Forall terminated (ContainerStatuses (Pod_Status pod))
            /\ exists c, In c (ContainerStatuses (Pod_Status pod))
                 /\ ~ terminated c
                 /\ waits_with ["CrashLoopBackOff"; "CreateContainerError"]
                      c)).
  { rewrite terminated_loop_spec. split.
    - intros [(c & Hin & Hn & Hc) | (_ & Hall & [Hf | Hnz])].
      + right. split; [| now exists c].
        intros Hall. apply Hn. rewrite List.Forall_forall in Hall.
        now apply Hall.
      + discriminate.
      + now left.
    - intros [(Hall & Hnz) | (_ & H)]; [| now left].
      right. repeat split; [exact Hall | now right]. }
  destruct (String.eqb (Phase (Pod_Status pod)) PodPending
            && (unschedulable_loop (Conditions (Pod_Status pod))
                || waiting_error_loop (ContainerStatuses (Pod_Status pod))))
    eqn:E2.
  - split; [intros _ | reflexivity]. right. left.
    apply andb_true_iff in E2 as [Ep E2]. apply String.eqb_eq in Ep.
    split; [exact Ep |].
    apply orb_true_iff in E2 as [E2 | E2].
    + left. now apply unschedulable_loop_spec.
    + right. now apply waiting_error_loop_spec.
  - rewrite H3. split; [intros H; right; now right |].
    intros [H | [(Hp & H) | H]]; [contradiction | | exact H].
    exfalso. apply String.eqb_eq in Hp. rewrite Hp in E2. simpl in E2.
    apply orb_false_iff in E2 as [Ea Eb].
    destruct H as [H | H].
    + apply unschedulable_loop_spec in H. congruence.
    + apply waiting_error_loop_spec in H. congruence.
Qed.

Lemma exited_cleanly_not_condition3 (pod : Pod) :
  exited_cleanly pod -> ~ condition3 pod.
Proof.
  unfold exited_cleanly, condition3. intros Hz.
  rewrite List.Forall_forall in Hz.
  intros [(_ & c & Hin & t & Ht & Hne) | (Hnot & _)].
  - destruct (Hz c Hin) as (t' & Ht' & Hzero). congruence.
  - apply Hnot. apply List.Forall_forall. intros c Hin.
    destruct (Hz c Hin) as (t & Ht & _). unfold terminated. congruence.
Qed.

(** C1 (as amended).  [isPodFailed] returns [true] exactly when one of the
    three documented conditions holds.  A pod all of whose containers have
    terminated with exit code zero is not failed by condition 3; it is
    classified failed exactly when condition 1 or condition 2 holds. *)
Theorem isPodFailed_documented :
  (forall pod : Pod,
     isPodFailed pod = true
     <-> condition1 pod \/ condition2 pod \/ condition3 pod)
  /\ (forall pod : Pod,
        exited_cleanly pod ->
        (isPodFailed pod = true <-> condition1 pod \/ condition2 pod)).
Proof.
  split; [exact isPodFailed_conditions |].
  intros pod Hz. rewrite isPodFailed_conditions.
  pose proof (exited_cleanly_not_condition3 pod Hz). tauto.
Qed.

Lemma succeeded_exited_cleanly : exited_cleanly succeeded.
Proof.
  constructor; [| constructor].
  eexists. split; reflexivity.
Qed.

Lemma isPodFailed_documented_witness :
  exited_cleanly succeeded
  /\ (isPodFailed succeeded = true
      <-> condition1 succeeded \/ condition2 succeeded).
Proof.
  split; [exact succeeded_exited_cleanly |].
  apply (proj2 isPodFailed_documented succeeded).
  exact succeeded_exited_cleanly.
Defined.

(** C1, the counterexample: a pod in phase Failed whose only container has
    terminated with exit code zero is classified failed. *)
Lemma clean_exit_classified_failed :
  exited_cleanly deadlineExceeded /\ isPodFailed deadlineExceeded = true.
Proof.
  split; [| reflexivity].
  constructor; [| constructor].
  eexists. split; reflexivity.
Qed.

(** Where every container has at most one of its states set, as the
    platform writes them, "waits" alone says that a container has not
    terminated, and condition 3 reads as the design words it. *)
Lemma condition3_one_state_each (pod : Pod) :
  Forall (fun c => Waiting (State c) = None \/ Terminated (State c) = None)
    (ContainerStatuses (Pod_Status pod)) ->
  condition3 pod
  <-> (let cs := ContainerStatuses (Pod_Status pod) in
       (Forall terminated cs /\ exists c, In c cs /\ exit_code_nonzero c)
       \/ (~ Forall terminated cs
           /\ exists c, In c cs
                /\ waits_with ["CrashLoopBackOff"; "CreateContainerError"] c)).
Proof.
  intros Hone. rewrite List.Forall_forall in Hone. unfold condition3. simpl.
  split.
  - intros [H | (Hn & c & Hin & _ & Hc)]; [now left | right].
    split; [exact Hn | now exists c].
  - intros [H | (Hn & c & Hin & Hc)]; [now left | right].
    split; [exact Hn |]. exists c. repeat split; try assumption.
    destruct Hc as (w & Hw & _). unfold terminated.
    destruct (Hone c Hin) as [H | H]; congruence.
Qed.

(** ** The event filter *)

Lemma UpdateFunc_pods (prior current : Pod) :
  UpdateFunc (PodObject prior) (PodObject current) = true
  <-> isPodFailed prior = false /\ isPodFailed current = true.
Proof.
  unfold UpdateFunc. simpl. rewrite andb_true_iff, negb_true_iff. tauto.
Qed.

Lemma updates_of_failed_states (states : list Pod) :
  Forall (fun pod => isPodFailed pod = true) states ->
  Forall (fun e => eventFilter e = false) (updates states).
Proof.
  induction states as [|prior rest IH]; intros Hall; [constructor |].
  inversion Hall as [|? ? Hprior Hrest]; subst.
  destruct rest as [|current rest']; [constructor |].
  change (updates (prior :: current :: rest'))
    with (UpdateEvent (PodObject prior) (PodObject current)
            :: updates (current :: rest')).
  constructor; [| now apply IH].
  simpl. unfold UpdateFunc. simpl. now rewrite Hprior.
Qed.

(** C2.  The filter admits an update exactly on the rising edge (prior not
    failed, current failed), a creation exactly when the created pod is
    failed, and no deletion or generic event.  Hence along a succession of
    failed states no update is admitted. *)
Theorem eventFilter_rising_edge :
  (forall prior current : Pod,
     eventFilter (UpdateEvent (PodObject prior) (PodObject current)) = true
     <-> isPodFailed prior = false /\ isPodFailed current = true)
  /\ (forall pod : Pod,
        eventFilter (CreateEvent (PodObject pod)) = true
        <-> isPodFailed pod = true)
  /\ (forall obj : Object, eventFilter (DeleteEvent obj) = false)
  /\ (forall obj : Object, eventFilter (GenericEvent obj) = false)
  /\ (forall states : list Pod,
        Forall (fun pod => isPodFailed pod = true) states ->
        Forall (fun e => eventFilter e = false) (updates states)).
Proof.
  split; [exact UpdateFunc_pods |].
  split; [intros pod; reflexivity |].
  split; [intros obj; reflexivity |].
  split; [intros obj; reflexivity |].
  exact updates_of_failed_states.
Qed.

Lemma eventFilter_rising_edge_witness :
  Forall (fun e => eventFilter e = false)
    (updates [crashLooping; crashLooping; deadlineExceeded]).
Proof.
  apply (proj2 (proj2 (proj2 (proj2 eventFilter_rising_edge)))
           [crashLooping; crashLooping; deadlineExceeded]).
  repeat constructor.
Defined.

(** ** The reasoning service client *)

Lemma eqb_empty_false (s : string) : s <> "" -> String.eqb s "" = false.
Proof. intros H. now apply String.eqb_neq. Qed.

(** Once the call has the content in hand, its result is the result of
    parsing the content. *)
Lemma callAIEndpoint_content (env : Environ) (net : Network)
    (podName triggerReason logs content : string) :
  answers env net podName triggerReason logs content ->
  callAIEndpoint env net podName triggerReason logs
  = match Unmarshal_DiagnosisResult content with
    | inl err =>
        inl (Errorf
               "反序列化 DiagnosisResult 失败, AI 返回内容为: %s, error: %v"
               [ArgS content; ArgV (json_error err)])
    | inr result => inr result
    end.
Proof.
  intros (Hkey & Hurl & Hreq & resp & aiResp & choice & rest
          & Hdo & Hcode & Hdec & Hch & Hcontent).
  unfold callAIEndpoint.
  rewrite (eqb_empty_false _ Hkey), (eqb_empty_false _ Hurl). simpl.
  rewrite Hreq, Hdo, Hcode. simpl.
  rewrite Hdec, Hch, Hcontent. reflexivity.
Qed.

Lemma append_empty_r (s : string) : s +:+ "" = s.
Proof.
  induction s as [|c s IH]; [reflexivity |].
  change (String c (s +:+ "") = String c s). now rewrite IH.
Qed.

(** The parse error spells out the raw content. *)
Lemma parse_error_names_content (content : string) (err : json.jsonError) :
  Error (Errorf "反序列化 DiagnosisResult 失败, AI 返回内容为: %s, error: %v"
           [ArgS content; ArgV (json_error err)])
  = "反序列化 DiagnosisResult 失败, AI 返回内容为: " +:+ content
    +:+ ", error: " +:+ json.jsonError_Error err.
Proof.
  transitivity
    ("反序列化 DiagnosisResult 失败, AI 返回内容为: " +:+ content
     +:+ ", error: " +:+ json.jsonError_Error err +:+ "");
    [reflexivity | now rewrite append_empty_r].
Qed.

Lemma names_cases (field key : string) :
  json.names field key = true \/ json.names field key = false.
Proof. destruct (json.names field key); auto. Qed.

(** Decoding an object: without a type error nothing is saved, a field no
    key names keeps its value. *)
Lemma object_into_DiagnosisResult_spec
    (members : list (string * json.value)) :
  forall (r : DiagnosisResult) (saved : option json.jsonError),
    fields_well_typed members ->
    snd (object_into_DiagnosisResult members r saved) = saved
    /\ (lacks "rootCause" members ->
        RootCause (fst (object_into_DiagnosisResult members r saved))
        = RootCause r)
    /\ (lacks "suggestion" members ->
        Suggestion (fst (object_into_DiagnosisResult members r saved))
        = Suggestion r).
Proof.
  induction members as [|[key v] rest IH]; intros r saved Hty; simpl.
  - repeat split; reflexivity.
  - assert (Hty' : fields_well_typed rest).
    { intros k x Hin. apply Hty. now right. }
    assert (Hsave : forall e, json.saveError saved None = e -> e = saved).
    { intros e <-. now destruct saved. }
    destruct (json.names "rootCause" key) eqn:E1.
    + assert (Hv : text_or_null v).
      { apply (Hty key v); [now left | now rewrite E1]. }
      destruct v; try contradiction; simpl;
        match goal with
        | |- context [object_into_DiagnosisResult rest ?r' ?s'] =>
            destruct (IH r' s' Hty') as (H1 & H2 & H3)
        end;
        (split; [rewrite H1; now destruct saved |]);
        (split;
         [ intros Hl; specialize (Hl key _ (or_introl eq_refl)); congruence
         | intros Hl; rewrite H3; [reflexivity |];
           intros k x Hin; apply (Hl k x); now right ]).
    + destruct (json.names "suggestion" key) eqn:E2.
      * assert (Hv : text_or_null v).
        { apply (Hty key v); [now left | now rewrite E1, E2]. }
        destruct v; try contradiction; simpl;
          match goal with
          | |- context [object_into_DiagnosisResult rest ?r' ?s'] =>
              destruct (IH r' s' Hty') as (H1 & H2 & H3)
          end;
          (split; [rewrite H1; now destruct saved |]);
          (split;
           [ intros Hl; rewrite H2; [reflexivity |];
             intros k x Hin; apply (Hl k x); now right
           | intros Hl; specialize (Hl key _ (or_introl eq_refl));
             congruence ]).
      * destruct (IH r saved Hty') as (H1 & H2 & H3).
        split; [exact H1 |].
        split; intros Hl; [apply H2 | apply H3];
          intros k x Hin; apply (Hl k x); now right.
Qed.

Lemma Unmarshal_object (content : string)
    (members : list (string * json.value)) :
  json.parse_document content = Some (json.Object members) ->
  fields_well_typed members ->
  exists result,
    Unmarshal_DiagnosisResult content = inr result
    /\ (lacks "rootCause" members -> RootCause result = "")
    /\ (lacks "suggestion" members -> Suggestion result = "").
Proof.
  intros Hparse Hty. unfold Unmarshal_DiagnosisResult. rewrite Hparse.
  destruct (object_into_DiagnosisResult_spec members zeroResult None Hty)
    as (H1 & H2 & H3).
  destruct (object_into_DiagnosisResult members zeroResult None)
    as [r e] eqn:E.
  simpl in H1, H2, H3. subst e. exists r. auto.
Qed.

(** Every object is well typed in the two fields, or has a member under a
    key that names one of them whose value is neither a string nor
    [null]. *)
Lemma fields_dichotomy (members : list (string * json.value)) :
  fields_well_typed members
  \/ exists key v,
       In (key, v) members
       /\ json.names "rootCause" key || json.names "suggestion" key = true
       /\ ~ text_or_null v.
Proof.
  induction members as [|[key v] rest IH].
  - left. intros key v [].
  - destruct IH as [Hrest | (k & x & Hin & Hk & Hx)].
    + destruct (json.names "rootCause" key || json.names "suggestion" key)
        eqn:E.
      * assert (Hv : text_or_null v \/ ~ text_or_null v)
          by (destruct v; cbn; tauto).
        destruct Hv as [Hv | Hv].
        -- left. intros k x [Heq | Hin] Hk.
           ++ injection Heq as <- <-. exact Hv.
           ++ exact (Hrest k x Hin Hk).
        -- right. exists key, v. split; [now left | now split].
      * left. intros k x [Heq | Hin] Hk.
        -- injection Heq as <- <-. congruence.
        -- exact (Hrest k x Hin Hk).
    + right. exists k, x. split; [now right | now split].
Qed.

(** The decoder keeps the first error to the end. *)
Lemma object_into_DiagnosisResult_saved
    (members : list (string * json.value)) :
  forall (r : DiagnosisResult) (e : json.jsonError),
    snd (object_into_DiagnosisResult members r (Some e)) = Some e.
Proof.
  induction members as [|[key v] rest IH]; intros r e; [reflexivity |].
  cbn [object_into_DiagnosisResult].
  destruct (json.names "rootCause" key).
  - destruct (json.into_string v "DiagnosisResult.rootCause" (RootCause r))
      as [x e']. cbn [json.saveError]. apply IH.
  - destruct (json.names "suggestion" key); [| apply IH].
    destruct (json.into_string v "DiagnosisResult.suggestion" (Suggestion r))
      as [x e']. cbn [json.saveError]. apply IH.
Qed.

Lemma into_string_type_error (v : json.value) (field cur : string) :
  ~ text_or_null v ->
  exists e, snd (json.into_string v field cur) = Some e.
Proof.
  intros Hv. destruct v; cbn in Hv; try tauto; cbn; eauto.
Qed.

(** A value of another kind under a key that names a field is an error of
    the whole decoding. *)
Lemma object_into_DiagnosisResult_type_error
    (members : list (string * json.value)) :
  forall (r : DiagnosisResult) (saved : option json.jsonError),
    (exists key v,
       In (key, v) members
       /\ json.names "rootCause" key || json.names "suggestion" key = true
       /\ ~ text_or_null v) ->
    exists e, snd (object_into_DiagnosisResult members r saved) = Some e.
Proof.
  induction members as [|[key v] rest IH]; intros r saved (k & x & Hin & Hk & Hx);
    [destruct Hin |].
  cbn [object_into_DiagnosisResult].
  destruct Hin as [Heq | Hin].
  - injection Heq as <- <-.
    destruct (json.names "rootCause" key) eqn:E1.
    + destruct (into_string_type_error v "DiagnosisResult.rootCause"
                  (RootCause r) Hx) as [e He].
      destruct (json.into_string v "DiagnosisResult.rootCause" (RootCause r))
        as [y e']. cbn [snd] in He. subst e'.
      destruct saved as [e0|]; cbn [json.saveError]; eexists;
        apply object_into_DiagnosisResult_saved.
    + cbn [orb] in Hk. rewrite Hk.
      destruct (into_string_type_error v "DiagnosisResult.suggestion"
                  (Suggestion r) Hx) as [e He].
      destruct (json.into_string v "DiagnosisResult.suggestion" (Suggestion r))
        as [y e']. cbn [snd] in He. subst e'.
      destruct saved as [e0|]; cbn [json.saveError]; eexists;
        apply object_into_DiagnosisResult_saved.
  - assert (Hbad : exists key v,
              In (key, v) rest
              /\ json.names "rootCause" key || json.names "suggestion" key
                 = true
              /\ ~ text_or_null v) by (exists k, x; auto).
    destruct (json.names "rootCause" key).
    + destruct (json.into_string v "DiagnosisResult.rootCause" (RootCause r))
        as [y e']. now apply IH.
    + destruct (json.names "suggestion" key); [| now apply IH].
      destruct (json.into_string v "DiagnosisResult.suggestion" (Suggestion r))
        as [y e']. now apply IH.
Qed.

Lemma Unmarshal_object_type_error (content : string)
    (members : list (string * json.value)) :
  json.parse_document content = Some (json.Object members) ->
  ~ fields_well_typed members ->
  exists e, Unmarshal_DiagnosisResult content = inl e.
Proof.
  intros Hparse Hty. unfold Unmarshal_DiagnosisResult. rewrite Hparse.
  destruct (fields_dichotomy members) as [Hok | Hbad]; [contradiction |].
  destruct (object_into_DiagnosisResult_type_error members zeroResult None Hbad)
    as [e He].
  destruct (object_into_DiagnosisResult members zeroResult None) as [r e'].
  cbn [snd] in He. subst e'. now exists e.
Qed.

(** C5 (as amended).  The content
    [{"rootCause":"OOM","suggestion":"increase memory limit"}] parses to a
    result with exactly those two values.  A content that is not a JSON
    text yields the parse error of [callAIEndpoint], whose text spells out
    the raw content, and no result.  A content that is a JSON object is
    not an error for lacking one of the two fields: there is a result
    exactly when every value under a key that names one of the two fields
    is a string or [null], and then a field that no key names is the empty
    string; when some such value is of another kind, the same parse error,
    spelling out the raw content, is returned, and no result. *)
Theorem reasoning_content_parsing :
  (forall env net podName triggerReason logs,
     answers env net podName triggerReason logs content_full ->
     callAIEndpoint env net podName triggerReason logs
     = inr {| RootCause := "OOM"; Suggestion := "increase memory limit" |})
  /\ (forall env net podName triggerReason logs content,
        answers env net podName triggerReason logs content ->
        json.parse_document content = None ->
        exists err,
          callAIEndpoint env net podName triggerReason logs = inl err
          /\ Error err
             = "反序列化 DiagnosisResult 失败, AI 返回内容为: " +:+ content
               +:+ ", error: " +:+ json.jsonError_Error json.SyntaxError)
  /\ (forall env net podName triggerReason logs content members,
        answers env net podName triggerReason logs content ->
        json.parse_document content = Some (json.Object members) ->
        ((exists result,
            callAIEndpoint env net podName triggerReason logs = inr result)
         <-> fields_well_typed members)
        /\ (fields_well_typed members ->
            exists result,
              callAIEndpoint env net podName triggerReason logs = inr result
              /\ (lacks "rootCause" members -> RootCause result = "")
              /\ (lacks "suggestion" members -> Suggestion result = ""))
        /\ (~ fields_well_typed members ->
            exists err e,
              callAIEndpoint env net podName triggerReason logs = inl err
              /\ Error err
                 = "反序列化 DiagnosisResult 失败, AI 返回内容为: "
                   +:+ content +:+ ", error: " +:+ json.jsonError_Error e)).
Proof.
  split; [| split].
  - intros env net podName triggerReason logs Hans.
    rewrite (callAIEndpoint_content _ _ _ _ _ _ Hans). reflexivity.
  - intros env net podName triggerReason logs content Hans Hparse.
    rewrite (callAIEndpoint_content _ _ _ _ _ _ Hans).
    unfold Unmarshal_DiagnosisResult. rewrite Hparse.
    eexists. split; [reflexivity |]. apply parse_error_names_content.
  - intros env net podName triggerReason logs content members Hans Hparse.
    rewrite (callAIEndpoint_content _ _ _ _ _ _ Hans).
    assert (Hgood : fields_well_typed members ->
              exists result,
                match Unmarshal_DiagnosisResult content with
                | inl err =>
                    inl (Errorf
                           "反序列化 DiagnosisResult 失败, AI 返回内容为: %s, error: %v"
                           [ArgS content; ArgV (json_error err)])
                | inr result => inr result
                end = inr result
                /\ (lacks "rootCause" members -> RootCause result = "")
                /\ (lacks "suggestion" members -> Suggestion result = "")).
    { intros Hty.
      destruct (Unmarshal_object content members Hparse Hty)
        as (result & Hres & H1 & H2).
      rewrite Hres. now exists result. }
    assert (Hbad : ~ fields_well_typed members ->
              exists err e,
                match Unmarshal_DiagnosisResult content with
                | inl err =>
                    inl (Errorf
                           "反序列化 DiagnosisResult 失败, AI 返回内容为: %s, error: %v"
                           [ArgS content; ArgV (json_error err)])
                | inr result => inr result
                end = inl err
                /\ Error err
                   = "反序列化 DiagnosisResult 失败, AI 返回内容为: "
                     +:+ content +:+ ", error: " +:+ json.jsonError_Error e).
    { intros Hty.
      destruct (Unmarshal_object_type_error content members Hparse Hty)
        as [e He].
      rewrite He. eexists _, e. split; [reflexivity |].
      apply parse_error_names_content. }
    split; [| split; [exact Hgood | exact Hbad]].
    split.
    + intros [result Hres].
      destruct (fields_dichotomy members) as [Hok | Hill]; [exact Hok |].
      assert (Hnot : ~ fields_well_typed members).
      { intros Hok. destruct Hill as (k & x & Hin & Hk & Hx).
        exact (Hx (Hok k x Hin Hk)). }
      destruct (Hbad Hnot) as (err & e & Herr & _). congruence.
    + intros Hty. destruct (Hgood Hty) as (result & Hres & _).
      now exists result.
Qed.

Lemma reasoning_content_parsing_witness :
  exists err,
    callAIEndpoint configured (answering 200 (envelope content_not_json))
      "web" "CrashLoopBackOff" "panic: out of memory"
    = inl err
    /\ Error err
       = "反序列化 DiagnosisResult 失败, AI 返回内容为: " +:+ content_not_json
         +:+ ", error: " +:+ json.jsonError_Error json.SyntaxError.
Proof.
  apply (proj1 (proj2 reasoning_content_parsing)).
  - split; [discriminate |]. split; [discriminate |].
    split; [reflexivity |].
    eexists _, _, _, _.
    split; [reflexivity |]. split; [reflexivity |].
    split; [vm_compute; reflexivity |]. split; reflexivity.
  - vm_compute. reflexivity.
Defined.

(** C5, the counterexample: the content [{"rootCause":"OOM"}] lacks the
    field suggestion, and [callAIEndpoint] returns a result, not a parse
    error. *)
Lemma partial_content_is_accepted :
  json.parse_document content_partial
  = Some (json.Object [("rootCause", json.Str "OOM")])
  /\ callAIEndpoint configured (answering 200 (envelope content_partial))
       "web" "CrashLoopBackOff" "panic: out of memory"
     = inr {| RootCause := "OOM"; Suggestion := "" |}.
Proof. split; vm_compute; reflexivity. Qed.

(** A number under [rootCause] is a value of another kind: the object is
    rejected with the parse error that spells out the content. *)
Remark number_content_is_rejected :
  json.parse_document content_number
  = Some (json.Object [("rootCause", json.Number "5")])
  /\ exists err,
       callAIEndpoint configured (answering 200 (envelope content_number))
         "web" "CrashLoopBackOff" "panic: out of memory"
       = inl err
       /\ Error err
          = "反序列化 DiagnosisResult 失败, AI 返回内容为: " +:+ content_number
            +:+ ", error: json: cannot unmarshal number into Go struct field "
            +:+ "DiagnosisResult.rootCause of type string".
Proof.
  split; [vm_compute; reflexivity |].
  eexists. split; vm_compute; reflexivity.
Qed.

(** C10.  A response whose status is not exactly 200 (201 and 204
    included) makes [callAIEndpoint] return the error that names the status
    code, whatever the body holds; and a result comes only from a response
    with status 200. *)
Theorem only_status_200_is_parsed :
  (forall env net podName triggerReason logs resp,
     AI_API_KEY env <> "" -> AI_API_URL env <> "" ->
     NewRequest_error net (AI_API_URL env) = None ->
     Do net (newRequest env podName triggerReason logs) = inr resp ->
     StatusCode resp <> 200 ->
     callAIEndpoint env net podName triggerReason logs
     = inl (Errorf "AI 接口返回非 200 状态码: %d" [ArgD (StatusCode resp)])
     /\ Error (Errorf "AI 接口返回非 200 状态码: %d" [ArgD (StatusCode resp)])
        = "AI 接口返回非 200 状态码: " +:+ pretty (StatusCode resp))
  /\ (forall env net podName triggerReason logs result,
        callAIEndpoint env net podName triggerReason logs = inr result ->
        exists resp,
          Do net (newRequest env podName triggerReason logs) = inr resp
          /\ StatusCode resp = 200).
Proof.
  split.
  - intros env net podName triggerReason logs resp Hkey Hurl Hreq Hdo Hcode.
    split.
    + unfold callAIEndpoint.
      rewrite (eqb_empty_false _ Hkey), (eqb_empty_false _ Hurl). simpl.
      rewrite Hreq, Hdo.
      apply Z.eqb_neq in Hcode. unfold StatusOK. now rewrite Hcode.
    + transitivity
        ("AI 接口返回非 200 状态码: " +:+ pretty (StatusCode resp) +:+ "");
        [reflexivity | now rewrite append_empty_r].
  - intros env net podName triggerReason logs result.
    unfold callAIEndpoint.
    destruct (String.eqb (AI_API_KEY env) "" || String.eqb (AI_API_URL env) "");
      [discriminate |].
    destruct (NewRequest_error net (AI_API_URL env)); [discriminate |].
    destruct (Do net (newRequest env podName triggerReason logs))
      as [err | resp]; [discriminate |].
    destruct (StatusCode resp =? StatusOK) eqn:Ecode; simpl; [| discriminate].
    intros _. exists resp. split; [reflexivity |]. now apply Z.eqb_eq in Ecode.
Qed.

Lemma only_status_200_is_parsed_witness :
  callAIEndpoint configured (answering 204 (envelope content_full))
    "web" "CrashLoopBackOff" "panic: out of memory"
  = inl (Errorf "AI 接口返回非 200 状态码: %d" [ArgD 204])
  /\ Error (Errorf "AI 接口返回非 200 状态码: %d" [ArgD 204])
     = "AI 接口返回非 200 状态码: " +:+ pretty 204.
Proof.
  apply (proj1 only_status_200_is_parsed configured
           (answering 204 (envelope content_full))
           "web" "CrashLoopBackOff" "panic: out of memory"
           {| StatusCode := 204; Body := envelope content_full |});
    try discriminate; reflexivity.
Defined.

(** ** The store and the effects of its operations *)

Lemma phase_terminal (d : diagnosticv1.PodDiagnosis) :
  String.eqb (diagnosticv1.Phase (diagnosticv1.Status d)) "Completed"
  || String.eqb (diagnosticv1.Phase (diagnosticv1.Status d)) "Failed" = true
  <-> terminal d.
Proof. unfold terminal. now rewrite orb_true_iff, !String.eqb_eq. Qed.

Lemma phase_unfinished (d : diagnosticv1.PodDiagnosis) :
  String.eqb (diagnosticv1.Phase (diagnosticv1.Status d)) "Completed"
  || String.eqb (diagnosticv1.Phase (diagnosticv1.Status d)) "Failed" = false
  <-> unfinished d.
Proof. unfold unfinished. now rewrite orb_false_iff, !String.eqb_neq. Qed.

Lemma GetPodDiagnosis_stored (o : Outcomes) (req : string * string)
    (w : World) (d : diagnosticv1.PodDiagnosis) :
  Get_fault o "PodDiagnosis" req = None ->
  diagnoses w !! req = Some d ->
  GetPodDiagnosis o req w = (inr d, w).
Proof. intros Hf Hd. unfold GetPodDiagnosis. now rewrite Hf, Hd. Qed.

Lemma GetPodDiagnosis_world (o : Outcomes) (req : string * string) (w : World) :
  snd (GetPodDiagnosis o req w) = w.
Proof.
  unfold GetPodDiagnosis.
  destruct (Get_fault o "PodDiagnosis" req); [reflexivity |].
  now destruct (diagnoses w !! req).
Qed.

Lemma GetPod_world (o : Outcomes) (key : string * string) (w : World) :
  snd (GetPod o key w) = w.
Proof.
  unfold GetPod. destruct (Get_fault o "Pod" key); [reflexivity |].
  now destruct (pods w !! key).
Qed.

Lemma Status_Patch_trace (o : Outcomes) (obj base : diagnosticv1.PodDiagnosis)
    (w : World) :
  trace (snd (Status_Patch o obj base w))
  = trace w ++ [StatusWrite (key_of obj) (MergeFrom base obj)].
Proof.
  unfold Status_Patch. simpl.
  destruct (Patch_fault o); [reflexivity |].
  now destruct (diagnoses w !! key_of obj).
Qed.

(** ** The entry guard *)

Lemma Reconcile_terminal (o : Outcomes) (req : string * string) (w : World)
    (d : diagnosticv1.PodDiagnosis) :
  diagnoses w !! req = Some d -> terminal d ->
  snd (PodDiagnosisReconciler.Reconcile o req w) = w
  /\ (Get_fault o "PodDiagnosis" req = None ->
      fst (PodDiagnosisReconciler.Reconcile o req w) = None).
Proof.
  intros Hd Hterm. apply phase_terminal in Hterm.
  unfold PodDiagnosisReconciler.Reconcile, bind, GetPodDiagnosis.
  destruct (Get_fault o "PodDiagnosis" req) as [err|].
  - split; [| discriminate]. now destruct (IsNotFound err).
  - rewrite Hd, Hterm. split; reflexivity.
Qed.

(** C3.  A pass on a request whose phase is Completed or Failed leaves the
    world as it is: the store and the record of effects are unchanged, so
    there is no log fetch, no reasoning call, no status write and no event;
    when the read succeeds the pass returns no error.  The same holds for
    any number of further passes on that request. *)
Theorem terminal_request_is_noop (o : Outcomes) (req : string * string)
    (w : World) (d : diagnosticv1.PodDiagnosis) :
  diagnoses w !! req = Some d ->
  terminal d ->
  snd (PodDiagnosisReconciler.Reconcile o req w) = w
  /\ (Get_fault o "PodDiagnosis" req = None ->
      fst (PodDiagnosisReconciler.Reconcile o req w) = None)
  /\ (forall os : list Outcomes, passes req os w = w).
Proof.
  intros Hd Hterm.
  destruct (Reconcile_terminal o req w d Hd Hterm) as [H1 H2].
  split; [exact H1 |]. split; [exact H2 |].
  intros os. induction os as [|o' os IH]; [reflexivity |].
  unfold passes in *. simpl.
  now rewrite (proj1 (Reconcile_terminal o' req w d Hd Hterm)).
Qed.

Lemma terminal_request_is_noop_witness :
  snd (PodDiagnosisReconciler.Reconcile calm request_key
         (world crashLooping [request "Completed" 0]))
  = world crashLooping [request "Completed" 0]
  /\ (Get_fault calm "PodDiagnosis" request_key = None ->
      fst (PodDiagnosisReconciler.Reconcile calm request_key
             (world crashLooping [request "Completed" 0])) = None)
  /\ (forall os : list Outcomes,
        passes request_key os (world crashLooping [request "Completed" 0])
        = world crashLooping [request "Completed" 0]).
Proof.
  apply (terminal_request_is_noop calm request_key
           (world crashLooping [request "Completed" 0])
           (request "Completed" 0)).
  - vm_compute. reflexivity.
  - left. reflexivity.
Defined.

(** ** The three paths of a pass on an unfinished request *)

Lemma apply_patch_MergeFrom (base obj : diagnosticv1.PodDiagnosis) :
  apply_patch (MergeFrom base obj) (diagnosticv1.Status base)
  = diagnosticv1.Status obj.
Proof.
  destruct base as [m s [p1 r1 s1 t1]], obj as [m' s' [p2 r2 s2 t2]].
  unfold apply_patch, MergeFrom, changed. simpl.
  f_equal.
  - destruct (String.eqb p1 p2) eqn:E; [apply String.eqb_eq in E |]; easy.
  - destruct (String.eqb r1 r2) eqn:E; [apply String.eqb_eq in E |]; easy.
  - destruct (String.eqb s1 s2) eqn:E; [apply String.eqb_eq in E |]; easy.
  - case_bool_decide; easy.
Qed.

Lemma Status_Patch_fault (o : Outcomes) (obj base : diagnosticv1.PodDiagnosis)
    (w : World) (err : error) :
  Patch_fault o = Some err ->
  Status_Patch o obj base w
  = (Some err, logged w [StatusWrite (key_of obj) (MergeFrom base obj)]).
Proof. intros H. unfold Status_Patch. now rewrite H. Qed.

Lemma Status_Patch_stored (o : Outcomes) (obj base : diagnosticv1.PodDiagnosis)
    (w : World) :
  Patch_fault o = None ->
  diagnoses w !! key_of obj = Some base ->
  obj = with_status base (diagnosticv1.Status obj) ->
  Status_Patch o obj base w
  = (None,
     {| pods := pods w;
        diagnoses := <[key_of obj := obj]> (diagnoses w);
        trace := trace w ++ [StatusWrite (key_of obj) (MergeFrom base obj)] |}).
Proof.
  intros Hf Hd Hobj. unfold Status_Patch. rewrite Hf. simpl. rewrite Hd.
  now rewrite apply_patch_MergeFrom, <- Hobj.
Qed.

Lemma Status_Patch_diagnoses (o : Outcomes)
    (obj base : diagnosticv1.PodDiagnosis) (w : World) :
  fst (Status_Patch o obj base w) <> None ->
  diagnoses (snd (Status_Patch o obj base w)) = diagnoses w.
Proof.
  unfold Status_Patch. simpl. destruct (Patch_fault o); [reflexivity |].
  destruct (diagnoses w !! key_of obj); [| reflexivity].
  simpl. congruence.
Qed.

Lemma getPodLogs_run (o : Outcomes) (namespace podName : string)
    (tailLines : Z) (w : World) :
  getPodLogs o namespace podName tailLines w
  = (fst (getPodLogs o namespace podName tailLines w),
     logged w [LogFetch namespace podName tailLines]).
Proof. reflexivity. Qed.

Section Paths.

Variables (o : Outcomes) (req : string * string) (w : World)
  (d : diagnosticv1.PodDiagnosis).

Hypothesis read_succeeds : Get_fault o "PodDiagnosis" req = None.
Hypothesis stored : diagnoses w !! req = Some d.
Hypothesis open : unfinished d.

Let namespace := diagnosticv1.Namespace (diagnosticv1.Spec d).
Let podName := diagnosticv1.PodName (diagnosticv1.Spec d).
Let triggerReason := diagnosticv1.TriggerReason (diagnosticv1.Spec d).
Let tailLines := PodDiagnosisReconciler.effectiveTailLines d.

(** Step 1 fails: the request goes to Failed, nothing else happens. *)
Lemma pass_log_failure (err : error) :
  fst (getPodLogs o namespace podName tailLines w) = inl err ->
  PodDiagnosisReconciler.Reconcile o req w
  = (None,
     snd (Status_Patch o
            (PodDiagnosisReconciler.fail d
               (Sprintf "获取日志失败: %v" [ArgV err]) (Now o))
            d (logged w [LogFetch namespace podName tailLines]))).
Proof.
  intros Hlogs. apply phase_unfinished in open.
  unfold PodDiagnosisReconciler.Reconcile, bind.
  rewrite (GetPodDiagnosis_stored _ _ _ _ read_succeeds stored), open.
  fold namespace podName tailLines.
  rewrite getPodLogs_run, Hlogs.
  now destruct (Status_Patch _ _ _ _).
Qed.

(** Step 2 fails: the same, after the reasoning call. *)
Lemma pass_reasoning_failure (logs : string) (err : error) :
  fst (getPodLogs o namespace podName tailLines w) = inr logs ->
  callAIEndpoint (environ o) (network o) podName triggerReason logs
  = inl err ->
  PodDiagnosisReconciler.Reconcile o req w
  = (None,
     snd (Status_Patch o
            (PodDiagnosisReconciler.fail d
               (Sprintf "诊断失败: %v" [ArgV err]) (Now o))
            d (logged w [LogFetch namespace podName tailLines;
                         ReasoningCall podName triggerReason logs]))).
Proof.
  intros Hlogs Hai. apply phase_unfinished in open.
  unfold PodDiagnosisReconciler.Reconcile, bind.
  rewrite (GetPodDiagnosis_stored _ _ _ _ read_succeeds stored), open.
  fold namespace podName tailLines triggerReason.
  rewrite getPodLogs_run, Hlogs. simpl. rewrite Hai.
  unfold logged. simpl. rewrite <- app_assoc. simpl.
  now destruct (Status_Patch _ _ _ _).
Qed.

(** Success: the event, then the Completed transition, whose error is the
    error of the pass. *)
Lemma pass_success (logs : string) (result : DiagnosisResult) :
  fst (getPodLogs o namespace podName tailLines w) = inr logs ->
  callAIEndpoint (environ o) (network o) podName triggerReason logs
  = inr result ->
  PodDiagnosisReconciler.Reconcile o req w
  = Status_Patch o (PodDiagnosisReconciler.complete d result (Now o)) d
      (logged w ([LogFetch namespace podName tailLines;
                  ReasoningCall podName triggerReason logs]
                 ++ event_effects o w d result)).
Proof.
  intros Hlogs Hai. apply phase_unfinished in open.
  unfold PodDiagnosisReconciler.Reconcile, bind.
  rewrite (GetPodDiagnosis_stored _ _ _ _ read_succeeds stored), open.
  fold namespace podName tailLines triggerReason.
  rewrite getPodLogs_run, Hlogs. simpl. rewrite Hai.
  unfold event_effects, GetPod. fold namespace podName. simpl.
  destruct (Get_fault o "Pod" (namespace, podName)) as [e|]; simpl.
  - unfold logged. simpl. rewrite <- !app_assoc. simpl.
    now destruct (Status_Patch _ _ _ _) as [[?|] ?].
  - destruct (pods w !! (namespace, podName)) as [targetPod|]; simpl.
    + unfold logged. simpl. rewrite <- !app_assoc. simpl.
      now destruct (Status_Patch _ _ _ _) as [[?|] ?].
    + unfold logged. simpl. rewrite <- !app_assoc. simpl.
      now destruct (Status_Patch _ _ _ _) as [[?|] ?].
Qed.

End Paths.

(** ** Log retrieval *)

Lemma effectiveTailLines_spec (d : diagnosticv1.PodDiagnosis) :
  (diagnosticv1.TailLines (diagnosticv1.Spec d) = 0 ->
   PodDiagnosisReconciler.effectiveTailLines d = 100)
  /\ (diagnosticv1.TailLines (diagnosticv1.Spec d) <> 0 ->
      PodDiagnosisReconciler.effectiveTailLines d
      = diagnosticv1.TailLines (diagnosticv1.Spec d)).
Proof.
  unfold PodDiagnosisReconciler.effectiveTailLines. split; intros H.
  - now rewrite H.
  - apply Z.eqb_neq in H. now rewrite H.
Qed.

(** A pass on an unfinished request starts with the log fetch. *)
Lemma pass_starts_with_log_fetch (o : Outcomes) (req : string * string)
    (w : World) (d : diagnosticv1.PodDiagnosis) :
  Get_fault o "PodDiagnosis" req = None ->
  diagnoses w !! req = Some d ->
  unfinished d ->
  exists rest,
    trace (snd (PodDiagnosisReconciler.Reconcile o req w))
    = trace w
      ++ LogFetch (diagnosticv1.Namespace (diagnosticv1.Spec d))
           (diagnosticv1.PodName (diagnosticv1.Spec d))
           (PodDiagnosisReconciler.effectiveTailLines d) :: rest.
Proof.
  intros Hf Hd Hopen.
  destruct (fst (getPodLogs o (diagnosticv1.Namespace (diagnosticv1.Spec d))
                   (diagnosticv1.PodName (diagnosticv1.Spec d))
                   (PodDiagnosisReconciler.effectiveTailLines d) w))
    as [err | logs] eqn:Hlogs.
  - rewrite (pass_log_failure o req w d Hf Hd Hopen err Hlogs). simpl.
    rewrite Status_Patch_trace. simpl. rewrite <- app_assoc. simpl.
    now eexists.
  - destruct (callAIEndpoint (environ o) (network o)
                (diagnosticv1.PodName (diagnosticv1.Spec d))
                (diagnosticv1.TriggerReason (diagnosticv1.Spec d)) logs)
      as [err | result] eqn:Hai.
    + rewrite (pass_reasoning_failure o req w d Hf Hd Hopen logs err Hlogs Hai).
      simpl. rewrite Status_Patch_trace. simpl. rewrite <- app_assoc. simpl.
      now eexists.
    + rewrite (pass_success o req w d Hf Hd Hopen logs result Hlogs Hai).
      rewrite Status_Patch_trace. simpl. rewrite <- !app_assoc. simpl.
      now eexists.
Qed.

(** C9.  A pass on an unfinished request fetches the logs of the target
    pod first: with a limit of 100 lines when the request's tail-line count
    is 0, with exactly the request's count otherwise; and the log source is
    read with the limit that [getPodLogs] is given. *)
Theorem log_fetch_tail_lines (o : Outcomes) (req : string * string)
    (w : World) (d : diagnosticv1.PodDiagnosis) :
  Get_fault o "PodDiagnosis" req = None ->
  diagnoses w !! req = Some d ->
  unfinished d ->
  (diagnosticv1.TailLines (diagnosticv1.Spec d) = 0 ->
   exists rest,
     trace (snd (PodDiagnosisReconciler.Reconcile o req w))
     = trace w
       ++ LogFetch (diagnosticv1.Namespace (diagnosticv1.Spec d))
            (diagnosticv1.PodName (diagnosticv1.Spec d)) 100 :: rest)
  /\ (diagnosticv1.TailLines (diagnosticv1.Spec d) <> 0 ->
      exists rest,
        trace (snd (PodDiagnosisReconciler.Reconcile o req w))
        = trace w
          ++ LogFetch (diagnosticv1.Namespace (diagnosticv1.Spec d))
               (diagnosticv1.PodName (diagnosticv1.Spec d))
               (diagnosticv1.TailLines (diagnosticv1.Spec d)) :: rest)
  /\ (forall namespace podName tailLines logs,
        Stream o namespace podName tailLines = inr (inr logs) ->
        getPodLogs o namespace podName tailLines w
        = (inr logs, logged w [LogFetch namespace podName tailLines])).
Proof.
  intros Hf Hd Hopen.
  destruct (pass_starts_with_log_fetch o req w d Hf Hd Hopen) as [rest Hrest].
  destruct (effectiveTailLines_spec d) as [H0 Hn].
  split; [| split].
  - intros Hz. exists rest. now rewrite <- (H0 Hz).
  - intros Hz. exists rest. now rewrite <- (Hn Hz).
  - intros namespace podName tailLines logs Hs.
    unfold getPodLogs, bind, emit, ret. simpl. now rewrite Hs.
Qed.


Lemma log_fetch_tail_lines_witness :
  exists rest,
    trace (snd (PodDiagnosisReconciler.Reconcile calm request_key
                  (world crashLooping [request "" 0])))
    = trace (world crashLooping [request "" 0])
      ++ LogFetch (diagnosticv1.Namespace (diagnosticv1.Spec (request "" 0)))
           (diagnosticv1.PodName (diagnosticv1.Spec (request "" 0))) 100
         :: rest.
Proof.
  assert (Hstored : diagnoses (world crashLooping [request "" 0]) !! request_key
                    = Some (request "" 0)) by (vm_compute; reflexivity).
  assert (Hopen : unfinished (request "" 0)) by (split; discriminate).
  exact (proj1 (log_fetch_tail_lines calm request_key
                  (world crashLooping [request "" 0]) (request "" 0)
                  eq_refl Hstored Hopen) eq_refl).
Defined.

(** ** Status transitions *)

Lemma fail_patch_has_no_suggestion (d : diagnosticv1.PodDiagnosis)
    (rootCause : string) (now : metav1.Time) :
  patch_suggestion (MergeFrom d (PodDiagnosisReconciler.fail d rootCause now))
  = None.
Proof. unfold MergeFrom, changed. simpl. now rewrite String.eqb_refl. Qed.

Lemma writes_once_after (w : World) (before : list Effect)
    (o : Outcomes) (obj base : diagnosticv1.PodDiagnosis) :
  existsb is_status_write before = false ->
  writes_once w (snd (Status_Patch o obj base (logged w before)))
    (key_of obj) (MergeFrom base obj).
Proof.
  intros Hb. exists before. split; [| exact Hb].
  rewrite Status_Patch_trace. simpl. now rewrite <- app_assoc.
Qed.

Lemma event_effects_no_write (o : Outcomes) (w : World)
    (d : diagnosticv1.PodDiagnosis) (result : DiagnosisResult) :
  existsb is_status_write (event_effects o w d result) = false.
Proof.
  unfold event_effects. now destruct (fst (GetPod o _ w)).
Qed.

Lemma Status_Patch_writes (o : Outcomes) (w : World) (before : list Effect)
    (obj base : diagnosticv1.PodDiagnosis) :
  Patch_fault o = None ->
  diagnoses w !! key_of obj = Some base ->
  obj = with_status base (diagnosticv1.Status obj) ->
  diagnoses (snd (Status_Patch o obj base (logged w before)))
  = <[key_of obj := obj]> (diagnoses w).
Proof.
  intros Hf Hd Hobj.
  now rewrite (Status_Patch_stored o obj base (logged w before) Hf Hd Hobj).
Qed.

(** C6 (as amended).  A pass on an unfinished request writes the status
    exactly once, in one patch, as its last effect.  On the Completed
    transition the patch carries the phase, the root cause, the suggestion
    and the time together.  On a Failed transition (after a log-fetch error
    or a reasoning error) it carries the phase, the root cause and the
    time only: the suggestion is not part of the patch and keeps the value
    it had. *)
Theorem status_written_per_transition (o : Outcomes) (req : string * string)
    (w : World) (d : diagnosticv1.PodDiagnosis) :
  Get_fault o "PodDiagnosis" req = None ->
  diagnoses w !! req = Some d ->
  key_of d = req ->
  unfinished d ->
  let namespace := diagnosticv1.Namespace (diagnosticv1.Spec d) in
  let podName := diagnosticv1.PodName (diagnosticv1.Spec d) in
  let triggerReason := diagnosticv1.TriggerReason (diagnosticv1.Spec d) in
  let tailLines := PodDiagnosisReconciler.effectiveTailLines d in
  let w' := snd (PodDiagnosisReconciler.Reconcile o req w) in
  let failed rootCause :=
    let obj := PodDiagnosisReconciler.fail d rootCause (Now o) in
    writes_once w w' req (MergeFrom d obj)
    /\ patch_suggestion (MergeFrom d obj) = None
    /\ diagnosticv1.Status obj
       = {| diagnosticv1.Phase := "Failed";
            diagnosticv1.RootCause := rootCause;
            diagnosticv1.Suggestion :=
              diagnosticv1.Suggestion (diagnosticv1.Status d);
            diagnosticv1.DiagnosisTime := Some (Now o) |}
    /\ (Patch_fault o = None ->
        diagnoses w' = <[req := obj]> (diagnoses w)) in
  (forall err,
     fst (getPodLogs o namespace podName tailLines w) = inl err ->
     failed (Sprintf "获取日志失败: %v" [ArgV err]))
  /\ (forall logs err,
        fst (getPodLogs o namespace podName tailLines w) = inr logs ->
        callAIEndpoint (environ o) (network o) podName triggerReason logs
        = inl err ->
        failed (Sprintf "诊断失败: %v" [ArgV err]))
  /\ (forall logs result,
        fst (getPodLogs o namespace podName tailLines w) = inr logs ->
        callAIEndpoint (environ o) (network o) podName triggerReason logs
        = inr result ->
        let obj := PodDiagnosisReconciler.complete d result (Now o) in
        writes_once w w' req (MergeFrom d obj)
        /\ diagnosticv1.Status obj
           = {| diagnosticv1.Phase := "Completed";
                diagnosticv1.RootCause := RootCause result;
                diagnosticv1.Suggestion := Suggestion result;
                diagnosticv1.DiagnosisTime := Some (Now o) |}
        /\ (Patch_fault o = None ->
            diagnoses w' = <[req := obj]> (diagnoses w))).
Proof.
  intros Hf Hd Hkey Hopen. cbv zeta. subst req.
  split; [| split].
  - intros err Hlogs.
    rewrite (pass_log_failure o _ w d Hf Hd Hopen err Hlogs).
    split; [exact (writes_once_after w [LogFetch _ _ _] o
                     (PodDiagnosisReconciler.fail d _ (Now o)) d eq_refl) |].
    split; [apply fail_patch_has_no_suggestion |].
    split; [reflexivity |].
    intros Hp.
    exact (Status_Patch_writes o w _
             (PodDiagnosisReconciler.fail d _ (Now o)) d Hp Hd eq_refl).
  - intros logs err Hlogs Hai.
    rewrite (pass_reasoning_failure o _ w d Hf Hd Hopen logs err Hlogs Hai).
    split; [exact (writes_once_after w
                     [LogFetch _ _ _; ReasoningCall _ _ _] o
                     (PodDiagnosisReconciler.fail d _ (Now o)) d eq_refl) |].
    split; [apply fail_patch_has_no_suggestion |].
    split; [reflexivity |].
    intros Hp.
    exact (Status_Patch_writes o w _
             (PodDiagnosisReconciler.fail d _ (Now o)) d Hp Hd eq_refl).
  - intros logs result Hlogs Hai.
    rewrite (pass_success o _ w d Hf Hd Hopen logs result Hlogs Hai).
    split.
    + apply (writes_once_after w _ o
               (PodDiagnosisReconciler.complete d result (Now o)) d).
      simpl. apply event_effects_no_write.
    + split; [reflexivity |].
      intros Hp.
      exact (Status_Patch_writes o w _
               (PodDiagnosisReconciler.complete d result (Now o)) d
               Hp Hd eq_refl).
Qed.

Lemma status_written_per_transition_witness :
  writes_once (world crashLooping [request "" 0])
    (snd (PodDiagnosisReconciler.Reconcile calm request_key
            (world crashLooping [request "" 0])))
    request_key
    (MergeFrom (request "" 0)
       (PodDiagnosisReconciler.complete (request "" 0)
          {| RootCause := "OOM"; Suggestion := "increase memory limit" |}
          (Now calm))).
Proof.
  assert (Hstored : diagnoses (world crashLooping [request "" 0]) !! request_key
                    = Some (request "" 0)) by (vm_compute; reflexivity).
  assert (Hopen : unfinished (request "" 0)) by (split; discriminate).
  assert (Hlogs :
    fst (getPodLogs calm
           (diagnosticv1.Namespace (diagnosticv1.Spec (request "" 0)))
           (diagnosticv1.PodName (diagnosticv1.Spec (request "" 0)))
           (PodDiagnosisReconciler.effectiveTailLines (request "" 0))
           (world crashLooping [request "" 0]))
    = inr "panic: out of memory") by reflexivity.
  assert (Hai :
    callAIEndpoint (environ calm) (network calm)
      (diagnosticv1.PodName (diagnosticv1.Spec (request "" 0)))
      (diagnosticv1.TriggerReason (diagnosticv1.Spec (request "" 0)))
      "panic: out of memory"
    = inr {| RootCause := "OOM"; Suggestion := "increase memory limit" |})
    by (vm_compute; reflexivity).
  exact (proj1 (proj2 (proj2 (status_written_per_transition calm request_key
                                (world crashLooping [request "" 0])
                                (request "" 0) eq_refl Hstored eq_refl Hopen))
                  "panic: out of memory"
                  {| RootCause := "OOM"; Suggestion := "increase memory limit" |}
                  Hlogs Hai)).
Defined.

(** C6, the counterexample: the log stream of the target pod cannot be
    opened; the one patch of the pass sets the phase, the root cause and
    the time, and no suggestion. *)
Lemma failed_transition_leaves_suggestion_unset :
  trace (snd (PodDiagnosisReconciler.Reconcile logs_unavailable request_key
                (world crashLooping [request "" 0])))
  = [ LogFetch "prod" "web" 100;
      StatusWrite request_key
        {| patch_phase := Some "Failed";
           patch_rootCause :=
             Some "获取日志失败: 打开日志流失败: container not found";
           patch_suggestion := None;
           patch_diagnosisTime := Some (Some 1700000000) |} ].
Proof. vm_compute. reflexivity. Qed.

(** ** Errors of the resource store *)

Lemma watcher_get_error (o : Outcomes) (req : string * string) (w : World)
    (err : error) :
  Get_fault o "Pod" req = Some err ->
  PodWatcherReconciler.Reconcile o req w
  = (PodWatcherReconciler.IgnoreNotFound err, w).
Proof.
  intros H. unfold PodWatcherReconciler.Reconcile, bind, GetPod.
  now rewrite H.
Qed.

Lemma watcher_list_error (o : Outcomes) (req : string * string) (w : World)
    (pod : Pod) (err : error) :
  Get_fault o "Pod" req = None ->
  pods w !! req = Some pod ->
  isPodFailed pod = true ->
  List_fault o = Some err ->
  PodWatcherReconciler.Reconcile o req w = (Some err, w).
Proof.
  intros Hg Hp Hfailed Hl.
  unfold PodWatcherReconciler.Reconcile, bind, GetPod, List.
  now rewrite Hg, Hp, Hfailed, Hl.
Qed.

(** A pass that reaches [Create] records the attempt; when the store
    refuses, the pass returns the store's error and the store holds what it
    held. *)
Lemma watcher_create_error (o : Outcomes) (req : string * string) (w : World)
    (err : error) :
  Create_fault o = Some err ->
  diagnoses (snd (PodWatcherReconciler.Reconcile o req w)) = diagnoses w
  /\ pods (snd (PodWatcherReconciler.Reconcile o req w)) = pods w
  /\ (trace (snd (PodWatcherReconciler.Reconcile o req w)) <> trace w ->
      fst (PodWatcherReconciler.Reconcile o req w) = Some err).
Proof.
  intros Hc.
  unfold PodWatcherReconciler.Reconcile, bind, GetPod, List, Create,
    PodWatcherReconciler.SetControllerReference, ret.
  rewrite Hc.
  destruct (Get_fault o "Pod" req); simpl; [now repeat split |].
  destruct (pods w !! req) as [pod|]; simpl; [| now repeat split].
  destruct (isPodFailed pod); simpl; [| now repeat split].
  destruct (List_fault o); simpl; [now repeat split |].
  destruct (PodWatcherReconciler.has_unfinished _); simpl;
    [now repeat split |].
  destruct (SetControllerReference_fault o); simpl; now repeat split.
Qed.

Lemma diagnosis_get_error (o : Outcomes) (req : string * string) (w : World)
    (err : error) :
  Get_fault o "PodDiagnosis" req = Some err ->
  PodDiagnosisReconciler.Reconcile o req w
  = (if IsNotFound err then None else Some err, w).
Proof.
  intros H. unfold PodDiagnosisReconciler.Reconcile, bind, GetPodDiagnosis.
  rewrite H. now destruct (IsNotFound err).
Qed.

(** C7 (as amended).  An error of the store on reading the reconciled
    object (other than not-found, which ends the pass without an error), on
    listing the requests, on creating a request, or on the patch of the
    Completed transition is returned by the pass; the store then holds
    what it held before, and nothing of the error is written into a status.
    An error on reading the target pod before the event is not returned:
    the event is skipped and the pass goes on to the Completed
    transition. *)
Theorem store_errors_are_returned :
  (forall o req w err,
     Get_fault o "Pod" req = Some err ->
     PodWatcherReconciler.Reconcile o req w
     = (if IsNotFound err then None else Some err, w))
  /\ (forall o req w pod err,
        Get_fault o "Pod" req = None ->
        pods w !! req = Some pod ->
        isPodFailed pod = true ->
        List_fault o = Some err ->
        PodWatcherReconciler.Reconcile o req w = (Some err, w))
  /\ (forall o req w err,
        Create_fault o = Some err ->
        diagnoses (snd (PodWatcherReconciler.Reconcile o req w)) = diagnoses w
        /\ pods (snd (PodWatcherReconciler.Reconcile o req w)) = pods w
        /\ (trace (snd (PodWatcherReconciler.Reconcile o req w)) <> trace w ->
            fst (PodWatcherReconciler.Reconcile o req w) = Some err))
  /\ (forall o req w err,
        Get_fault o "PodDiagnosis" req = Some err ->
        PodDiagnosisReconciler.Reconcile o req w
        = (if IsNotFound err then None else Some err, w))
  /\ (forall o req w d logs result err,
        Get_fault o "PodDiagnosis" req = None ->
        diagnoses w !! req = Some d ->
        unfinished d ->
        fst (getPodLogs o (diagnosticv1.Namespace (diagnosticv1.Spec d))
               (diagnosticv1.PodName (diagnosticv1.Spec d))
               (PodDiagnosisReconciler.effectiveTailLines d) w) = inr logs ->
        callAIEndpoint (environ o) (network o)
          (diagnosticv1.PodName (diagnosticv1.Spec d))
          (diagnosticv1.TriggerReason (diagnosticv1.Spec d)) logs
        = inr result ->
        (Patch_fault o = Some err ->
         fst (PodDiagnosisReconciler.Reconcile o req w) = Some err
         /\ diagnoses (snd (PodDiagnosisReconciler.Reconcile o req w))
            = diagnoses w)
        /\ (forall e,
              Get_fault o "Pod"
                (diagnosticv1.Namespace (diagnosticv1.Spec d),
                 diagnosticv1.PodName (diagnosticv1.Spec d)) = Some e ->
              PodDiagnosisReconciler.Reconcile o req w
              = Status_Patch o
                  (PodDiagnosisReconciler.complete d result (Now o)) d
                  (logged w
                     [LogFetch (diagnosticv1.Namespace (diagnosticv1.Spec d))
                        (diagnosticv1.PodName (diagnosticv1.Spec d))
                        (PodDiagnosisReconciler.effectiveTailLines d);
                      ReasoningCall
                        (diagnosticv1.PodName (diagnosticv1.Spec d))
                        (diagnosticv1.TriggerReason (diagnosticv1.Spec d))
                        logs]))).
Proof.
  split; [exact watcher_get_error |].
  split; [exact watcher_list_error |].
  split; [exact watcher_create_error |].
  split; [exact diagnosis_get_error |].
  intros o req w d logs result err Hf Hd Hopen Hlogs Hai.
  rewrite (pass_success o req w d Hf Hd Hopen logs result Hlogs Hai).
  split.
  - intros Hp. rewrite (Status_Patch_fault _ _ _ _ err Hp). now split.
  - intros e He. unfold event_effects, GetPod. rewrite He. reflexivity.
Qed.

Lemma store_errors_are_returned_witness :
  PodDiagnosisReconciler.Reconcile
    (outcomes (fun _ => Some timeout) None (inr (inr "")) (answering 200 ""))
    request_key (world crashLooping [request "" 0])
  = (Some timeout, world crashLooping [request "" 0]).
Proof.
  apply (proj1 (proj2 (proj2 (proj2 store_errors_are_returned)))
           (outcomes (fun _ => Some timeout) None (inr (inr ""))
              (answering 200 ""))
           request_key (world crashLooping [request "" 0]) timeout).
  reflexivity.
Defined.

(** C7, the counterexample: the store times out on the read of the target
    pod; the pass returns no error, and the request has changed: it is
    Completed. *)
Lemma pod_read_error_is_not_returned :
  Get_fault pod_read_times_out "Pod" web_key = Some timeout
  /\ fst (PodDiagnosisReconciler.Reconcile pod_read_times_out request_key
            (world crashLooping [request "" 0])) = None
  /\ diagnoses
       (snd (PodDiagnosisReconciler.Reconcile pod_read_times_out request_key
               (world crashLooping [request "" 0]))) !! request_key
     = Some (PodDiagnosisReconciler.complete (request "" 0)
               {| RootCause := "OOM"; Suggestion := "increase memory limit" |}
               1700000000).
Proof. repeat split; vm_compute; reflexivity. Qed.

(** On a Failed transition the error of the status patch is logged and
    dropped: the pass returns no error whatever the store answers. *)
Remark failed_transition_returns_no_error (o : Outcomes)
    (req : string * string) (w : World) (d : diagnosticv1.PodDiagnosis)
    (err : error) :
  Get_fault o "PodDiagnosis" req = None ->
  diagnoses w !! req = Some d ->
  unfinished d ->
  fst (getPodLogs o (diagnosticv1.Namespace (diagnosticv1.Spec d))
         (diagnosticv1.PodName (diagnosticv1.Spec d))
         (PodDiagnosisReconciler.effectiveTailLines d) w) = inl err ->
  fst (PodDiagnosisReconciler.Reconcile o req w) = None.
Proof.
  intros Hf Hd Hopen Hlogs.
  now rewrite (pass_log_failure o req w d Hf Hd Hopen err Hlogs).
Qed.

(** ** The trigger reason *)

Lemma reason_container_loop_none (statuses : list ContainerStatus) :
  Forall (fun c => ~ exit_code_nonzero c) statuses ->
  reason_container_loop statuses = None.
Proof.
  induction 1 as [|c rest Hc _ IH]; [reflexivity |]. simpl.
  destruct (Terminated (State c)) as [t|] eqn:Et; [| exact IH].
  destruct (Terminated_ExitCode t =? 0) eqn:Ez; [exact IH |].
  exfalso. apply Hc. exists t. split; [exact Et | now apply Z.eqb_neq].
Qed.

(** Outside the phase Failed, a pod without a container that exited with
    a non-zero code is summarised as "unknown failure", whatever made
    [isPodFailed] classify it. *)
Lemma getFailureReason_unknown (pod : Pod) :
  Phase (Pod_Status pod) <> PodFailed ->
  Forall (fun c => ~ exit_code_nonzero c) (ContainerStatuses (Pod_Status pod)) ->
  getFailureReason pod = "unknown failure".
Proof.
  intros Hp Hc. unfold getFailureReason.
  apply String.eqb_neq in Hp. rewrite Hp.
  now rewrite reason_container_loop_none.
Qed.

(** C8, the code at the failing inputs.  A pod whose container waits with
    CrashLoopBackOff, and a pending pod that the scheduler could not place,
    are both classified failed, and the request created for either carries
    the trigger reason "Pod entered failed state: unknown failure": neither
    the waiting reason nor the scheduler's message is in it. *)
Theorem trigger_reason_at_failing_inputs :
  isPodFailed crashLooping = true
  /\ getFailureReason crashLooping = "unknown failure"
  /\ (exists d,
        diagnoses (snd (PodWatcherReconciler.Reconcile calm web_key
                          (world crashLooping []))) !! request_key = Some d
        /\ diagnosticv1.TriggerReason (diagnosticv1.Spec d)
           = "Pod entered failed state: unknown failure")
  /\ isPodFailed unschedulable = true
  /\ getFailureReason unschedulable = "unknown failure"
  /\ (exists d,
        diagnoses (snd (PodWatcherReconciler.Reconcile calm web_key
                          (world unschedulable []))) !! request_key = Some d
        /\ diagnosticv1.TriggerReason (diagnosticv1.Spec d)
           = "Pod entered failed state: unknown failure").
Proof.
  split; [reflexivity |]. split; [reflexivity |].
  split; [eexists; split; [vm_compute; reflexivity | reflexivity] |].
  split; [reflexivity |]. split; [reflexivity |].
  eexists; split; [vm_compute; reflexivity | reflexivity].
Qed.

(** ** Deduplication *)

Lemma has_unfinished_spec (items : list diagnosticv1.PodDiagnosis) :
  PodWatcherReconciler.has_unfinished items = true
  <-> exists d, In d items /\ unfinished d.
Proof.
  induction items as [|d rest IH]; simpl.
  - split; [discriminate | intros (? & [] & _)].
  - destruct (negb (String.eqb (diagnosticv1.Phase (diagnosticv1.Status d))
                      "Completed")
              && negb (String.eqb (diagnosticv1.Phase (diagnosticv1.Status d))
                         "Failed")) eqn:E.
    + split; [intros _ | reflexivity]. exists d. split; [now left |].
      apply andb_true_iff in E as [E1 E2].
      apply negb_true_iff in E1, E2.
      split; now apply String.eqb_neq.
    + rewrite IH. split.
      * intros (x & Hin & Hx). exists x. split; [now right | exact Hx].
      * intros (x & [<- | Hin] & Hx); [| now exists x].
        destruct Hx as [H1 H2].
        apply String.eqb_neq in H1, H2. rewrite H1, H2 in E. discriminate.
Qed.

(** What [List] returns: the stored requests in the namespace that target
    the pod name. *)
Lemma List_items (w : World) (namespace podName : string)
    (d : diagnosticv1.PodDiagnosis) :
  In d (List.filter (selected namespace podName)
          (map snd (map_to_list (diagnoses w))))
  <-> (exists key, diagnoses w !! key = Some d)
      /\ metav1.Namespace (diagnosticv1.ObjectMeta d) = namespace
      /\ diagnosticv1.PodName (diagnosticv1.Spec d) = podName.
Proof.
  rewrite List.filter_In, List.in_map_iff. unfold selected.
  rewrite andb_true_iff, !String.eqb_eq. split.
  - intros (([key d'] & Heq & Hin) & Hsel). simpl in Heq. subst d'.
    split; [| exact Hsel]. exists key.
    apply elem_of_map_to_list. now apply list_elem_of_In.
  - intros ((key & Hkey) & Hsel). split; [| exact Hsel].
    exists (key, d). split; [reflexivity |].
    apply list_elem_of_In. now apply elem_of_map_to_list.
Qed.

(** [Create] leaves the requests as they are, or adds the object under a
    fresh key. *)
Lemma Create_step (o : Outcomes) (d : diagnosticv1.PodDiagnosis) (w : World) :
  diagnoses (snd (Create o d w)) = diagnoses w
  \/ (diagnoses w !! key_of (stored_as o d) = None
      /\ diagnoses (snd (Create o d w))
         = <[key_of (stored_as o d) := stored_as o d]> (diagnoses w)).
Proof.
  unfold Create. destruct (Create_fault o); [now left |].
  change (diagnoses (snd (emit (CreateRequest d) w))) with (diagnoses w).
  cbv zeta.
  change (metav1.Namespace (diagnosticv1.ObjectMeta d),
          metav1.GenerateName (diagnosticv1.ObjectMeta d)
          +:+ generated_suffix o)
    with (key_of (stored_as o d)).
  destruct (diagnoses w !! key_of (stored_as o d)) eqn:Hfresh; [now left |].
  right. split; [reflexivity | reflexivity].
Qed.

(** A pass of the watcher leaves the requests as they are, or adds one
    request for a pod without an unfinished request, under a fresh key. *)
Lemma watcher_step (o : Outcomes) (req : string * string) (w : World) :
  diagnoses (snd (PodWatcherReconciler.Reconcile o req w)) = diagnoses w
  \/ exists pod,
       PodWatcherReconciler.has_unfinished
         (List.filter (selected (Pod_Namespace pod) (Pod_Name pod))
            (map snd (map_to_list (diagnoses w)))) = false
       /\ diagnoses w !! key_of (created_request o pod) = None
       /\ diagnoses (snd (PodWatcherReconciler.Reconcile o req w))
          = <[key_of (created_request o pod) := created_request o pod]>
              (diagnoses w).
Proof.
  unfold PodWatcherReconciler.Reconcile, bind, GetPod.
  destruct (Get_fault o "Pod" req); [now left |].
  destruct (pods w !! req) as [pod|]; [| now left].
  destruct (isPodFailed pod); [| now left].
  cbn [negb]. cbv beta iota. unfold List.
  destruct (List_fault o); [now left |].
  cbv beta iota.
  destruct (PodWatcherReconciler.has_unfinished _) eqn:Hnone; [now left |].
  unfold PodWatcherReconciler.SetControllerReference.
  destruct (SetControllerReference_fault o); [now left |].
  cbv beta iota.
  match goal with
  | |- context [Create o ?d w] =>
      destruct (Create_step o d w) as [Hsame | [Hfresh Hnew]];
      destruct (Create o d w) as [[err|] w'] eqn:Hc
  end; simpl in *; try (now left).
  - right. exists pod. split; [exact Hnone |]. split; [exact Hfresh |].
    exact Hnew.
  - right. exists pod. split; [exact Hnone |]. split; [exact Hfresh |].
    exact Hnew.
Qed.

(** A pass of the lifecycle controller leaves the requests as they are, or
    replaces the status of the unfinished request it was given by a
    terminal one. *)
Lemma diagnosis_step (o : Outcomes) (req : string * string) (w : World) :
  well_placed w ->
  diagnoses (snd (PodDiagnosisReconciler.Reconcile o req w)) = diagnoses w
  \/ exists d obj,
       diagnoses w !! req = Some d
       /\ terminal obj
       /\ diagnosticv1.ObjectMeta obj = diagnosticv1.ObjectMeta d
       /\ diagnosticv1.Spec obj = diagnosticv1.Spec d
       /\ diagnoses (snd (PodDiagnosisReconciler.Reconcile o req w))
          = <[req := obj]> (diagnoses w).
Proof.
  intros Hwp.
  destruct (Get_fault o "PodDiagnosis" req) as [err|] eqn:Hf.
  { left. now rewrite (diagnosis_get_error o req w err Hf). }
  destruct (diagnoses w !! req) as [d|] eqn:Hd.
  2:{ left. unfold PodDiagnosisReconciler.Reconcile, bind, GetPodDiagnosis.
      now rewrite Hf, Hd. }
  destruct (Hwp req d Hd) as [Hkey _].
  destruct (String.eqb (diagnosticv1.Phase (diagnosticv1.Status d)) "Completed"
            || String.eqb (diagnosticv1.Phase (diagnosticv1.Status d)) "Failed")
    eqn:Hphase.
  { left. apply phase_terminal in Hphase.
    now rewrite (proj1 (Reconcile_terminal o req w d Hd Hphase)). }
  apply phase_unfinished in Hphase.
  assert (Hpatch : forall obj before,
    obj = with_status d (diagnosticv1.Status obj) ->
    terminal obj ->
    diagnoses (snd (Status_Patch o obj d (logged w before))) = diagnoses w
    \/ exists d0 obj0,
         Some d = Some d0 /\ terminal obj0
         /\ diagnosticv1.ObjectMeta obj0 = diagnosticv1.ObjectMeta d0
         /\ diagnosticv1.Spec obj0 = diagnosticv1.Spec d0
         /\ diagnoses (snd (Status_Patch o obj d (logged w before)))
            = <[req := obj0]> (diagnoses w)).
  { intros obj before Hobj Hterm.
    assert (Hk : key_of obj = req).
    { rewrite Hkey, Hobj. reflexivity. }
    destruct (Patch_fault o) as [err|] eqn:Hp.
    - left. now rewrite (Status_Patch_fault _ _ _ _ err Hp).
    - right. exists d, obj. split; [reflexivity |]. split; [exact Hterm |].
      split; [now rewrite Hobj |]. split; [now rewrite Hobj |].
      rewrite <- Hk. apply Status_Patch_writes; [exact Hp | | exact Hobj].
      now rewrite Hk. }
  destruct (fst (getPodLogs o (diagnosticv1.Namespace (diagnosticv1.Spec d))
                   (diagnosticv1.PodName (diagnosticv1.Spec d))
                   (PodDiagnosisReconciler.effectiveTailLines d) w))
    as [err | logs] eqn:Hlogs.
  - rewrite (pass_log_failure o req w d Hf Hd Hphase err Hlogs).
    exact (Hpatch (PodDiagnosisReconciler.fail d _ (Now o)) [LogFetch _ _ _]
             eq_refl (or_intror eq_refl)).
  - destruct (callAIEndpoint (environ o) (network o)
                (diagnosticv1.PodName (diagnosticv1.Spec d))
                (diagnosticv1.TriggerReason (diagnosticv1.Spec d)) logs)
      as [err | result] eqn:Hai.
    + rewrite (pass_reasoning_failure o req w d Hf Hd Hphase logs err Hlogs Hai).
      exact (Hpatch (PodDiagnosisReconciler.fail d _ (Now o))
               [LogFetch _ _ _; ReasoningCall _ _ _]
               eq_refl (or_intror eq_refl)).
    + rewrite (pass_success o req w d Hf Hd Hphase logs result Hlogs Hai).
      exact (Hpatch (PodDiagnosisReconciler.complete d result (Now o)) _
               eq_refl (or_introl eq_refl)).
Qed.

Lemma terminal_not_unfinished (d : diagnosticv1.PodDiagnosis) :
  terminal d -> unfinished d -> False.
Proof. intros [H | H] [H1 H2]; contradiction. Qed.

(** The two invariants together are kept by every step. *)
Lemma step_invariant (w w' : World) :
  step w w' ->
  well_placed w /\ at_most_one_unfinished w ->
  well_placed w' /\ at_most_one_unfinished w'.
Proof.
  intros Hstep [Hwp Hone].
  assert (Hsame : forall w1 : World,
            diagnoses w1 = diagnoses w ->
            well_placed w1 /\ at_most_one_unfinished w1).
  { intros w1 Heq. unfold well_placed, at_most_one_unfinished.
    rewrite Heq. now split. }
  destruct Hstep as [o req w | o req w | w pods' | w key].
  - destruct (watcher_step o req w)
      as [Heq | (pod & Hnone & Hfresh & Heq)];
      [now apply Hsame |].
    set (d := created_request o pod) in *.
    assert (Hns : metav1.Namespace (diagnosticv1.ObjectMeta d)
                  = Pod_Namespace pod) by reflexivity.
    assert (Hspec : diagnosticv1.Spec d
                    = diagnosticv1.Spec (PodWatcherReconciler.newDiagnosis pod))
      by reflexivity.
    assert (Hclash : forall k x,
              diagnoses w !! k = Some x -> unfinished x ->
              diagnosticv1.PodName (diagnosticv1.Spec x)
              = diagnosticv1.PodName (diagnosticv1.Spec d) ->
              diagnosticv1.Namespace (diagnosticv1.Spec x)
              = diagnosticv1.Namespace (diagnosticv1.Spec d) -> False).
    { intros k x Hx Hopen Hname Hnsx.
      rewrite Hspec in Hname, Hnsx. simpl in Hname, Hnsx.
      assert (Hin : In x (List.filter
                            (selected (Pod_Namespace pod) (Pod_Name pod))
                            (map snd (map_to_list (diagnoses w))))).
      { apply List_items. split; [now exists k |].
        split; [| exact Hname].
        destruct (Hwp k x Hx) as [_ Hplace]. now rewrite Hplace. }
      assert (Htrue : PodWatcherReconciler.has_unfinished
                        (List.filter
                           (selected (Pod_Namespace pod) (Pod_Name pod))
                           (map snd (map_to_list (diagnoses w)))) = true).
      { apply has_unfinished_spec. now exists x. }
      congruence. }
    split.
    + intros k x. rewrite Heq, lookup_insert_Some.
      intros [[<- <-] | [_ Hx]]; [| now apply Hwp].
      split; [reflexivity |]. rewrite Hns, Hspec. reflexivity.
    + intros k1 k2 d1 d2. rewrite Heq, !lookup_insert_Some.
      intros [[<- <-] | [Hn1 H1]] [[<- <-] | [Hn2 H2]] Ho1 Ho2 Hname Hnsx.
      * reflexivity.
      * exfalso. now apply (Hclash k2 d2 H2 Ho2).
      * exfalso. now apply (Hclash k1 d1 H1 Ho1).
      * now apply (Hone k1 k2 d1 d2).
  - destruct (diagnosis_step o req w Hwp)
      as [Heq | (d & obj & Hd & Hterm & Hmeta & Hspec & Heq)];
      [now apply Hsame |].
    destruct (Hwp req d Hd) as [Hkey Hplace].
    split.
    + intros k x. rewrite Heq, lookup_insert_Some.
      intros [[<- <-] | [_ Hx]]; [| now apply Hwp].
      unfold key_of. rewrite Hmeta, Hspec. now split.
    + intros k1 k2 d1 d2. rewrite Heq, !lookup_insert_Some.
      intros [[<- <-] | [Hn1 H1]] [[<- <-] | [Hn2 H2]] Ho1 Ho2 Hname Hnsx.
      * reflexivity.
      * exfalso. exact (terminal_not_unfinished obj Hterm Ho1).
      * exfalso. exact (terminal_not_unfinished obj Hterm Ho2).
      * now apply (Hone k1 k2 d1 d2).
  - now apply Hsame.
  - split.
    + intros k x. simpl. rewrite lookup_delete_Some.
      intros [_ Hx]. now apply Hwp.
    + intros k1 k2 d1 d2. simpl. rewrite !lookup_delete_Some.
      intros [_ H1] [_ H2]. now apply (Hone k1 k2 d1 d2).
Qed.

Lemma reachable_invariant (w0 w : World) :
  reachable w0 w ->
  well_placed w0 /\ at_most_one_unfinished w0 ->
  well_placed w /\ at_most_one_unfinished w.
Proof.
  induction 1 as [w | w1 w2 w3 Hstep _ IH]; intros Hinv; [exact Hinv |].
  apply IH. now apply (step_invariant w1 w2).
Qed.

Lemma watcher_skips (o : Outcomes) (req : string * string) (w : World)
    (pod : Pod) (key : string * string) (d : diagnosticv1.PodDiagnosis) :
  pods w !! req = Some pod ->
  diagnoses w !! key = Some d ->
  metav1.Namespace (diagnosticv1.ObjectMeta d) = Pod_Namespace pod ->
  diagnosticv1.PodName (diagnosticv1.Spec d) = Pod_Name pod ->
  unfinished d ->
  snd (PodWatcherReconciler.Reconcile o req w) = w
  /\ (Get_fault o "Pod" req = None -> List_fault o = None ->
      fst (PodWatcherReconciler.Reconcile o req w) = None).
Proof.
  intros Hp Hd Hns Hname Hopen.
  assert (Htrue : PodWatcherReconciler.has_unfinished
                    (List.filter (selected (Pod_Namespace pod) (Pod_Name pod))
                       (map snd (map_to_list (diagnoses w)))) = true).
  { apply has_unfinished_spec. exists d. split; [| exact Hopen].
    apply List_items. split; [now exists key | now split]. }
  unfold PodWatcherReconciler.Reconcile, bind, GetPod, List, ret.
  destruct (Get_fault o "Pod" req); simpl; [split; [reflexivity | discriminate] |].
  rewrite Hp. simpl.
  destruct (isPodFailed pod); simpl; [| now split].
  destruct (List_fault o); simpl; [split; [reflexivity | discriminate] |].
  rewrite Htrue. now split.
Qed.

(** C4.  When the watcher is triggered for a pod and the requests of the
    pod's namespace that target the pod's name include one whose phase is
    neither Completed nor Failed, the pass creates nothing: the world is
    left as it is, and the pass returns no error when the store answers.
    Hence, from a store in which every request lives in the namespace of
    its target pod and no (pod name, namespace) pair has two unfinished
    requests, no succession of passes of the two controllers, changes of
    pods and removals of requests leads to a store with two unfinished
    requests for one pair. *)
Theorem at_most_one_unfinished_request :
  (forall o req w pod key d,
     pods w !! req = Some pod ->
     diagnoses w !! key = Some d ->
     metav1.Namespace (diagnosticv1.ObjectMeta d) = Pod_Namespace pod ->
     diagnosticv1.PodName (diagnosticv1.Spec d) = Pod_Name pod ->
     unfinished d ->
     snd (PodWatcherReconciler.Reconcile o req w) = w
     /\ (Get_fault o "Pod" req = None -> List_fault o = None ->
         fst (PodWatcherReconciler.Reconcile o req w) = None))
  /\ (forall w0 w,
        well_placed w0 ->
        at_most_one_unfinished w0 ->
        reachable w0 w ->
        at_most_one_unfinished w).
Proof.
  split; [exact watcher_skips |].
  intros w0 w Hwp Hone Hreach.
  now apply (reachable_invariant w0 w Hreach).
Qed.

Lemma at_most_one_unfinished_request_witness :
  at_most_one_unfinished
    (snd (PodWatcherReconciler.Reconcile calm web_key
            (snd (PodWatcherReconciler.Reconcile calm web_key
                    (world crashLooping []))))).
Proof.
  apply (proj2 at_most_one_unfinished_request (world crashLooping [])).
  - intros key d H. simpl in H. rewrite lookup_empty in H. discriminate.
  - intros key1 key2 d1 d2 H. simpl in H. rewrite lookup_empty in H.
    discriminate.
  - eapply rtc_l; [apply (step_watch calm web_key) |].
    eapply rtc_l; [apply (step_watch calm web_key) |].
    apply rtc_refl.
Defined.

(** * Further properties of the code *)

(** ** [getFailureReason] *)

Lemma container_message_Sprintf (c : ContainerStatus)
    (t : ContainerStateTerminated) :
  Sprintf "Container %s exited with code %d: %s"
    [ArgS (Container_Name c); ArgD (Terminated_ExitCode t);
     ArgS (Terminated_Reason t)]
  = container_message c t.
Proof.
  unfold container_message.
  transitivity ("Container " +:+ Container_Name c +:+ " exited with code "
                +:+ pretty (Terminated_ExitCode t) +:+ ": "
                +:+ Terminated_Reason t +:+ "");
    [reflexivity | now rewrite append_empty_r].
Qed.

Lemma reason_container_loop_cons (c : ContainerStatus)
    (rest : list ContainerStatus) :
  reason_container_loop (c :: rest)
  = match Terminated (State c) with
    | Some t =>
        if negb (Terminated_ExitCode t =? 0)
        then Some (Sprintf "Container %s exited with code %d: %s"
                     [ArgS (Container_Name c); ArgD (Terminated_ExitCode t);
                      ArgS (Terminated_Reason t)])
        else reason_container_loop rest
    | None => reason_container_loop rest
    end.
Proof. reflexivity. Qed.

Lemma reason_container_loop_first (before after : list ContainerStatus)
    (c : ContainerStatus) (t : ContainerStateTerminated) :
  Forall (fun x => ~ exit_code_nonzero x) before ->
  Terminated (State c) = Some t ->
  Terminated_ExitCode t <> 0 ->
  reason_container_loop (before ++ c :: after) = Some (container_message c t).
Proof.
  intros Hbefore Ht Hcode.
  induction Hbefore as [|x rest Hx _ IH]; cbn [app];
    rewrite reason_container_loop_cons.
  - rewrite Ht. apply Z.eqb_neq in Hcode. rewrite Hcode. cbn [negb].
    now rewrite container_message_Sprintf.
  - destruct (Terminated (State x)) as [tx|] eqn:Etx; [| exact IH].
    destruct (Terminated_ExitCode tx =? 0) eqn:Ez; [exact IH |].
    exfalso. apply Hx. exists tx. split; [exact Etx | now apply Z.eqb_neq].
Qed.

Lemma reason_cond_loop_none (conds : list PodCondition) :
  Forall (fun cond => ~ names_unschedulable cond) conds ->
  reason_cond_loop conds = None.
Proof.
  induction 1 as [|cond rest Hc _ IH]; [reflexivity |]. simpl.
  destruct (String.eqb (Cond_Type cond) PodReasonUnschedulable
            && String.eqb (Cond_Status cond) ConditionTrue) eqn:E;
    [| exact IH].
  exfalso. apply Hc. apply andb_true_iff in E as [E1 E2].
  split; now apply String.eqb_eq.
Qed.

Lemma reason_cond_loop_first (before after : list PodCondition)
    (cond : PodCondition) :
  Forall (fun x => ~ names_unschedulable x) before ->
  names_unschedulable cond ->
  reason_cond_loop (before ++ cond :: after)
  = Some ("Unschedulable: " +:+ Cond_Message cond).
Proof.
  intros Hbefore [Hty Hst].
  induction Hbefore as [|x rest Hx _ IH]; simpl.
  - rewrite Hty, Hst. reflexivity.
  - destruct (String.eqb (Cond_Type x) PodReasonUnschedulable
              && String.eqb (Cond_Status x) ConditionTrue) eqn:E;
      [| exact IH].
    exfalso. apply Hx. apply andb_true_iff in E as [E1 E2].
    split; now apply String.eqb_eq.
Qed.

(** X1.  The summary names the first container, in the order of the
    statuses, that exited with a non-zero code: its name, its code and its
    reason, whatever the later containers did; unless the phase is Failed
    and a condition of type "Unschedulable" with status "True" is there. *)
Theorem getFailureReason_first_failed_container (pod : Pod)
    (before after : list ContainerStatus) (c : ContainerStatus)
    (t : ContainerStateTerminated) :
  ContainerStatuses (Pod_Status pod) = before ++ c :: after ->
  Forall (fun x => ~ exit_code_nonzero x) before ->
  Terminated (State c) = Some t ->
  Terminated_ExitCode t <> 0 ->
  Phase (Pod_Status pod) <> PodFailed
  \/ Forall (fun cond => ~ names_unschedulable cond)
       (Conditions (Pod_Status pod)) ->
  getFailureReason pod
  = "Container " +:+ Container_Name c +:+ " exited with code "
    +:+ pretty (Terminated_ExitCode t) +:+ ": " +:+ Terminated_Reason t.
Proof.
  intros Hcs Hbefore Ht Hcode Hconds. unfold getFailureReason.
  rewrite Hcs, (reason_container_loop_first before after c t Hbefore Ht Hcode).
  destruct Hconds as [Hphase | Hnone].
  - apply String.eqb_neq in Hphase. now rewrite Hphase.
  - rewrite (reason_cond_loop_none _ Hnone).
    now destruct (String.eqb (Phase (Pod_Status pod)) PodFailed).
Qed.

Lemma getFailureReason_first_failed_container_witness :
  getFailureReason killed
  = "Container " +:+ "app" +:+ " exited with code " +:+ pretty 137 +:+ ": "
    +:+ "OOMKilled".
Proof.
  apply (getFailureReason_first_failed_container killed
           [named "init" (exited 0 "Completed")]
           [named "sidecar" (exited 1 "Error")]
           (named "app" (exited 137 "OOMKilled"))
           {| Terminated_ExitCode := 137; Terminated_Reason := "OOMKilled" |}).
  - reflexivity.
  - constructor; [| constructor].
    intros (t & Ht & Hne). injection Ht as <-. now apply Hne.
  - reflexivity.
  - discriminate.
  - left. discriminate.
Defined.

(** X2.  In phase Failed, the first condition of type "Unschedulable" with
    status "True" gives the summary, "Unschedulable: " and its message,
    ahead of any container that exited with a non-zero code. *)
Theorem getFailureReason_unschedulable_first (pod : Pod)
    (before after : list PodCondition) (cond : PodCondition) :
  Phase (Pod_Status pod) = PodFailed ->
  Conditions (Pod_Status pod) = before ++ cond :: after ->
  Forall (fun x => ~ names_unschedulable x) before ->
  names_unschedulable cond ->
  getFailureReason pod = "Unschedulable: " +:+ Cond_Message cond.
Proof.
  intros Hphase Hconds Hbefore Hcond. unfold getFailureReason.
  rewrite Hphase, Hconds. simpl.
  now rewrite (reason_cond_loop_first before after cond Hbefore Hcond).
Qed.

Lemma getFailureReason_unschedulable_first_witness :
  getFailureReason failed_unschedulable = "Unschedulable: " +:+ "no node fits".
Proof.
  apply (getFailureReason_unschedulable_first failed_unschedulable
           [ {| Cond_Type := "Ready"; Cond_Status := ConditionFalse;
                Cond_Reason := ""; Cond_Message := "" |} ]
           []
           {| Cond_Type := PodReasonUnschedulable;
              Cond_Status := ConditionTrue;
              Cond_Reason := ""; Cond_Message := "no node fits" |}).
  - reflexivity.
  - reflexivity.
  - constructor; [| constructor]. intros [H _]. discriminate.
  - split; reflexivity.
Defined.

Lemma reason_container_loop_some (statuses : list ContainerStatus)
    (r : string) :
  reason_container_loop statuses = Some r ->
  exists c t, In c statuses /\ Terminated (State c) = Some t
              /\ Terminated_ExitCode t <> 0 /\ r = container_message c t.
Proof.
  induction statuses as [|c rest IH]; [discriminate |].
  rewrite reason_container_loop_cons.
  destruct (Terminated (State c)) as [t|] eqn:Et.
  - destruct (Terminated_ExitCode t =? 0) eqn:Ez; cbn [negb].
    + intros H. destruct (IH H) as (c' & t' & Hin & H').
      exists c', t'. split; [now right | exact H'].
    + intros H. injection H as <-. exists c, t.
      split; [now left |]. split; [exact Et |].
      split; [now apply Z.eqb_neq | apply container_message_Sprintf].
  - intros H. destruct (IH H) as (c' & t' & Hin & H').
    exists c', t'. split; [now right | exact H'].
Qed.

Lemma reason_cond_loop_some (conds : list PodCondition) (r : string) :
  reason_cond_loop conds = Some r ->
  exists cond, In cond conds /\ names_unschedulable cond
               /\ r = "Unschedulable: " +:+ Cond_Message cond.
Proof.
  induction conds as [|cond rest IH]; simpl; [discriminate |].
  destruct (String.eqb (Cond_Type cond) PodReasonUnschedulable
            && String.eqb (Cond_Status cond) ConditionTrue) eqn:E.
  - intros H. injection H as <-. exists cond. split; [now left |].
    apply andb_true_iff in E as [E1 E2]. apply String.eqb_eq in E1, E2.
    now repeat split.
  - intros H. destruct (IH H) as (c & Hin & H').
    exists c. split; [now right | exact H'].
Qed.

(** X3.  The summary is always one of three texts: "unknown failure"; the
    message of a container of the pod that exited with a non-zero code; or,
    only when the phase is Failed, "Unschedulable: " and the message of a
    condition of type "Unschedulable" with status "True".  So outside the
    phase Failed no condition of the pod ever reaches the summary. *)
Theorem getFailureReason_forms (pod : Pod) :
  getFailureReason pod = "unknown failure"
  \/ (exists c t,
        In c (ContainerStatuses (Pod_Status pod))
        /\ Terminated (State c) = Some t
        /\ Terminated_ExitCode t <> 0
        /\ getFailureReason pod = container_message c t)
  \/ (Phase (Pod_Status pod) = PodFailed
      /\ exists cond,
           In cond (Conditions (Pod_Status pod))
           /\ names_unschedulable cond
           /\ getFailureReason pod = "Unschedulable: " +:+ Cond_Message cond).
Proof.
  unfold getFailureReason.
  destruct (String.eqb (Phase (Pod_Status pod)) PodFailed) eqn:Ep.
  - destruct (reason_cond_loop (Conditions (Pod_Status pod))) as [r|] eqn:Er.
    + right. right. apply String.eqb_eq in Ep. split; [exact Ep |].
      now apply reason_cond_loop_some.
    + destruct (reason_container_loop (ContainerStatuses (Pod_Status pod)))
        as [r|] eqn:Ec; [| now left].
      right. left. destruct (reason_container_loop_some _ _ Ec)
        as (c & t & Hin & Ht & Hne & ->). now exists c, t.
  - destruct (reason_container_loop (ContainerStatuses (Pod_Status pod)))
      as [r|] eqn:Ec; [| now left].
    right. left. destruct (reason_container_loop_some _ _ Ec)
      as (c & t & Hin & Ht & Hne & ->). now exists c, t.
Qed.

(** ** [isPodFailed] and the event filter *)

Lemma terminated_dec (c : ContainerStatus) : terminated c \/ ~ terminated c.
Proof.
  unfold terminated. destruct (Terminated (State c)); [left | right];
    congruence.
Qed.

Lemma conditions_permuted (pod1 pod2 : Pod) :
  Phase (Pod_Status pod1) = Phase (Pod_Status pod2) ->
  Permutation (Conditions (Pod_Status pod1)) (Conditions (Pod_Status pod2)) ->
  Permutation (ContainerStatuses (Pod_Status pod1))
    (ContainerStatuses (Pod_Status pod2)) ->
  condition1 pod1 \/ condition2 pod1 \/ condition3 pod1 ->
  condition1 pod2 \/ condition2 pod2 \/ condition3 pod2.
Proof.
  intros Hphase Hconds Hcs.
  assert (Hin : forall c, In c (ContainerStatuses (Pod_Status pod1))
                          -> In c (ContainerStatuses (Pod_Status pod2))).
  { intros c. apply Permutation_in, Hcs. }
  assert (Hin' : forall c, In c (ContainerStatuses (Pod_Status pod2))
                           -> In c (ContainerStatuses (Pod_Status pod1))).
  { intros c. apply Permutation_in. now symmetry. }
  assert (Hall : Forall terminated (ContainerStatuses (Pod_Status pod1))
                 <-> Forall terminated (ContainerStatuses (Pod_Status pod2))).
  { rewrite !List.Forall_forall. split; intros H c Hc; apply H; auto. }
  unfold condition1, condition2, condition3. rewrite <- Hphase.
  intros [H1 | [(Hp & H2) | H3]].
  - now left.
  - right. left. split; [exact Hp |].
    destruct H2 as [(cond & Hc & Hs) | (c & Hc & Hw)].
    + left. exists cond. split; [| exact Hs].
      now apply (Permutation_in _ Hconds).
    + right. exists c. split; [now apply Hin | exact Hw].
  - right. right. cbv zeta in *.
    destruct H3 as [(Ht & c & Hc & Hnz) | (Hnt & c & Hc & Hw)].
    + left. split; [now apply Hall |]. exists c. split; [now apply Hin | exact Hnz].
    + right. split; [now rewrite <- Hall |].
      exists c. split; [now apply Hin | exact Hw].
Qed.

(** X4.  The classification does not depend on the order in which the
    conditions and the container statuses are listed. *)
Theorem isPodFailed_order_independent (pod1 pod2 : Pod) :
  Phase (Pod_Status pod1) = Phase (Pod_Status pod2) ->
  Permutation (Conditions (Pod_Status pod1)) (Conditions (Pod_Status pod2)) ->
  Permutation (ContainerStatuses (Pod_Status pod1))
    (ContainerStatuses (Pod_Status pod2)) ->
  isPodFailed pod1 = isPodFailed pod2.
Proof.
  intros Hphase Hconds Hcs.
  assert (H12 := conditions_permuted pod1 pod2 Hphase Hconds Hcs).
  assert (H21 := conditions_permuted pod2 pod1 (eq_sym Hphase)
                   (Permutation_sym Hconds) (Permutation_sym Hcs)).
  rewrite <- !isPodFailed_conditions in H12, H21.
  destruct (isPodFailed pod1), (isPodFailed pod2); try reflexivity.
  - symmetry. now apply H12.
  - now apply H21.
Qed.

Lemma isPodFailed_order_independent_witness :
  isPodFailed sidecar_running
  = isPodFailed (pod_of PodRunning []
                   [named "sidecar" running; named "app" (exited 1 "Error")]).
Proof.
  apply isPodFailed_order_independent.
  - reflexivity.
  - apply Permutation_refl.
  - apply perm_swap.
Defined.

(** X5.  Outside the phases Failed and Pending, a pod with a container that
    has not terminated is not failed, unless such a container waits with
    CrashLoopBackOff or CreateContainerError: neither a non-zero exit code
    of another container nor a waiting reason ImagePullBackOff or
    ErrImagePull makes it failed. *)
Theorem isPodFailed_false_while_a_container_lives (pod : Pod) :
  Phase (Pod_Status pod) <> PodFailed ->
  Phase (Pod_Status pod) <> PodPending ->
  (exists c, In c (ContainerStatuses (Pod_Status pod)) /\ ~ terminated c) ->
  (forall c, In c (ContainerStatuses (Pod_Status pod)) ->
             ~ terminated c ->
             ~ waits_with ["CrashLoopBackOff"; "CreateContainerError"] c) ->
  isPodFailed pod = false.
Proof.
  intros Hf Hp (c & Hc & Hlive) Hcalm.
  destruct (isPodFailed pod) eqn:E; [| reflexivity].
  apply isPodFailed_conditions in E.
  destruct E as [H1 | [(H2 & _) | [(Hall & _) | (_ & x & Hx & Hnt & Hw)]]].
  - contradiction.
  - contradiction.
  - rewrite List.Forall_forall in Hall. exfalso. apply Hlive. now apply Hall.
  - exfalso. now apply (Hcalm x Hx Hnt).
Qed.

Lemma isPodFailed_false_while_a_container_lives_witness :
  isPodFailed sidecar_running = false /\ isPodFailed image_missing = false.
Proof.
  split.
  - apply isPodFailed_false_while_a_container_lives.
    + discriminate.
    + discriminate.
    + exists (named "sidecar" running). split; [right; now left |].
      intros H. now apply H.
    + intros c [<- | [<- | []]] Hnt (w & Hw & _).
      * apply Hnt. discriminate.
      * discriminate.
  - apply isPodFailed_false_while_a_container_lives.
    + discriminate.
    + discriminate.
    + exists (named "app" (waiting "ImagePullBackOff")).
      split; [now left |]. intros H. now apply H.
    + intros c [<- | []] _ (w & Hw & Hr). injection Hw as <-.
      simpl in Hr. destruct Hr as [Hr | [Hr | []]]; discriminate.
Defined.

(** X6.  Every event that the filter admits carries a pod that is failed
    now: it is the creation of a failed pod, or an update whose new state
    is failed and whose old state was not. *)
Theorem eventFilter_admits_only_failed_pods (e : Event) :
  eventFilter e = true ->
  exists pod,
    isPodFailed pod = true
    /\ (e = CreateEvent (PodObject pod)
        \/ exists prior,
             e = UpdateEvent (PodObject prior) (PodObject pod)
             /\ isPodFailed prior = false).
Proof.
  destruct e as [obj | old new | obj | obj]; simpl;
    try discriminate.
  - destruct obj as [pod | kind]; simpl; [| discriminate].
    intros H. exists pod. split; [exact H | now left].
  - destruct old as [prior | kind], new as [pod | kind'];
      unfold UpdateFunc; simpl; try discriminate.
    intros H. apply andb_true_iff in H as [H1 H2].
    apply negb_true_iff in H1.
    exists pod. split; [exact H2 |]. right. now exists prior.
Qed.

Lemma eventFilter_admits_only_failed_pods_witness :
  exists pod,
    isPodFailed pod = true
    /\ (UpdateEvent (PodObject healthy) (PodObject crashLooping)
        = CreateEvent (PodObject pod)
        \/ exists prior,
             UpdateEvent (PodObject healthy) (PodObject crashLooping)
             = UpdateEvent (PodObject prior) (PodObject pod)
             /\ isPodFailed prior = false).
Proof.
  apply (eventFilter_admits_only_failed_pods
           (UpdateEvent (PodObject healthy) (PodObject crashLooping))).
  reflexivity.
Defined.

(** ** The Failure Detector's pass *)

Lemma Create_cases (o : Outcomes) (d : diagnosticv1.PodDiagnosis) (w : World) :
  pods (snd (Create o d w)) = pods w
  /\ trace (snd (Create o d w)) = trace w ++ [CreateRequest d]
  /\ (diagnoses (snd (Create o d w)) = diagnoses w
      \/ (Create_fault o = None
          /\ diagnoses w !! key_of (stored_as o d) = None
          /\ fst (Create o d w) = None
          /\ diagnoses (snd (Create o d w))
             = <[key_of (stored_as o d) := stored_as o d]> (diagnoses w))).
Proof.
  unfold Create. destruct (Create_fault o); [now repeat split; try left |].
  change (diagnoses (snd (emit (CreateRequest d) w))) with (diagnoses w).
  cbv zeta.
  change (metav1.Namespace (diagnosticv1.ObjectMeta d),
          metav1.GenerateName (diagnosticv1.ObjectMeta d)
          +:+ generated_suffix o)
    with (key_of (stored_as o d)).
  destruct (diagnoses w !! key_of (stored_as o d)) eqn:Hfresh.
  - split; [reflexivity |]. split; [reflexivity |]. now left.
  - split; [reflexivity |]. split; [reflexivity |]. right. now repeat split.
Qed.

(** A pass of the watcher changes nothing in the store, or it has read a
    failed pod without unfinished request and has stored the new request
    under a fresh key, returning no error. *)
Lemma watcher_cases (o : Outcomes) (req : string * string) (w : World) :
  (pods (snd (PodWatcherReconciler.Reconcile o req w)) = pods w
   /\ diagnoses (snd (PodWatcherReconciler.Reconcile o req w)) = diagnoses w)
  \/ exists pod,
       pods w !! req = Some pod
       /\ isPodFailed pod = true
       /\ diagnoses w !! key_of (created_request o pod) = None
       /\ fst (PodWatcherReconciler.Reconcile o req w) = None
       /\ pods (snd (PodWatcherReconciler.Reconcile o req w)) = pods w
       /\ diagnoses (snd (PodWatcherReconciler.Reconcile o req w))
          = <[key_of (created_request o pod) := created_request o pod]>
              (diagnoses w).
Proof.
  unfold PodWatcherReconciler.Reconcile, bind, GetPod.
  destruct (Get_fault o "Pod" req); [now left |].
  destruct (pods w !! req) as [pod|] eqn:Hpod; [| now left].
  destruct (isPodFailed pod) eqn:Hfailed; [| now left].
  cbn [negb]. cbv beta iota. unfold List.
  destruct (List_fault o); [now left |].
  cbv beta iota.
  destruct (PodWatcherReconciler.has_unfinished _) eqn:Hnone; [now left |].
  unfold PodWatcherReconciler.SetControllerReference.
  destruct (SetControllerReference_fault o); [now left |].
  cbv beta iota.
  match goal with
  | |- context [Create o ?d w] =>
      destruct (Create_cases o d w)
        as (Hpods & _ & [Hsame | (_ & Hfresh & Hnil & Hnew)]);
      destruct (Create o d w) as [[err|] w'] eqn:Hc
  end; simpl in *; try (now left); try discriminate.
  right. exists pod. now repeat split.
Qed.

Lemma trigger_reason_text (pod : Pod) :
  Sprintf "Pod entered failed state: %s" [ArgS (getFailureReason pod)]
  = "Pod entered failed state: " +:+ getFailureReason pod.
Proof.
  transitivity ("Pod entered failed state: " +:+ getFailureReason pod +:+ "");
    [reflexivity | now rewrite append_empty_r].
Qed.

Lemma generate_name_text (pod : Pod) :
  Sprintf "%s-diagnosis-" [ArgS (Pod_Name pod)] = Pod_Name pod +:+ "-diagnosis-".
Proof. reflexivity. Qed.

Lemma all_terminal_none_unfinished (w : World) (pod : Pod) :
  (forall key d,
     diagnoses w !! key = Some d ->
     metav1.Namespace (diagnosticv1.ObjectMeta d) = Pod_Namespace pod ->
     diagnosticv1.PodName (diagnosticv1.Spec d) = Pod_Name pod ->
     terminal d) ->
  PodWatcherReconciler.has_unfinished
    (List.filter (selected (Pod_Namespace pod) (Pod_Name pod))
       (map snd (map_to_list (diagnoses w)))) = false.
Proof.
  intros Hall.
  destruct (PodWatcherReconciler.has_unfinished _) eqn:E; [| reflexivity].
  apply has_unfinished_spec in E as (d & Hin & Hopen).
  apply List_items in Hin as ((key & Hkey) & Hns & Hname).
  exfalso. exact (terminal_not_unfinished d (Hall key d Hkey Hns Hname) Hopen).
Qed.

Lemma watcher_creates (o : Outcomes) (req : string * string)
    (w : World) (pod : Pod) :
  Get_fault o "Pod" req = None ->
  pods w !! req = Some pod ->
  isPodFailed pod = true ->
  List_fault o = None ->
  SetControllerReference_fault o = None ->
  Create_fault o = None ->
  (forall key d,
     diagnoses w !! key = Some d ->
     metav1.Namespace (diagnosticv1.ObjectMeta d) = Pod_Namespace pod ->
     diagnosticv1.PodName (diagnosticv1.Spec d) = Pod_Name pod ->
     terminal d) ->
  diagnoses w !! (Pod_Namespace pod,
                  (Pod_Name pod +:+ "-diagnosis-") +:+ generated_suffix o)
  = None ->
  let created :=
    {| diagnosticv1.ObjectMeta :=
         {| metav1.Name :=
              (Pod_Name pod +:+ "-diagnosis-") +:+ generated_suffix o;
            metav1.GenerateName := Pod_Name pod +:+ "-diagnosis-";
            metav1.Namespace := Pod_Namespace pod;
            metav1.Labels := [("diagnosed-pod", Pod_Name pod);
                              ("created-by", "pod-watcher")];
            metav1.OwnerReferences :=
              [ {| metav1.Owner_Kind := "Pod";
                   metav1.Owner_Name := Pod_Name pod;
                   metav1.Owner_UID := Pod_UID pod;
                   metav1.Owner_Controller := true |} ] |};
       diagnosticv1.Spec :=
         {| diagnosticv1.PodName := Pod_Name pod;
            diagnosticv1.Namespace := Pod_Namespace pod;
            diagnosticv1.TriggerReason :=
              "Pod entered failed state: " +:+ getFailureReason pod;
            diagnosticv1.TailLines := 100 |};
       diagnosticv1.Status :=
         {| diagnosticv1.Phase := "";
            diagnosticv1.RootCause := "";
            diagnosticv1.Suggestion := "";
            diagnosticv1.DiagnosisTime := None |} |} in
  fst (PodWatcherReconciler.Reconcile o req w) = None
  /\ pods (snd (PodWatcherReconciler.Reconcile o req w)) = pods w
  /\ diagnoses (snd (PodWatcherReconciler.Reconcile o req w))
     = <[(Pod_Namespace pod,
          (Pod_Name pod +:+ "-diagnosis-") +:+ generated_suffix o) := created]>
         (diagnoses w).
Proof.
  intros Hget Hpod Hfailed Hlist Hown Hcreate Hall Hfresh created.
  assert (Hsame : created_request o pod = created).
  { unfold created_request, created, PodWatcherReconciler.newDiagnosis.
    cbn [diagnosticv1.Spec diagnosticv1.Status].
    now rewrite trigger_reason_text. }
  pose proof (all_terminal_none_unfinished w pod Hall) as Hnone.
  unfold PodWatcherReconciler.Reconcile, bind, GetPod.
  rewrite Hget, Hpod, Hfailed. cbn [negb]. cbv beta iota.
  unfold List. rewrite Hlist. cbv beta iota. rewrite Hnone.
  unfold PodWatcherReconciler.SetControllerReference. rewrite Hown.
  cbv beta iota.
  match goal with
  | |- context [Create o ?d w] =>
      destruct (Create_cases o d w)
        as (Hpods & _ & [Hkeep | (_ & _ & Hnil & Hnew)]);
      [ exfalso; revert Hkeep; unfold Create; rewrite Hcreate;
        change (diagnoses (snd (emit (CreateRequest d) w))) with (diagnoses w);
        cbv zeta;
        change (metav1.Namespace (diagnosticv1.ObjectMeta d),
                metav1.GenerateName (diagnosticv1.ObjectMeta d)
                +:+ generated_suffix o)
          with (Pod_Namespace pod,
                (Pod_Name pod +:+ "-diagnosis-") +:+ generated_suffix o);
        rewrite Hfresh; cbn [snd diagnoses]; intros Hkeep
      | destruct (Create o d w) as [[err|] w'] eqn:Hc ]
  end.
  - assert (Hlook : diagnoses w !! (Pod_Namespace pod,
                      (Pod_Name pod +:+ "-diagnosis-") +:+ generated_suffix o)
                    = Some (created_request o pod)).
    { rewrite <- Hkeep. apply lookup_insert_eq. }
    congruence.
  - simpl in Hnil. discriminate.
  - simpl in *. split; [reflexivity |]. split; [exact Hpods |].
    rewrite Hnew. now rewrite <- Hsame.
Qed.

(** X7.  When the watcher reads a failed pod, every request of the pod's
    namespace that targets the pod's name is Completed or Failed (or there
    is none), the store answers and the generated name is free, the pass
    returns no error and stores one new request; nothing else changes.  The
    request is named after the pod, lives in the pod's namespace, targets
    the pod, carries the failure summary as trigger reason and 100 as
    tail-line count, has an empty status, the two labels, and the pod as
    its controlling owner. *)
Theorem watcher_creates_request (o : Outcomes) (req : string * string)
    (w : World) (pod : Pod) :
  Get_fault o "Pod" req = None ->
  pods w !! req = Some pod ->
  isPodFailed pod = true ->
  List_fault o = None ->
  SetControllerReference_fault o = None ->
  Create_fault o = None ->
  (forall key d,
     diagnoses w !! key = Some d ->
     metav1.Namespace (diagnosticv1.ObjectMeta d) = Pod_Namespace pod ->
     diagnosticv1.PodName (diagnosticv1.Spec d) = Pod_Name pod ->
     terminal d) ->
  diagnoses w !! (Pod_Namespace pod,
                  (Pod_Name pod +:+ "-diagnosis-") +:+ generated_suffix o)
  = None ->
  let created :=
    {| diagnosticv1.ObjectMeta :=
         {| metav1.Name :=
              (Pod_Name pod +:+ "-diagnosis-") +:+ generated_suffix o;
            metav1.GenerateName := Pod_Name pod +:+ "-diagnosis-";
            metav1.Namespace := Pod_Namespace pod;
            metav1.Labels := [("diagnosed-pod", Pod_Name pod);
                              ("created-by", "pod-watcher")];
            metav1.OwnerReferences :=
              [ {| metav1.Owner_Kind := "Pod";
                   metav1.Owner_Name := Pod_Name pod;
                   metav1.Owner_UID := Pod_UID pod;
                   metav1.Owner_Controller := true |} ] |};
       diagnosticv1.Spec :=
         {| diagnosticv1.PodName := Pod_Name pod;
            diagnosticv1.Namespace := Pod_Namespace pod;
            diagnosticv1.TriggerReason :=
              "Pod entered failed state: " +:+ getFailureReason pod;
            diagnosticv1.TailLines := 100 |};
       diagnosticv1.Status :=
         {| diagnosticv1.Phase := "";
            diagnosticv1.RootCause := "";
            diagnosticv1.Suggestion := "";
            diagnosticv1.DiagnosisTime := None |} |} in
  fst (PodWatcherReconciler.Reconcile o req w) = None
  /\ pods (snd (PodWatcherReconciler.Reconcile o req w)) = pods w
  /\ diagnoses (snd (PodWatcherReconciler.Reconcile o req w))
     = <[(Pod_Namespace pod,
          (Pod_Name pod +:+ "-diagnosis-") +:+ generated_suffix o) := created]>
         (diagnoses w).
Proof.
  exact (watcher_creates o req w pod).
Qed.

Lemma watcher_creates_request_witness :
  fst (PodWatcherReconciler.Reconcile calm web_key (world crashLooping []))
  = None.
Proof.
  assert (Hpod : pods (world crashLooping []) !! web_key = Some crashLooping)
    by (vm_compute; reflexivity).
  refine (proj1 (watcher_creates_request calm web_key (world crashLooping [])
                   crashLooping eq_refl Hpod eq_refl eq_refl eq_refl eq_refl
                   _ _)).
  - intros key d H. simpl in H. rewrite lookup_empty in H. discriminate.
  - simpl. apply lookup_empty.
Defined.

(** X8.  A pass of the watcher never changes a pod and never changes or
    removes a stored request.  When the store holds no failed pod under the
    key of the pass (the pod is gone, or it is not failed), the pass leaves
    the world as it is, and it returns no error when the read succeeds. *)
Theorem watcher_keeps_the_store (o : Outcomes) (req : string * string)
    (w : World) :
  pods (snd (PodWatcherReconciler.Reconcile o req w)) = pods w
  /\ (forall key d,
        diagnoses w !! key = Some d ->
        diagnoses (snd (PodWatcherReconciler.Reconcile o req w)) !! key
        = Some d)
  /\ ((forall pod, pods w !! req = Some pod -> isPodFailed pod = false) ->
      snd (PodWatcherReconciler.Reconcile o req w) = w
      /\ (Get_fault o "Pod" req = None ->
          fst (PodWatcherReconciler.Reconcile o req w) = None)).
Proof.
  split; [| split].
  - destruct (watcher_cases o req w) as [[Hp _] | (pod & _ & _ & _ & _ & Hp & _)];
      exact Hp.
  - intros key d Hd.
    destruct (watcher_cases o req w)
      as [[_ Hsame] | (pod & _ & _ & Hfresh & _ & _ & Hnew)].
    + now rewrite Hsame.
    + rewrite Hnew. rewrite lookup_insert_ne; [exact Hd |].
      intros <-. congruence.
  - intros Hnone.
    unfold PodWatcherReconciler.Reconcile, bind, GetPod.
    destruct (Get_fault o "Pod" req); [split; [reflexivity | discriminate] |].
    destruct (pods w !! req) as [pod|] eqn:Hpod; [| now split].
    rewrite (Hnone pod eq_refl). now split.
Qed.

Lemma watcher_keeps_the_store_witness :
  snd (PodWatcherReconciler.Reconcile calm web_key
         (world healthy [request "" 0]))
  = world healthy [request "" 0].
Proof.
  refine (proj1 (proj2 (proj2 (watcher_keeps_the_store calm web_key
                                 (world healthy [request "" 0]))) _)).
  intros pod H.
  assert (Hpod : pods (world healthy [request "" 0]) !! web_key = Some healthy)
    by (vm_compute; reflexivity).
  rewrite Hpod in H. injection H as <-. reflexivity.
Defined.

(** X9.  A duplicate trigger creates nothing: when a pass of the watcher
    has stored a request, a further pass for the same pod, whatever the
    store answers, leaves the world as the first pass left it. *)
Theorem second_trigger_creates_nothing (o1 o2 : Outcomes)
    (req : string * string) (w : World) :
  diagnoses (snd (PodWatcherReconciler.Reconcile o1 req w)) <> diagnoses w ->
  snd (PodWatcherReconciler.Reconcile o2 req
         (snd (PodWatcherReconciler.Reconcile o1 req w)))
  = snd (PodWatcherReconciler.Reconcile o1 req w).
Proof.
  intros Hchanged.
  destruct (watcher_cases o1 req w)
    as [[_ Hsame] | (pod & Hpod & _ & _ & _ & Hpods & Hnew)];
    [contradiction |].
  apply (watcher_skips o2 req _ pod (key_of (created_request o1 pod))
           (created_request o1 pod)).
  - now rewrite Hpods.
  - rewrite Hnew. apply lookup_insert_eq.
  - reflexivity.
  - reflexivity.
  - split; discriminate.
Qed.

Lemma second_trigger_creates_nothing_witness :
  snd (PodWatcherReconciler.Reconcile calm web_key
         (snd (PodWatcherReconciler.Reconcile calm web_key
                 (world crashLooping []))))
  = snd (PodWatcherReconciler.Reconcile calm web_key (world crashLooping [])).
Proof.
  apply second_trigger_creates_nothing.
  intros H.
  apply (f_equal (fun m => bool_decide (is_Some (m !! request_key)))) in H.
  vm_compute in H. discriminate.
Defined.

(** ** The Diagnosis Lifecycle Controller's pass *)

(** A pass leaves the world as it is, or it ends with the one status patch
    that takes the unfinished request it read to a terminal phase. *)
Lemma lifecycle_cases (o : Outcomes) (req : string * string) (w : World) :
  snd (PodDiagnosisReconciler.Reconcile o req w) = w
  \/ exists d obj before,
       diagnoses w !! req = Some d
       /\ unfinished d
       /\ obj = with_status d (diagnosticv1.Status obj)
       /\ terminal obj
       /\ snd (PodDiagnosisReconciler.Reconcile o req w)
          = snd (Status_Patch o obj d (logged w before)).
Proof.
  destruct (Get_fault o "PodDiagnosis" req) as [err|] eqn:Hf.
  { left. now rewrite (diagnosis_get_error o req w err Hf). }
  destruct (diagnoses w !! req) as [d|] eqn:Hd.
  2:{ left. unfold PodDiagnosisReconciler.Reconcile, bind, GetPodDiagnosis.
      now rewrite Hf, Hd. }
  destruct (String.eqb (diagnosticv1.Phase (diagnosticv1.Status d)) "Completed"
            || String.eqb (diagnosticv1.Phase (diagnosticv1.Status d)) "Failed")
    eqn:Hphase.
  { left. apply phase_terminal in Hphase.
    now rewrite (proj1 (Reconcile_terminal o req w d Hd Hphase)). }
  apply phase_unfinished in Hphase. right. exists d.
  destruct (fst (getPodLogs o (diagnosticv1.Namespace (diagnosticv1.Spec d))
                   (diagnosticv1.PodName (diagnosticv1.Spec d))
                   (PodDiagnosisReconciler.effectiveTailLines d) w))
    as [err | logs] eqn:Hlogs.
  - rewrite (pass_log_failure o req w d Hf Hd Hphase err Hlogs).
    eexists (PodDiagnosisReconciler.fail d _ (Now o)), _.
    split; [reflexivity |]. split; [exact Hphase |].
    split; [reflexivity |]. split; [now right | reflexivity].
  - destruct (callAIEndpoint (environ o) (network o)
                (diagnosticv1.PodName (diagnosticv1.Spec d))
                (diagnosticv1.TriggerReason (diagnosticv1.Spec d)) logs)
      as [err | result] eqn:Hai.
    + rewrite (pass_reasoning_failure o req w d Hf Hd Hphase logs err Hlogs Hai).
      eexists (PodDiagnosisReconciler.fail d _ (Now o)), _.
      split; [reflexivity |]. split; [exact Hphase |].
      split; [reflexivity |]. split; [now right | reflexivity].
    + rewrite (pass_success o req w d Hf Hd Hphase logs result Hlogs Hai).
      eexists (PodDiagnosisReconciler.complete d result (Now o)), _.
      split; [reflexivity |]. split; [exact Hphase |].
      split; [reflexivity |]. split; [now left | reflexivity].
Qed.

(** The patch of a status keeps the pods, the keys of the store, and the
    metadata and the spec of every stored request. *)
Lemma Status_Patch_frame (o : Outcomes) (obj base : diagnosticv1.PodDiagnosis)
    (w : World) :
  pods (snd (Status_Patch o obj base w)) = pods w
  /\ forall key,
       match diagnoses w !! key,
             diagnoses (snd (Status_Patch o obj base w)) !! key with
       | Some d, Some d' =>
           diagnosticv1.ObjectMeta d' = diagnosticv1.ObjectMeta d
           /\ diagnosticv1.Spec d' = diagnosticv1.Spec d
       | None, None => True
       | _, _ => False
       end.
Proof.
  unfold Status_Patch. cbn [emit snd diagnoses pods].
  destruct (Patch_fault o).
  - split; [reflexivity |]. intros key. cbn [snd diagnoses].
    now destruct (diagnoses w !! key).
  - destruct (diagnoses w !! key_of obj) as [cur|] eqn:Hcur.
    + split; [reflexivity |]. intros key. cbn [snd diagnoses].
      destruct (decide (key_of obj = key)) as [<- | Hne].
      * rewrite Hcur, lookup_insert_eq. now split.
      * rewrite lookup_insert_ne by exact Hne.
        now destruct (diagnoses w !! key).
    + split; [reflexivity |]. intros key. cbn [snd diagnoses].
      now destruct (diagnoses w !! key).
Qed.


(** X10.  A pass of the lifecycle controller never changes a pod, never
    adds or removes a request, and never changes the metadata or the spec
    of a request: all it may change is a status. *)
Theorem lifecycle_changes_status_only (o : Outcomes) (req : string * string)
    (w : World) :
  pods (snd (PodDiagnosisReconciler.Reconcile o req w)) = pods w
  /\ forall key,
       match diagnoses w !! key,
             diagnoses (snd (PodDiagnosisReconciler.Reconcile o req w)) !! key
       with
       | Some d, Some d' =>
           diagnosticv1.ObjectMeta d' = diagnosticv1.ObjectMeta d
           /\ diagnosticv1.Spec d' = diagnosticv1.Spec d
       | None, None => True
       | _, _ => False
       end.
Proof.
  destruct (lifecycle_cases o req w)
    as [Hsame | (d & obj & before & _ & _ & _ & _ & Hpatch)].
  - rewrite Hsame. split; [reflexivity |]. intros key.
    now destruct (diagnoses w !! key).
  - rewrite Hpatch.
    exact (Status_Patch_frame o obj d (logged w before)).
Qed.




(** ** The outcomes of a pass *)

Lemma event_message_Sprintf (result : DiagnosisResult) :
  Sprintf "【AI 根因分析】: %s 
【修复建议】: %s" [ArgS (RootCause result); ArgS (Suggestion result)]
  = event_message result.
Proof.
  unfold event_message.
  transitivity ("【AI 根因分析】: " +:+ RootCause result +:+ " 
【修复建议】: " +:+ Suggestion result +:+ "");
    [reflexivity | now rewrite append_empty_r].
Qed.

Lemma getPodLogs_result (o : Outcomes) (namespace podName : string)
    (tailLines : Z) (w : World) :
  fst (getPodLogs o namespace podName tailLines w)
  = match Stream o namespace podName tailLines with
    | inl err => inl (Errorf "打开日志流失败: %v" [ArgV err])
    | inr (inl err) => inl (Errorf "读取日志内容失败: %v" [ArgV err])
    | inr (inr logs) => inr logs
    end.
Proof. reflexivity. Qed.

Section Outcome.

Variables (o : Outcomes) (req : string * string) (w : World)
  (d : diagnosticv1.PodDiagnosis).

Hypothesis read_succeeds : Get_fault o "PodDiagnosis" req = None.
Hypothesis stored : diagnoses w !! req = Some d.
Hypothesis own_key : key_of d = req.
Hypothesis open : unfinished d.
Hypothesis patch_succeeds : Patch_fault o = None.

Let namespace := diagnosticv1.Namespace (diagnosticv1.Spec d).
Let podName := diagnosticv1.PodName (diagnosticv1.Spec d).
Let triggerReason := diagnosticv1.TriggerReason (diagnosticv1.Spec d).
Let tailLines := PodDiagnosisReconciler.effectiveTailLines d.

(** The world after the patch that ends a pass. *)
Lemma patched_world (obj : diagnosticv1.PodDiagnosis) (before : list Effect) :
  obj = with_status d (diagnosticv1.Status obj) ->
  Status_Patch o obj d (logged w before)
  = (None,
     {| pods := pods w;
        diagnoses := <[req := obj]> (diagnoses w);
        trace := trace w ++ before ++ [StatusWrite req (MergeFrom d obj)] |}).
Proof.
  intros Hobj.
  assert (Hk : key_of obj = req) by (rewrite Hobj; exact own_key).
  rewrite (Status_Patch_stored o obj d (logged w before) patch_succeeds);
    [| rewrite Hk; exact stored | exact Hobj].
  rewrite Hk. cbn [logged pods diagnoses trace].
  now rewrite <- app_assoc.
Qed.

Lemma failed_after_log_error (err : error) :
  fst (getPodLogs o namespace podName tailLines w) = inl err ->
  PodDiagnosisReconciler.Reconcile o req w
  = (None,
     {| pods := pods w;
        diagnoses :=
          <[req := PodDiagnosisReconciler.fail d
                     (Sprintf "获取日志失败: %v" [ArgV err]) (Now o)]>
            (diagnoses w);
        trace :=
          trace w
          ++ [LogFetch namespace podName tailLines;
              StatusWrite req
                (MergeFrom d
                   (PodDiagnosisReconciler.fail d
                      (Sprintf "获取日志失败: %v" [ArgV err]) (Now o)))] |}).
Proof.
  intros Hlogs.
  rewrite (pass_log_failure o req w d read_succeeds stored open err Hlogs).
  now rewrite (patched_world (PodDiagnosisReconciler.fail d _ (Now o))
                 [LogFetch _ _ _] eq_refl).
Qed.

Lemma failed_after_reasoning_error (logs : string) (err : error) :
  fst (getPodLogs o namespace podName tailLines w) = inr logs ->
  callAIEndpoint (environ o) (network o) podName triggerReason logs
  = inl err ->
  PodDiagnosisReconciler.Reconcile o req w
  = (None,
     {| pods := pods w;
        diagnoses :=
          <[req := PodDiagnosisReconciler.fail d
                     (Sprintf "诊断失败: %v" [ArgV err]) (Now o)]>
            (diagnoses w);
        trace :=
          trace w
          ++ [LogFetch namespace podName tailLines;
              ReasoningCall podName triggerReason logs;
              StatusWrite req
                (MergeFrom d
                   (PodDiagnosisReconciler.fail d
                      (Sprintf "诊断失败: %v" [ArgV err]) (Now o)))] |}).
Proof.
  intros Hlogs Hai.
  rewrite (pass_reasoning_failure o req w d read_succeeds stored open
             logs err Hlogs Hai).
  now rewrite (patched_world (PodDiagnosisReconciler.fail d _ (Now o))
                 [LogFetch _ _ _; ReasoningCall _ _ _] eq_refl).
Qed.

Lemma completed_after_success (logs : string) (result : DiagnosisResult) :
  fst (getPodLogs o namespace podName tailLines w) = inr logs ->
  callAIEndpoint (environ o) (network o) podName triggerReason logs
  = inr result ->
  PodDiagnosisReconciler.Reconcile o req w
  = (None,
     {| pods := pods w;
        diagnoses :=
          <[req := PodDiagnosisReconciler.complete d result (Now o)]>
            (diagnoses w);
        trace :=
          trace w
          ++ ([LogFetch namespace podName tailLines;
               ReasoningCall podName triggerReason logs]
              ++ event_effects o w d result)
          ++ [StatusWrite req
                (MergeFrom d
                   (PodDiagnosisReconciler.complete d result (Now o)))] |}).
Proof.
  intros Hlogs Hai.
  rewrite (pass_success o req w d read_succeeds stored open
             logs result Hlogs Hai).
  now rewrite (patched_world
                 (PodDiagnosisReconciler.complete d result (Now o)) _ eq_refl).
Qed.

End Outcome.

(** Closing a hypothesis of a theorem on a concrete input by evaluation. *)
Ltac by_evaluation :=
  vm_compute; first [reflexivity | discriminate | (split; discriminate)].

Ltac feed H :=
  lazymatch type of H with
  | ?A -> _ =>
      let Ha := fresh "Ha" in
      assert (Ha : A) by by_evaluation; specialize (H Ha); clear Ha
  end.

Lemma log_open_error_text (e : error) :
  Sprintf "获取日志失败: %v" [ArgV (Errorf "打开日志流失败: %v" [ArgV e])]
  = "获取日志失败: 打开日志流失败: " +:+ Error e.
Proof.
  transitivity ("获取日志失败: " +:+ ("打开日志流失败: " +:+ Error e +:+ "")
                +:+ "");
    [reflexivity | now rewrite !append_empty_r].
Qed.

Lemma log_read_error_text (e : error) :
  Sprintf "获取日志失败: %v" [ArgV (Errorf "读取日志内容失败: %v" [ArgV e])]
  = "获取日志失败: 读取日志内容失败: " +:+ Error e.
Proof.
  transitivity ("获取日志失败: " +:+ ("读取日志内容失败: " +:+ Error e +:+ "")
                +:+ "");
    [reflexivity | now rewrite !append_empty_r].
Qed.

Lemma reasoning_error_text (err : error) :
  Sprintf "诊断失败: %v" [ArgV err] = "诊断失败: " +:+ Error err.
Proof.
  transitivity ("诊断失败: " +:+ Error err +:+ "");
    [reflexivity | now rewrite append_empty_r].
Qed.

(** X12.  A request is processed once: after a pass on an unfinished
    request whose status patch the store accepted, any number of further
    passes on that request, whatever their outcomes, change nothing. *)
Theorem request_is_processed_once (o : Outcomes) (req : string * string)
    (w : World) (d : diagnosticv1.PodDiagnosis) (os : list Outcomes) :
  Get_fault o "PodDiagnosis" req = None ->
  diagnoses w !! req = Some d ->
  key_of d = req ->
  unfinished d ->
  Patch_fault o = None ->
  passes req os (snd (PodDiagnosisReconciler.Reconcile o req w))
  = snd (PodDiagnosisReconciler.Reconcile o req w).
Proof.
  intros Hf Hd Hkey Hopen Hp.
  assert (Hdone : exists obj,
            diagnoses (snd (PodDiagnosisReconciler.Reconcile o req w)) !! req
            = Some obj /\ terminal obj).
  { destruct (fst (getPodLogs o (diagnosticv1.Namespace (diagnosticv1.Spec d))
                     (diagnosticv1.PodName (diagnosticv1.Spec d))
                     (PodDiagnosisReconciler.effectiveTailLines d) w))
      as [err | logs] eqn:Hlogs.
    - rewrite (failed_after_log_error o req w d Hf Hd Hkey Hopen Hp err Hlogs).
      eexists. split; [apply lookup_insert_eq | now right].
    - destruct (callAIEndpoint (environ o) (network o)
                  (diagnosticv1.PodName (diagnosticv1.Spec d))
                  (diagnosticv1.TriggerReason (diagnosticv1.Spec d)) logs)
        as [err | result] eqn:Hai.
      + rewrite (failed_after_reasoning_error o req w d Hf Hd Hkey Hopen Hp
                   logs err Hlogs Hai).
        eexists. split; [apply lookup_insert_eq | now right].
      + rewrite (completed_after_success o req w d Hf Hd Hkey Hopen Hp
                   logs result Hlogs Hai).
        eexists. split; [apply lookup_insert_eq | now left]. }
  destruct Hdone as (obj & Hobj & Hterm).
  induction os as [|o' os IH]; [reflexivity |].
  unfold passes in *. cbn [foldl].
  now rewrite (proj1 (Reconcile_terminal o' req _ obj Hobj Hterm)).
Qed.

Lemma request_is_processed_once_witness :
  passes request_key [calm; logs_unavailable; service_down]
    (snd (PodDiagnosisReconciler.Reconcile service_down request_key
            (world crashLooping [request "" 0])))
  = snd (PodDiagnosisReconciler.Reconcile service_down request_key
           (world crashLooping [request "" 0])).
Proof.
  pose proof (request_is_processed_once service_down request_key
                (world crashLooping [request "" 0]) (request "" 0)
                [calm; logs_unavailable; service_down]) as H.
  do 5 feed H. exact H.
Defined.

(** X13.  Success: when the logs are read, the reasoning service returns a
    result and the store accepts the patch, the pass returns no error and
    the request is Completed with the result's root cause and suggestion
    and the time of the pass.  If the target pod can be read, a Warning
    event with reason AIDiagnosisResult and the result in its message is
    recorded on it, after the reasoning call and before the status write;
    if it cannot, no event is recorded and the rest is the same. *)
Theorem pass_completes_the_request (o : Outcomes) (req : string * string)
    (w : World) (d : diagnosticv1.PodDiagnosis) (logs : string)
    (result : DiagnosisResult) :
  Get_fault o "PodDiagnosis" req = None ->
  diagnoses w !! req = Some d ->
  key_of d = req ->
  unfinished d ->
  Patch_fault o = None ->
  let namespace := diagnosticv1.Namespace (diagnosticv1.Spec d) in
  let podName := diagnosticv1.PodName (diagnosticv1.Spec d) in
  let triggerReason := diagnosticv1.TriggerReason (diagnosticv1.Spec d) in
  let tailLines := PodDiagnosisReconciler.effectiveTailLines d in
  let completed :=
    with_status d
      {| diagnosticv1.Phase := "Completed";
         diagnosticv1.RootCause := RootCause result;
         diagnosticv1.Suggestion := Suggestion result;
         diagnosticv1.DiagnosisTime := Some (Now o) |} in
  Stream o namespace podName tailLines = inr (inr logs) ->
  callAIEndpoint (environ o) (network o) podName triggerReason logs
  = inr result ->
  (forall targetPod,
     Get_fault o "Pod" (namespace, podName) = None ->
     pods w !! (namespace, podName) = Some targetPod ->
     PodDiagnosisReconciler.Reconcile o req w
     = (None,
        {| pods := pods w;
           diagnoses := <[req := completed]> (diagnoses w);
           trace :=
             trace w
             ++ [LogFetch namespace podName tailLines;
                 ReasoningCall podName triggerReason logs;
                 PodEvent (Pod_Namespace targetPod, Pod_Name targetPod)
                   "Warning" "AIDiagnosisResult" (event_message result);
                 StatusWrite req (MergeFrom d completed)] |}))
  /\ (Get_fault o "Pod" (namespace, podName) <> None
      \/ pods w !! (namespace, podName) = None ->
      PodDiagnosisReconciler.Reconcile o req w
      = (None,
         {| pods := pods w;
            diagnoses := <[req := completed]> (diagnoses w);
            trace :=
              trace w
              ++ [LogFetch namespace podName tailLines;
                  ReasoningCall podName triggerReason logs;
                  StatusWrite req (MergeFrom d completed)] |})).
Proof.
  intros Hf Hd Hkey Hopen Hp namespace podName triggerReason tailLines
    completed Hstream Hai.
  assert (Hlogs : fst (getPodLogs o namespace podName tailLines w) = inr logs).
  { rewrite getPodLogs_result. now rewrite Hstream. }
  pose proof (completed_after_success o req w d Hf Hd Hkey Hopen Hp
                logs result Hlogs Hai) as Hrun.
  split.
  - intros targetPod Hget Hpod. rewrite Hrun.
    unfold event_effects, GetPod. fold namespace podName.
    rewrite Hget, Hpod. cbn [fst]. rewrite event_message_Sprintf.
    reflexivity.
  - intros Hgone. rewrite Hrun.
    unfold event_effects, GetPod. fold namespace podName.
    destruct (Get_fault o "Pod" (namespace, podName)) as [e|] eqn:Hget;
      [reflexivity |].
    destruct Hgone as [Hne | Hnone]; [contradiction |].
    rewrite Hnone. reflexivity.
Qed.

Lemma pass_completes_the_request_witness :
  fst (PodDiagnosisReconciler.Reconcile calm request_key
         (world crashLooping [request "" 0])) = None.
Proof.
  pose proof (pass_completes_the_request calm request_key
                (world crashLooping [request "" 0]) (request "" 0)
                "panic: out of memory"
                {| RootCause := "OOM"; Suggestion := "increase memory limit" |})
    as H.
  do 5 feed H. cbv zeta in H. do 2 feed H.
  destruct H as [H _]. specialize (H crashLooping). do 2 feed H.
  rewrite H. reflexivity.
Defined.

(** X14.  Log failure: when the log stream cannot be opened, or breaks
    while it is read, and the store accepts the patch, the pass returns no
    error and the request is Failed, with a root cause that carries the
    error's text and with the time of the pass; the pass makes no reasoning
    call and records no event. *)
Theorem log_failure_fails_the_request (o : Outcomes) (req : string * string)
    (w : World) (d : diagnosticv1.PodDiagnosis) (e : error) :
  Get_fault o "PodDiagnosis" req = None ->
  diagnoses w !! req = Some d ->
  key_of d = req ->
  unfinished d ->
  Patch_fault o = None ->
  let namespace := diagnosticv1.Namespace (diagnosticv1.Spec d) in
  let podName := diagnosticv1.PodName (diagnosticv1.Spec d) in
  let tailLines := PodDiagnosisReconciler.effectiveTailLines d in
  let failed rootCause :=
    with_status d
      {| diagnosticv1.Phase := "Failed";
         diagnosticv1.RootCause := rootCause;
         diagnosticv1.Suggestion :=
           diagnosticv1.Suggestion (diagnosticv1.Status d);
         diagnosticv1.DiagnosisTime := Some (Now o) |} in
  let outcome rootCause :=
    PodDiagnosisReconciler.Reconcile o req w
    = (None,
       {| pods := pods w;
          diagnoses := <[req := failed rootCause]> (diagnoses w);
          trace :=
            trace w
            ++ [LogFetch namespace podName tailLines;
                StatusWrite req (MergeFrom d (failed rootCause))] |}) in
  (Stream o namespace podName tailLines = inl e ->
   outcome ("获取日志失败: 打开日志流失败: " +:+ Error e))
  /\ (Stream o namespace podName tailLines = inr (inl e) ->
      outcome ("获取日志失败: 读取日志内容失败: " +:+ Error e)).
Proof.
  intros Hf Hd Hkey Hopen Hp namespace podName tailLines failed outcome.
  unfold outcome, failed. split; intros Hstream.
  - rewrite <- log_open_error_text.
    apply (failed_after_log_error o req w d Hf Hd Hkey Hopen Hp).
    rewrite getPodLogs_result. fold namespace podName tailLines.
    now rewrite Hstream.
  - rewrite <- log_read_error_text.
    apply (failed_after_log_error o req w d Hf Hd Hkey Hopen Hp).
    rewrite getPodLogs_result. fold namespace podName tailLines.
    now rewrite Hstream.
Qed.

Lemma log_failure_fails_the_request_witness :
  fst (PodDiagnosisReconciler.Reconcile logs_unavailable request_key
         (world crashLooping [request "" 0])) = None.
Proof.
  pose proof (log_failure_fails_the_request logs_unavailable request_key
                (world crashLooping [request "" 0]) (request "" 0)
                {| IsNotFound := false; Error := "container not found" |})
    as H.
  do 5 feed H. cbv zeta in H. destruct H as [H _]. feed H.
  rewrite H. reflexivity.
Defined.

(** X15.  Reasoning failure: when the logs are read and [callAIEndpoint]
    returns an error (a missing configuration, a transport error, a status
    other than 200, a response that does not parse), and the store accepts
    the patch, the pass returns no error and the request is Failed with the
    root cause "诊断失败: " followed by the error's text; no event is
    recorded on the pod. *)
Theorem reasoning_failure_fails_the_request (o : Outcomes)
    (req : string * string) (w : World) (d : diagnosticv1.PodDiagnosis)
    (logs : string) (err : error) :
  Get_fault o "PodDiagnosis" req = None ->
  diagnoses w !! req = Some d ->
  key_of d = req ->
  unfinished d ->
  Patch_fault o = None ->
  let namespace := diagnosticv1.Namespace (diagnosticv1.Spec d) in
  let podName := diagnosticv1.PodName (diagnosticv1.Spec d) in
  let triggerReason := diagnosticv1.TriggerReason (diagnosticv1.Spec d) in
  let tailLines := PodDiagnosisReconciler.effectiveTailLines d in
  let failed :=
    with_status d
      {| diagnosticv1.Phase := "Failed";
         diagnosticv1.RootCause := "诊断失败: " +:+ Error err;
         diagnosticv1.Suggestion :=
           diagnosticv1.Suggestion (diagnosticv1.Status d);
         diagnosticv1.DiagnosisTime := Some (Now o) |} in
  Stream o namespace podName tailLines = inr (inr logs) ->
  callAIEndpoint (environ o) (network o) podName triggerReason logs
  = inl err ->
  PodDiagnosisReconciler.Reconcile o req w
  = (None,
     {| pods := pods w;
        diagnoses := <[req := failed]> (diagnoses w);
        trace :=
          trace w
          ++ [LogFetch namespace podName tailLines;
              ReasoningCall podName triggerReason logs;
              StatusWrite req (MergeFrom d failed)] |}).
Proof.
  intros Hf Hd Hkey Hopen Hp namespace podName triggerReason tailLines
    failed Hstream Hai.
  unfold failed. rewrite <- reasoning_error_text.
  apply (failed_after_reasoning_error o req w d Hf Hd Hkey Hopen Hp logs err).
  - rewrite getPodLogs_result. fold namespace podName tailLines.
    now rewrite Hstream.
  - exact Hai.
Qed.

Lemma reasoning_failure_fails_the_request_witness :
  diagnoses
    (snd (PodDiagnosisReconciler.Reconcile service_down request_key
            (world crashLooping [request "" 0]))) !! request_key
  = Some (with_status (request "" 0)
            {| diagnosticv1.Phase := "Failed";
               diagnosticv1.RootCause :=
                 "诊断失败: " +:+ "AI 接口返回非 200 状态码: 503";
               diagnosticv1.Suggestion := "";
               diagnosticv1.DiagnosisTime := Some 1700000000 |}).
Proof.
  pose proof (reasoning_failure_fails_the_request service_down request_key
                (world crashLooping [request "" 0]) (request "" 0)
                "panic: out of memory"
                {| IsNotFound := false;
                   Error := "AI 接口返回非 200 状态码: 503" |}) as H.
  do 5 feed H. cbv zeta in H. do 2 feed H.
  rewrite H. apply lookup_insert_eq.
Defined.

(** ** The reasoning service client *)

(** X16.  Without a credential or without a URL the call fails with the
    configuration error before anything is asked of the network: the
    result is the same on every network. *)
Theorem missing_configuration_stops_the_call (env : Environ) (net : Network)
    (podName triggerReason logs : string) :
  AI_API_KEY env = "" \/ AI_API_URL env = "" ->
  callAIEndpoint env net podName triggerReason logs
  = inl {| IsNotFound := false; Error := "AI_API_KEY 或 AI_API_URL 未配置" |}.
Proof.
  intros Hmissing. unfold callAIEndpoint.
  assert (Hcheck : String.eqb (AI_API_KEY env) ""
                   || String.eqb (AI_API_URL env) "" = true).
  { apply orb_true_iff. rewrite !String.eqb_eq. exact Hmissing. }
  now rewrite Hcheck.
Qed.

Lemma missing_configuration_stops_the_call_witness :
  callAIEndpoint unconfigured (answering 200 (envelope content_full))
    "web" "CrashLoopBackOff" "panic: out of memory"
  = inl {| IsNotFound := false; Error := "AI_API_KEY 或 AI_API_URL 未配置" |}.
Proof.
  apply missing_configuration_stops_the_call. now left.
Defined.

Lemma transport_error_text (err : error) :
  Sprintf "调用 AI 接口失败: %v" [ArgV err] = "调用 AI 接口失败: " +:+ Error err.
Proof.
  transitivity ("调用 AI 接口失败: " +:+ Error err +:+ "");
    [reflexivity | now rewrite append_empty_r].
Qed.

(** X17.  With the configuration in place: an error on building the
    request is returned as it is, and the request is not sent; an error of
    the HTTP client is returned as a new error whose text is
    "调用 AI 接口失败: " followed by the client's text. *)
Theorem request_errors (env : Environ) (net : Network)
    (podName triggerReason logs : string) (err : error) :
  AI_API_KEY env <> "" ->
  AI_API_URL env <> "" ->
  (NewRequest_error net (AI_API_URL env) = Some err ->
   callAIEndpoint env net podName triggerReason logs = inl err)
  /\ (NewRequest_error net (AI_API_URL env) = None ->
      Do net (newRequest env podName triggerReason logs) = inl err ->
      callAIEndpoint env net podName triggerReason logs
      = inl {| IsNotFound := false;
               Error := "调用 AI 接口失败: " +:+ Error err |}).
Proof.
  intros Hkey Hurl. unfold callAIEndpoint.
  rewrite (eqb_empty_false _ Hkey), (eqb_empty_false _ Hurl).
  cbn [orb]. split.
  - intros Hreq. now rewrite Hreq.
  - intros Hreq Hdo. rewrite Hreq, Hdo. unfold Errorf.
    now rewrite transport_error_text.
Qed.

Lemma request_errors_witness :
  callAIEndpoint configured unreachable
    "web" "CrashLoopBackOff" "panic: out of memory"
  = inl {| IsNotFound := false;
           Error := "调用 AI 接口失败: "
                    +:+ "dial tcp: connection refused" |}.
Proof.
  pose proof (request_errors configured unreachable
                "web" "CrashLoopBackOff" "panic: out of memory"
                {| IsNotFound := false;
                   Error := "dial tcp: connection refused" |}) as H.
  do 2 feed H. destruct H as [_ H]. do 2 feed H. exact H.
Defined.

Lemma envelope_error_text (e : json.jsonError) :
  Sprintf "解析 AI 响应失败: %v" [ArgV (json_error e)]
  = "解析 AI 响应失败: " +:+ json.jsonError_Error e.
Proof.
  transitivity ("解析 AI 响应失败: " +:+ json.jsonError_Error e +:+ "");
    [reflexivity | now rewrite append_empty_r].
Qed.

(** X18.  A response with status 200 whose body does not decode as the
    envelope is an error that carries the decoder's text; one that decodes
    to an envelope without choices (an empty list, no list at all) is the
    error "AI 响应内容为空".  In neither case is there a result. *)
Theorem envelope_errors (env : Environ) (net : Network)
    (podName triggerReason logs : string) (resp : Response) :
  AI_API_KEY env <> "" ->
  AI_API_URL env <> "" ->
  NewRequest_error net (AI_API_URL env) = None ->
  Do net (newRequest env podName triggerReason logs) = inr resp ->
  StatusCode resp = 200 ->
  (forall e,
     Decode_AIResponse (Body resp) = inl e ->
     callAIEndpoint env net podName triggerReason logs
     = inl {| IsNotFound := false;
              Error := "解析 AI 响应失败: " +:+ json.jsonError_Error e |})
  /\ (Decode_AIResponse (Body resp) = inr {| Choices := [] |} ->
      callAIEndpoint env net podName triggerReason logs
      = inl {| IsNotFound := false; Error := "AI 响应内容为空" |}).
Proof.
  intros Hkey Hurl Hreq Hdo Hcode. unfold callAIEndpoint.
  rewrite (eqb_empty_false _ Hkey), (eqb_empty_false _ Hurl).
  cbn [orb]. rewrite Hreq, Hdo, Hcode. cbn [Z.eqb Pos.eqb negb StatusOK].
  split.
  - intros e Hdec. rewrite Hdec. unfold Errorf.
    now rewrite envelope_error_text.
  - intros Hdec. now rewrite Hdec.
Qed.

Lemma envelope_errors_witness :
  callAIEndpoint configured (answering 200 "{}")
    "web" "CrashLoopBackOff" "panic: out of memory"
  = inl {| IsNotFound := false; Error := "AI 响应内容为空" |}.
Proof.
  pose proof (envelope_errors configured (answering 200 "{}")
                "web" "CrashLoopBackOff" "panic: out of memory"
                {| StatusCode := 200; Body := "{}" |}) as H.
  do 5 feed H. destruct H as [_ H]. feed H. exact H.
Defined.

(** X19.  Only the first choice counts: two answers with status 200 whose
    envelopes start with a choice of the same content give the same result
    or the same error, whatever else the envelopes hold. *)
Theorem only_the_first_choice_counts (env : Environ) (net1 net2 : Network)
    (podName triggerReason logs content : string) :
  answers env net1 podName triggerReason logs content ->
  answers env net2 podName triggerReason logs content ->
  callAIEndpoint env net1 podName triggerReason logs
  = callAIEndpoint env net2 podName triggerReason logs.
Proof.
  intros H1 H2.
  now rewrite (callAIEndpoint_content _ _ _ _ _ _ H1),
              (callAIEndpoint_content _ _ _ _ _ _ H2).
Qed.

Lemma answers_envelope (body content : string) (rest : list Choice) :
  Decode_AIResponse body
  = inr {| Choices := {| Choice_Message_Content := content |} :: rest |} ->
  answers configured (answering 200 body)
    "web" "CrashLoopBackOff" "panic: out of memory" content.
Proof.
  intros Hdec. split; [discriminate |]. split; [discriminate |].
  split; [reflexivity |].
  exists {| StatusCode := 200; Body := body |},
    {| Choices := {| Choice_Message_Content := content |} :: rest |},
    {| Choice_Message_Content := content |}, rest.
  split; [reflexivity |]. split; [reflexivity |].
  split; [exact Hdec |]. split; reflexivity.
Qed.

Lemma only_the_first_choice_counts_witness :
  callAIEndpoint configured
    (answering 200 (envelope2 content_full content_not_json))
    "web" "CrashLoopBackOff" "panic: out of memory"
  = callAIEndpoint configured (answering 200 (envelope content_full))
      "web" "CrashLoopBackOff" "panic: out of memory".
Proof.
  apply (only_the_first_choice_counts configured _ _ _ _ _ content_full).
  - apply (answers_envelope _ _
             [ {| Choice_Message_Content := content_not_json |} ]).
    vm_compute. reflexivity.
  - apply (answers_envelope _ _ []). vm_compute. reflexivity.
Defined.


(** ** The requests of a running system *)

Lemma created_request_watcher_made (o : Outcomes) (pod : Pod) :
  watcher_made (created_request o pod).
Proof.
  unfold watcher_made, created_request, PodWatcherReconciler.newDiagnosis.
  cbn [diagnosticv1.ObjectMeta diagnosticv1.Spec diagnosticv1.Status
       diagnosticv1.TailLines diagnosticv1.Namespace diagnosticv1.PodName
       diagnosticv1.Phase metav1.Namespace metav1.GenerateName metav1.Labels
       metav1.OwnerReferences].
  repeat split; try reflexivity.
  - now exists (Pod_UID pod).
  - now left.
Qed.

Lemma step_keeps_watcher_made (w w' : World) :
  step w w' ->
  well_placed w ->
  all_watcher_made w ->
  all_watcher_made w'.
Proof.
  intros Hstep Hwp Hall.
  destruct Hstep as [o req w | o req w | w pods' | w key].
  - destruct (watcher_cases o req w)
      as [[_ Hsame] | (pod & _ & _ & _ & _ & _ & Hnew)].
    + intros key d. rewrite Hsame. apply Hall.
    + intros key d. rewrite Hnew, lookup_insert_Some.
      intros [[_ <-] | [_ Hd]]; [| exact (Hall key d Hd)].
      apply created_request_watcher_made.
  - destruct (diagnosis_step o req w Hwp)
      as [Hsame | (d0 & obj & Hd0 & Hterm & Hmeta & Hspec & Hnew)].
    + intros key d. rewrite Hsame. apply Hall.
    + intros key d. rewrite Hnew, lookup_insert_Some.
      intros [[_ <-] | [_ Hd]]; [| exact (Hall key d Hd)].
      destruct (Hall req d0 Hd0) as (H1 & H2 & H3 & H4 & H5 & _).
      unfold watcher_made. rewrite Hmeta, Hspec.
      repeat split; try assumption. now right.
  - exact Hall.
  - intros k d. cbn [diagnoses]. rewrite lookup_delete_Some.
    intros [_ Hd]. exact (Hall k d Hd).
Qed.

Lemma reachable_watcher_made (w : World) :
  reachable no_requests w -> all_watcher_made w.
Proof.
  intros Hreach.
  assert (Hinv : forall w0 w1,
            reachable w0 w1 ->
            (well_placed w0 /\ at_most_one_unfinished w0)
            /\ all_watcher_made w0 ->
            (well_placed w1 /\ at_most_one_unfinished w1)
            /\ all_watcher_made w1).
  { induction 1 as [x | x y z Hstep _ IH]; intros [Hi Hm]; [now split |].
    apply IH. split.
    - now apply (step_invariant x y).
    - apply (step_keeps_watcher_made x y Hstep); [apply Hi | exact Hm]. }
  destruct (Hinv no_requests w Hreach) as [_ Hall]; [| exact Hall].
  split; [split |].
  - intros k x H. cbn in H. rewrite lookup_empty in H. discriminate.
  - intros k1 k2 d1 d2 H. cbn in H. rewrite lookup_empty in H. discriminate.
  - intros k x H. cbn in H. rewrite lookup_empty in H. discriminate.
Qed.

(** X21.  In a system that starts without requests, every request that is
    ever in the store is one the watcher made: it asks for 100 tail lines,
    lives in the namespace of the pod it targets, is named after that pod,
    carries the watcher's two labels and exactly one owner, the pod, as
    controller; and its phase is empty, Completed or Failed. *)
Theorem stored_requests_are_watcher_made (w : World)
    (key : string * string) (d : diagnosticv1.PodDiagnosis) :
  reachable no_requests w ->
  diagnoses w !! key = Some d ->
  watcher_made d.
Proof.
  intros Hreach Hd. exact (reachable_watcher_made w Hreach key d Hd).
Qed.

Lemma stored_requests_are_watcher_made_witness :
  watcher_made (created_request calm crashLooping).
Proof.
  apply (stored_requests_are_watcher_made
           (snd (PodWatcherReconciler.Reconcile calm web_key
                   {| pods := {[ web_key := crashLooping ]};
                      diagnoses := ∅; trace := [] |}))
           request_key).
  - eapply rtc_l;
      [apply (step_pods no_requests {[ web_key := crashLooping ]}) |].
    eapply rtc_l; [apply (step_watch calm web_key) |].
    apply rtc_refl.
  - vm_compute. reflexivity.
Defined.

(** ** Order of the effects, and the two controllers together *)

Lemma patch_phase_changed (d : diagnosticv1.PodDiagnosis)
    (obj : diagnosticv1.PodDiagnosis) :
  diagnosticv1.Phase (diagnosticv1.Status d)
  <> diagnosticv1.Phase (diagnosticv1.Status obj) ->
  patch_phase (MergeFrom d obj)
  = Some (diagnosticv1.Phase (diagnosticv1.Status obj)).
Proof.
  intros Hne. unfold MergeFrom, changed. cbn [patch_phase].
  apply String.eqb_neq in Hne. now rewrite Hne.
Qed.

(** X22.  What a pass of the lifecycle controller does to the outside is
    always one of five sequences: nothing; log fetch, write of Failed; log
    fetch, reasoning call, write of Failed; log fetch, reasoning call,
    write of Completed; or the last with a Warning event on the pod just
    before the write.  So the reasoning service is called only after the
    logs were fetched, an event is recorded only on the way to Completed,
    and the status write comes last. *)
Theorem pass_effects_are_ordered (o : Outcomes) (req : string * string)
    (w : World) :
  exists es,
    trace (snd (PodDiagnosisReconciler.Reconcile o req w)) = trace w ++ es
    /\ pass_effects es.
Proof.
  assert (Hidle : snd (PodDiagnosisReconciler.Reconcile o req w) = w ->
                  exists es,
                    trace (snd (PodDiagnosisReconciler.Reconcile o req w))
                    = trace w ++ es /\ pass_effects es).
  { intros ->. exists []. split; [now rewrite app_nil_r | constructor]. }
  destruct (Get_fault o "PodDiagnosis" req) as [err|] eqn:Hf.
  { apply Hidle. now rewrite (diagnosis_get_error o req w err Hf). }
  destruct (diagnoses w !! req) as [d|] eqn:Hd.
  2:{ apply Hidle.
      unfold PodDiagnosisReconciler.Reconcile, bind, GetPodDiagnosis.
      now rewrite Hf, Hd. }
  destruct (String.eqb (diagnosticv1.Phase (diagnosticv1.Status d)) "Completed"
            || String.eqb (diagnosticv1.Phase (diagnosticv1.Status d)) "Failed")
    eqn:Hphase.
  { apply Hidle. apply phase_terminal in Hphase.
    now rewrite (proj1 (Reconcile_terminal o req w d Hd Hphase)). }
  apply phase_unfinished in Hphase. destruct Hphase as [Hnc Hnf].
  assert (Hopen : unfinished d) by now split.
  destruct (fst (getPodLogs o (diagnosticv1.Namespace (diagnosticv1.Spec d))
                   (diagnosticv1.PodName (diagnosticv1.Spec d))
                   (PodDiagnosisReconciler.effectiveTailLines d) w))
    as [err | logs] eqn:Hlogs.
  - rewrite (pass_log_failure o req w d Hf Hd Hopen err Hlogs).
    cbn [snd]. rewrite Status_Patch_trace. cbn [logged trace].
    rewrite <- app_assoc. eexists. split; [reflexivity |].
    apply pass_log_failed. now apply patch_phase_changed.
  - destruct (callAIEndpoint (environ o) (network o)
                (diagnosticv1.PodName (diagnosticv1.Spec d))
                (diagnosticv1.TriggerReason (diagnosticv1.Spec d)) logs)
      as [err | result] eqn:Hai.
    + rewrite (pass_reasoning_failure o req w d Hf Hd Hopen logs err Hlogs Hai).
      cbn [snd]. rewrite Status_Patch_trace. cbn [logged trace].
      rewrite <- app_assoc. eexists. split; [reflexivity |].
      apply pass_reasoning_failed. now apply patch_phase_changed.
    + rewrite (pass_success o req w d Hf Hd Hopen logs result Hlogs Hai).
      rewrite Status_Patch_trace. cbn [logged trace].
      rewrite <- app_assoc. eexists. split; [reflexivity |].
      unfold event_effects.
      destruct (fst (GetPod o _ w)) as [e | targetPod]; cbn [app].
      * apply pass_completed. now apply patch_phase_changed.
      * apply pass_completed_event. now apply patch_phase_changed.
Qed.

(** X23.  In a system that starts without requests, a pass of the lifecycle
    controller on any unfinished request that it can read fetches 100 log
    lines of the request's target pod in the request's own namespace:
    the count the watcher wrote is never 0 and never replaced. *)
Theorem watcher_made_requests_fetch_100_lines (o : Outcomes)
    (req : string * string) (w : World) (d : diagnosticv1.PodDiagnosis) :
  reachable no_requests w ->
  Get_fault o "PodDiagnosis" req = None ->
  diagnoses w !! req = Some d ->
  unfinished d ->
  exists rest,
    trace (snd (PodDiagnosisReconciler.Reconcile o req w))
    = trace w
      ++ LogFetch (metav1.Namespace (diagnosticv1.ObjectMeta d))
           (diagnosticv1.PodName (diagnosticv1.Spec d)) 100 :: rest.
Proof.
  intros Hreach Hf Hd Hopen.
  destruct (reachable_watcher_made w Hreach req d Hd)
    as (Htail & Hns & _).
  destruct (pass_starts_with_log_fetch o req w d Hf Hd Hopen) as [rest Hrest].
  exists rest. rewrite Hrest, Hns.
  unfold PodDiagnosisReconciler.effectiveTailLines. now rewrite Htail.
Qed.

Lemma watcher_made_requests_fetch_100_lines_witness :
  exists rest,
    trace (snd (PodDiagnosisReconciler.Reconcile calm request_key
                  (snd (PodWatcherReconciler.Reconcile calm web_key
                          {| pods := {[ web_key := crashLooping ]};
                             diagnoses := ∅; trace := [] |}))))
    = trace (snd (PodWatcherReconciler.Reconcile calm web_key
                    {| pods := {[ web_key := crashLooping ]};
                       diagnoses := ∅; trace := [] |}))
      ++ LogFetch
           (metav1.Namespace
              (diagnosticv1.ObjectMeta (created_request calm crashLooping)))
           (diagnosticv1.PodName
              (diagnosticv1.Spec (created_request calm crashLooping))) 100
         :: rest.
Proof.
  apply (watcher_made_requests_fetch_100_lines calm request_key
           (snd (PodWatcherReconciler.Reconcile calm web_key
                   {| pods := {[ web_key := crashLooping ]};
                      diagnoses := ∅; trace := [] |}))
           (created_request calm crashLooping)).
  - eapply rtc_l;
      [apply (step_pods no_requests {[ web_key := crashLooping ]}) |].
    eapply rtc_l; [apply (step_watch calm web_key) |].
    apply rtc_refl.
  - reflexivity.
  - vm_compute. reflexivity.
  - split; discriminate.
Defined.

(** X24.  The two controllers together: when a pass of the watcher creates
    the request for a failed pod, and a pass of the lifecycle controller on
    that request reads 100 log lines of the pod, gets a result from the
    reasoning service for the pod's name, the watcher's trigger reason and
    those logs, and has its patch accepted, then both passes return no
    error and the store holds the request as Completed with that result,
    its spec as the watcher wrote it. *)
Theorem failed_pod_is_diagnosed (o1 o2 : Outcomes) (req : string * string)
    (w : World) (pod : Pod) (logs : string) (result : DiagnosisResult) :
  Get_fault o1 "Pod" req = None ->
  pods w !! req = Some pod ->
  isPodFailed pod = true ->
  List_fault o1 = None ->
  SetControllerReference_fault o1 = None ->
  Create_fault o1 = None ->
  (forall key d,
     diagnoses w !! key = Some d ->
     metav1.Namespace (diagnosticv1.ObjectMeta d) = Pod_Namespace pod ->
     diagnosticv1.PodName (diagnosticv1.Spec d) = Pod_Name pod ->
     terminal d) ->
  let key := (Pod_Namespace pod,
              (Pod_Name pod +:+ "-diagnosis-") +:+ generated_suffix o1) in
  let triggerReason := "Pod entered failed state: " +:+ getFailureReason pod in
  diagnoses w !! key = None ->
  Get_fault o2 "PodDiagnosis" key = None ->
  Patch_fault o2 = None ->
  Stream o2 (Pod_Namespace pod) (Pod_Name pod) 100 = inr (inr logs) ->
  callAIEndpoint (environ o2) (network o2) (Pod_Name pod) triggerReason logs
  = inr result ->
  fst (PodWatcherReconciler.Reconcile o1 req w) = None
  /\ fst (PodDiagnosisReconciler.Reconcile o2 key
            (snd (PodWatcherReconciler.Reconcile o1 req w))) = None
  /\ exists d,
       diagnoses
         (snd (PodDiagnosisReconciler.Reconcile o2 key
                 (snd (PodWatcherReconciler.Reconcile o1 req w)))) !! key
       = Some d
       /\ diagnosticv1.Spec d
          = {| diagnosticv1.PodName := Pod_Name pod;
               diagnosticv1.Namespace := Pod_Namespace pod;
               diagnosticv1.TriggerReason := triggerReason;
               diagnosticv1.TailLines := 100 |}
       /\ diagnosticv1.Status d
          = {| diagnosticv1.Phase := "Completed";
               diagnosticv1.RootCause := RootCause result;
               diagnosticv1.Suggestion := Suggestion result;
               diagnosticv1.DiagnosisTime := Some (Now o2) |}.
Proof.
  intros Hget Hpod Hfailed Hlist Hown Hcreate Hall key triggerReason
    Hfresh Hread Hpatch Hstream Hai.
  destruct (watcher_creates o1 req w pod Hget Hpod Hfailed Hlist Hown Hcreate
              Hall Hfresh) as (Hnil & _ & Hnew).
  cbv zeta in Hnew. fold key triggerReason in Hnew.
  set (w1 := snd (PodWatcherReconciler.Reconcile o1 req w)) in *.
  match type of Hnew with
  | _ = <[key := ?c]> _ => set (created := c) in *
  end.
  assert (Hstored : diagnoses w1 !! key = Some created).
  { rewrite Hnew. apply lookup_insert_eq. }
  assert (Hopen : unfinished created) by (split; discriminate).
  assert (Hlogs :
    fst (getPodLogs o2 (diagnosticv1.Namespace (diagnosticv1.Spec created))
           (diagnosticv1.PodName (diagnosticv1.Spec created))
           (PodDiagnosisReconciler.effectiveTailLines created) w1)
    = inr logs).
  { rewrite getPodLogs_result.
    change (Stream o2 (diagnosticv1.Namespace (diagnosticv1.Spec created))
              (diagnosticv1.PodName (diagnosticv1.Spec created))
              (PodDiagnosisReconciler.effectiveTailLines created))
      with (Stream o2 (Pod_Namespace pod) (Pod_Name pod) 100).
    now rewrite Hstream. }
  rewrite (completed_after_success o2 key w1 created Hread Hstored eq_refl
             Hopen Hpatch logs result Hlogs Hai).
  split; [exact Hnil |]. split; [reflexivity |].
  eexists. split; [apply lookup_insert_eq |]. split; reflexivity.
Qed.

Lemma failed_pod_is_diagnosed_witness :
  fst (PodDiagnosisReconciler.Reconcile calm
         (Pod_Namespace crashLooping,
          (Pod_Name crashLooping +:+ "-diagnosis-") +:+ generated_suffix calm)
         (snd (PodWatcherReconciler.Reconcile calm web_key
                 (world crashLooping [])))) = None.
Proof.
  pose proof (failed_pod_is_diagnosed calm calm web_key
                (world crashLooping []) crashLooping "panic: out of memory"
                {| RootCause := "OOM"; Suggestion := "increase memory limit" |})
    as H.
  do 6 feed H.
  assert (Hall : forall key d,
            diagnoses (world crashLooping []) !! key = Some d ->
            metav1.Namespace (diagnosticv1.ObjectMeta d)
            = Pod_Namespace crashLooping ->
            diagnosticv1.PodName (diagnosticv1.Spec d) = Pod_Name crashLooping ->
            terminal d).
  { intros key d Hd. cbn in Hd. rewrite lookup_empty in Hd. discriminate. }
  specialize (H Hall). cbv zeta in H. do 5 feed H.
  exact (proj1 (proj2 H)).
Defined.

(** ** Where the fields of a result come from *)

Lemma into_string_cases (v : json.value) (field cur : string) :
  fst (json.into_string v field cur) = cur
  \/ v = json.Str (fst (json.into_string v field cur)).
Proof. destruct v; cbn; auto. Qed.

Lemma object_into_DiagnosisResult_origin
    (members : list (string * json.value)) :
  forall (r : DiagnosisResult) (saved : option json.jsonError),
    let r' := fst (object_into_DiagnosisResult members r saved) in
    (RootCause r' = RootCause r
     \/ exists key, In (key, json.Str (RootCause r')) members
                    /\ json.names "rootCause" key = true)
    /\ (Suggestion r' = Suggestion r
        \/ exists key, In (key, json.Str (Suggestion r')) members
                       /\ json.names "suggestion" key = true).
Proof.
  induction members as [|[key v] rest IH]; intros r saved; cbn zeta.
  - split; now left.
  - cbn [object_into_DiagnosisResult].
    assert (Hlift : forall (field : string) (x : string),
              (exists k, In (k, json.Str x) rest /\ json.names field k = true)
              -> exists k, In (k, json.Str x) ((key, v) :: rest)
                           /\ json.names field k = true).
    { intros field x (k & Hin & Hk). exists k. split; [now right | exact Hk]. }
    destruct (json.names "rootCause" key) eqn:E1.
    + destruct (json.into_string v "DiagnosisResult.rootCause" (RootCause r))
        as [x e] eqn:Ex.
      pose proof (into_string_cases v "DiagnosisResult.rootCause"
                    (RootCause r)) as Hx.
      rewrite Ex in Hx. cbn [fst] in Hx.
      specialize (IH {| RootCause := x; Suggestion := Suggestion r |}
                    (json.saveError saved e)).
      cbn zeta in IH. cbn [RootCause Suggestion] in IH.
      destruct IH as [IH1 IH2]. split.
      * destruct IH1 as [IH1 | IH1]; [| right; now apply Hlift].
        rewrite IH1. destruct Hx as [-> | ->]; [now left |].
        right. exists key. split; [now left | exact E1].
      * destruct IH2 as [IH2 | IH2]; [now left | right; now apply Hlift].
    + destruct (json.names "suggestion" key) eqn:E2.
      * destruct (json.into_string v "DiagnosisResult.suggestion"
                    (Suggestion r)) as [x e] eqn:Ex.
        pose proof (into_string_cases v "DiagnosisResult.suggestion"
                      (Suggestion r)) as Hx.
        rewrite Ex in Hx. cbn [fst] in Hx.
        specialize (IH {| RootCause := RootCause r; Suggestion := x |}
                      (json.saveError saved e)).
        cbn zeta in IH. cbn [RootCause Suggestion] in IH.
        destruct IH as [IH1 IH2]. split.
        -- destruct IH1 as [IH1 | IH1]; [now left | right; now apply Hlift].
        -- destruct IH2 as [IH2 | IH2]; [| right; now apply Hlift].
           rewrite IH2. destruct Hx as [-> | ->]; [now left |].
           right. exists key. split; [now left | exact E2].
      * specialize (IH r saved). cbn zeta in IH. destruct IH as [IH1 IH2].
        split.
        -- destruct IH1 as [IH1 | IH1]; [now left | right; now apply Hlift].
        -- destruct IH2 as [IH2 | IH2]; [now left | right; now apply Hlift].
Qed.

(** X25.  [callAIEndpoint] returns a result only for a content that is the
    JSON value null, which gives two empty fields, or a JSON object; and
    then each field of the result is empty or is the string found in the
    object under a key that names the field.  A number, a list or any other
    value is never turned into the text of a field. *)
Theorem result_fields_come_from_the_object (env : Environ) (net : Network)
    (podName triggerReason logs content : string) (result : DiagnosisResult) :
  answers env net podName triggerReason logs content ->
  callAIEndpoint env net podName triggerReason logs = inr result ->
  (json.parse_document content = Some json.Null
   /\ result = {| RootCause := ""; Suggestion := "" |})
  \/ exists members,
       json.parse_document content = Some (json.Object members)
       /\ (RootCause result = ""
           \/ exists key, In (key, json.Str (RootCause result)) members
                          /\ json.names "rootCause" key = true)
       /\ (Suggestion result = ""
           \/ exists key, In (key, json.Str (Suggestion result)) members
                          /\ json.names "suggestion" key = true).
Proof.
  intros Hans. rewrite (callAIEndpoint_content _ _ _ _ _ _ Hans).
  unfold Unmarshal_DiagnosisResult.
  destruct (json.parse_document content) as [v|]; [| discriminate].
  destruct v as [| b | lit | s | elements | members]; try discriminate.
  - intros H. injection H as <-. left. now split.
  - pose proof (object_into_DiagnosisResult_origin members zeroResult None)
      as Horigin.
    cbn zeta in Horigin.
    destruct (object_into_DiagnosisResult members zeroResult None)
      as [r [e|]]; [discriminate |].
    intros H. injection H as <-. right. exists members.
    split; [reflexivity | exact Horigin].
Qed.

Lemma result_fields_come_from_the_object_witness :
  (json.parse_document content_partial = Some json.Null
   /\ {| RootCause := "OOM"; Suggestion := "" |}
      = {| RootCause := ""; Suggestion := "" |})
  \/ exists members,
       json.parse_document content_partial = Some (json.Object members)
       /\ (RootCause {| RootCause := "OOM"; Suggestion := "" |} = ""
           \/ exists key,
                In (key, json.Str
                           (RootCause {| RootCause := "OOM";
                                         Suggestion := "" |})) members
                /\ json.names "rootCause" key = true)
       /\ (Suggestion {| RootCause := "OOM"; Suggestion := "" |} = ""
           \/ exists key,
                In (key, json.Str
                           (Suggestion {| RootCause := "OOM";
                                          Suggestion := "" |})) members
                /\ json.names "suggestion" key = true).
Proof.
  apply (result_fields_come_from_the_object configured
           (answering 200 (envelope content_partial))
           "web" "CrashLoopBackOff" "panic: out of memory").
  - apply (answers_envelope _ _ []). vm_compute. reflexivity.
  - vm_compute. reflexivity.
Defined.
